(** * XACRO to URDF conversion: the macro and property expansion engine

    A shallow embedding of [XacroToURDFConverter] (src/converter.py): the
    tag resolver, the variable store, the declaration collector and the
    expansion engine, with the properties of the engine proved over it.

    Modelling choices.
    - A Python [str] is a [string]; each character stands for one code
      point below 256.
    - [self.properties] and [self.macros] are dictionaries that are only
      looked up and assigned: finite maps ([gmap]).  [Element.attrib] is a
      dictionary too; the loops over [attrib.items()] write every entry
      under its own key into a fresh dictionary, so the order of the
      iteration cannot be observed and the loops are maps over the
      entries ([map_imap]).
    - The converter's fields are threaded explicitly: a method that
      assigns to [self] returns the new [Converter].
    - [ET.fromstring] and the pretty printer are library code; they are
      parameters of the section that models the public entry points.
    - The recursive methods are total functions on trees.  The bound that
      the interpreter puts on the depth of nested calls is written out in
      a second copy of them, module [Bounded], for the statement about
      the errors of [parse_xacro]. *)

From Stdlib Require Import Ascii String.
From stdpp Require Import gmap strings list fin_maps.

Local Open Scope string_scope.

(** ** Python string operations *)

Module PyStr.

(** Truth value of a string: the empty string is falsy. *)
Definition truthy (s : string) : bool :=
  match s with
  | "" => false
  | String _ _ => true
  end.

(** [c in s] for a one-character [c]. *)
Fixpoint has_char (c : ascii) (s : string) : bool :=
  match s with
  | "" => false
  | String a s' => Ascii.eqb a c || has_char c s'
  end.

(** [sub in s]: [sub] occurs in [s] as a contiguous substring. *)
Fixpoint contains (sub s : string) : bool :=
  String.prefix sub s ||
  match s with
  | "" => false
  | String _ s' => contains sub s'
  end.

(** [s.startswith(p)]. *)
Definition startswith (s p : string) : bool := String.prefix p s.

(** [s.split(c)] for a one-character separator: never empty. *)
Fixpoint split (c : ascii) (s : string) : list string :=
  match s with
  | "" => [""]
  | String a s' =>
      if Ascii.eqb a c then "" :: split c s'
      else match split c s' with
           | w :: ws => String a w :: ws
           | [] => [String a ""]
           end
  end.

(** [s.split(c, 1)] as a pair, defined when [c] occurs in [s]. *)
Fixpoint split_once (c : ascii) (s : string) : option (string * string) :=
  match s with
  | "" => None
  | String a s' =>
      if Ascii.eqb a c then Some ("", s')
      else match split_once c s' with
           | Some (p, l) => Some (String a p, l)
           | None => None
           end
  end.

(** [str.isspace] on one character (code points below 256). *)
Definition isspace (a : ascii) : bool :=
  let n := nat_of_ascii a in
  (Nat.leb 9 n && Nat.leb n 13) || (Nat.leb 28 n && Nat.leb n 32)
  || Nat.eqb n 133 || Nat.eqb n 160.

Fixpoint lstrip (s : string) : string :=
  match s with
  | "" => ""
  | String a s' => if isspace a then lstrip s' else s
  end.

Definition rstrip (s : string) : string := String.rev (lstrip (String.rev s)).

(** [s.strip()]. *)
Definition strip (s : string) : string := rstrip (lstrip s).

(** [s.split()] with no separator: the maximal runs of non-whitespace;
    [w] is the run being read. *)
Fixpoint split_ws_go (w s : string) : list string :=
  match s with
  | "" => if truthy w then [w] else []
  | String a s' =>
      if isspace a
      then (if truthy w then w :: split_ws_go "" s' else split_ws_go "" s')
      else split_ws_go (w +:+ String a "") s'
  end.

Definition split_ws (s : string) : list string := split_ws_go "" s.

End PyStr.

(** ** [re.sub] for the reference pattern

    Both substitution functions call
    [re.sub(r"\$\{([^}]+)\}", repl, text)] with a function [repl].  The
    pattern has no alternation: it matches at a position exactly when the
    text there reads [${], then a non-empty run of characters other than
    [}], then [}].  [re.sub] replaces the leftmost non-overlapping
    matches, scanning once from left to right, and copies everything
    else. *)

Module Re.

(** [[^}]+\}] without the non-emptiness test: the characters before the
    first closing brace, if there is one. *)
Fixpoint upto_brace (s : string) : option string :=
  match s with
  | "" => None
  | String a s' =>
      if Ascii.eqb a "}" then Some ""
      else match upto_brace s' with
           | Some n => Some (String a n)
           | None => None
           end
  end.

(** The pattern anchored at the head of [text]; the result is group 1. *)
Definition match_here (text : string) : option string :=
  match text with
  | String a (String b s) =>
      if Ascii.eqb a "$" && Ascii.eqb b "{" then
        match upto_brace s with
        | Some name => if PyStr.truthy name then Some name else None
        | None => None
        end
      else None
  | _ => None
  end.

(** The whole match (group 0) of a reference to [name]. *)
Definition group0 (name : string) : string := "${" +:+ name +:+ "}".

(** [sub_go repl skip text]: the scan.  [skip] counts the characters of
    the current match that are still to be consumed; [repl] receives
    group 1 and group 0. *)
Fixpoint sub_go (repl : string -> string -> string) (skip : nat)
    (text : string) : string :=
  match text with
  | "" => ""
  | String a rest =>
      match skip with
      | S k => sub_go repl k rest
      | O =>
          match match_here text with
          | Some name =>
              repl name (group0 name)
              +:+ sub_go repl (String.length name + 2) rest
          | None => String a (sub_go repl 0 rest)
          end
      end
  end.

Definition sub (repl : string -> string -> string) (text : string) : string :=
  sub_go repl 0 text.

End Re.

(** ** The document tree: [xml.etree.ElementTree.Element] *)

#[warnings="-register-all"]
Inductive Element : Type := mkElement {
  tag : string;
  attrib : gmap string string;
  text : option string;
  tail : option string;
  children : list Element }.

(** [ET.Element(tag)]: no attribute, no text, no tail, no child. *)
Definition new_Element (tg : string) : Element := mkElement tg ∅ None None [].

(** [element.get(key)] and [element.get(key, default)]. *)
Definition get (e : Element) (key : string) : option string := attrib e !! key.
Definition get_default (e : Element) (key dflt : string) : string :=
  default dflt (attrib e !! key).

(** [text and text.strip()] as a condition. *)
Definition has_content (t : option string) : bool :=
  match t with
  | Some s => PyStr.truthy s && PyStr.truthy (PyStr.strip s)
  | None => false
  end.

(** ** The converter *)

(** The three fields set by [__init__]. *)
Record Converter : Type := mkConverter {
  properties : gmap string string;
  macros : gmap string Element;
  includes : list string }.

(** [XacroToURDFConverter()]. *)
Definition init : Converter := mkConverter ∅ ∅ [].

(** *** Tag resolver *)

Definition _get_local_tag (tg : string) : string :=
  if PyStr.has_char "}" tg then List.last (PyStr.split "}" tg) ""
  else if PyStr.has_char ":" tg then List.last (PyStr.split ":" tg) ""
  else tg.

Definition declaration_keywords : list string := ["property"; "macro"; "include"].

Definition _is_xacro_element (tg : string) : bool :=
  if PyStr.has_char "}" tg && PyStr.contains "xacro" tg then true
  else if PyStr.has_char ":" tg then
    match PyStr.split_once ":" tg with
    | Some (prefix, local) =>
        bool_decide (local ∈ declaration_keywords) || String.eqb prefix "xacro"
    | None => false
    end
  else false.

(** *** Variable store *)

(** [d.get(name, group0) or group0]: a missing entry and an entry whose
    value is the empty string both give back the reference itself. *)
Definition lookup_or_keep (d : gmap string string) (name whole : string) : string :=
  match d !! name with
  | Some v => if PyStr.truthy v then v else whole
  | None => whole
  end.

Definition _resolve_properties (self : Converter) (text : string) : string :=
  Re.sub (lookup_or_keep (properties self)) text.

Definition _substitute_parameters (text : string) (params : gmap string string)
    : string :=
  Re.sub (lookup_or_keep params) text.

(** *** Declaration collector *)

(** The test of each branch of the collector: the local name is the
    keyword and the tag is a XACRO tag. *)
Definition is_declaration_of (keyword tg : string) : bool :=
  String.eqb (_get_local_tag tg) keyword && _is_xacro_element tg.

(** The body of the [property] branch: the value is resolved against the
    properties known so far, then stored; a missing or empty name stores
    nothing. *)
Definition collect_property (self : Converter) (child : Element) : Converter :=
  let name := get child "name" in
  let value := get_default child "value" "" in
  match name with
  | Some n =>
      if PyStr.truthy n then
        let value := _resolve_properties self value in
        mkConverter (<[n := value]> (properties self)) (macros self) (includes self)
      else self
  | None => self
  end.

(** The body of the [macro] branch: the macro element itself is stored. *)
Definition collect_macro (self : Converter) (child : Element) : Converter :=
  match get child "name" with
  | Some n =>
      if PyStr.truthy n then
        mkConverter (properties self) (<[n := child]> (macros self)) (includes self)
      else self
  | None => self
  end.

(** The body of the [include] branch: the file name is recorded. *)
Definition collect_include (self : Converter) (child : Element) : Converter :=
  let filename := get_default child "filename" "" in
  if PyStr.truthy filename then
    mkConverter (properties self) (macros self) (includes self ++ [filename])
  else self.

(** [_collect_xacro_elements] mutates [self] and the tree; here it returns
    both.  The inner loop visits the children in order; a declaration is
    put on [elements_to_remove], so it is absent from the children that
    are kept, and any other child is collected recursively in place.  The
    children of a parsed tree are distinct objects, so removing the marked
    ones by identity keeps exactly the others.  [base_path] is passed along
    and never read. *)
Fixpoint _collect_xacro_elements (element : Element) (self : Converter)
    : Converter * Element :=
  match element with
  | mkElement tg attrs tx tl cs =>
      let fix loop (cs : list Element) (self : Converter)
          : Converter * list Element :=
        match cs with
        | [] => (self, [])
        | child :: rest =>
            if is_declaration_of "property" (tag child) then
              loop rest (collect_property self child)
            else if is_declaration_of "macro" (tag child) then
              loop rest (collect_macro self child)
            else if is_declaration_of "include" (tag child) then
              loop rest (collect_include self child)
            else
              let '(self1, child') := _collect_xacro_elements child self in
              let '(self2, kept) := loop rest self1 in
              (self2, child' :: kept)
        end in
      let '(self', kept) := loop cs self in
      (self', mkElement tg attrs tx tl kept)
  end.

(** The loop of [_collect_xacro_elements] over a list of children, as a
    function of its own (the same text as the local [loop]). *)
Fixpoint collect_children (cs : list Element) (self : Converter)
    : Converter * list Element :=
  match cs with
  | [] => (self, [])
  | child :: rest =>
      if is_declaration_of "property" (tag child) then
        collect_children rest (collect_property self child)
      else if is_declaration_of "macro" (tag child) then
        collect_children rest (collect_macro self child)
      else if is_declaration_of "include" (tag child) then
        collect_children rest (collect_include self child)
      else
        let '(self1, child') := _collect_xacro_elements child self in
        let '(self2, kept) := collect_children rest self1 in
        (self2, child' :: kept)
  end.

(** *** Expansion engine *)

Definition _is_macro_call (self : Converter) (element : Element) : bool :=
  let local_tag := _get_local_tag (tag element) in
  if bool_decide (is_Some (macros self !! local_tag)) then true
  else if bool_decide (is_Some (macros self !! tag element)) then true
  else if _is_xacro_element (tag element)
          && bool_decide (is_Some (macros self !! local_tag)) then true
  else false.

(** [[p.strip() for p in params_attr.split() if p.strip()]]. *)
Definition param_names_of (macro_def : Element) : list string :=
  let params_attr := get_default macro_def "params" "" in
  PyStr.strip <$>
    List.filter (fun p => PyStr.truthy (PyStr.strip p)) (PyStr.split_ws params_attr).

(** The loop that builds [param_values]: the attributes of the call whose
    name is a declared parameter, each resolved against the properties. *)
Definition param_values_of (self : Converter) (param_names : list string)
    (call_element : Element) : gmap string string :=
  map_imap (fun attr_name attr_value =>
              if bool_decide (attr_name ∈ param_names)
              then Some (_resolve_properties self attr_value)
              else None)
           (attrib call_element).

(** [_expand_macro_content]: the signature allows [None], but every path
    returns [new_element], so the result is an [Element].  The new element
    gets the attributes and the text; its tail stays unset, and the
    children are copied by the same function, whatever their tag. *)
Fixpoint _expand_macro_content (self : Converter) (element : Element)
    (params : gmap string string) : Element :=
  match element with
  | mkElement tg attrs tx tl cs =>
      mkElement tg
        ((fun attr_value =>
            _resolve_properties self (_substitute_parameters attr_value params))
           <$> attrs)
        (if has_content tx
         then (fun t => _resolve_properties self (_substitute_parameters t params))
                <$> tx
         else None)
        None
        (List.map (fun child => _expand_macro_content self child params) cs)
  end.

Definition find_macro (self : Converter) (call_element : Element) : option Element :=
  let macro_name := _get_local_tag (tag call_element) in
  match macros self !! macro_name with
  | Some macro_def => Some macro_def
  | None => macros self !! tag call_element
  end.

Definition _expand_macro_call (self : Converter) (call_element : Element)
    : list Element :=
  match find_macro self call_element with
  | None => []
  | Some macro_def =>
      let param_names := param_names_of macro_def in
      let param_values := param_values_of self param_names call_element in
      List.map (fun macro_child => _expand_macro_content self macro_child param_values)
               (children macro_def)
  end.

(** The attribute loop of [_expand_xacro_elements]: an attribute whose
    name starts with [xmlns] is copied unresolved unless its value
    mentions [xacro], in which case it is skipped; any other attribute is
    copied with its value resolved. *)
Definition expand_attrib (self : Converter) (attrs : gmap string string)
    : gmap string string :=
  map_imap (fun attr_name attr_value =>
              if PyStr.startswith attr_name "xmlns" then
                if negb (PyStr.contains "xacro" attr_value)
                then Some attr_value else None
              else Some (_resolve_properties self attr_value))
           attrs.

(** The text and tail assignments of [_expand_xacro_elements]. *)
Definition expand_text (self : Converter) (t : option string) : option string :=
  if has_content t then _resolve_properties self <$> t else None.

Fixpoint _expand_xacro_elements (self : Converter) (element : Element) : Element :=
  match element with
  | mkElement tg attrs tx tl cs =>
      mkElement tg
        (expand_attrib self attrs)
        (expand_text self tx)
        (expand_text self tl)
        (List.flat_map
           (fun child =>
              if _is_macro_call self child then _expand_macro_call self child
              else if PyStr.startswith (tag child) "xacro:"
                      && negb (_is_macro_call self child) then []
              else [_expand_xacro_elements self child])
           cs)
  end.

(** *** Assembly of the output tree *)

(** [generate_urdf] up to the call of the formatter: a fresh [robot] root
    named [robot_name] with the children of the processed root whose tag
    does not start with [xacro:]. *)
Definition urdf_root_of (robot_name : string) (processed_root : Element) : Element :=
  mkElement "robot" {[ "name" := robot_name ]} None None
    (List.filter (fun child => negb (PyStr.startswith (tag child) "xacro:"))
                 (children processed_root)).

(** ** The public entry points *)

(** What a call raises. *)
Inductive Error : Type :=
| ValueError (message : string).

Section EntryPoints.

(** [ET.fromstring]: the root of the parsed text, or the message of the
    [ParseError] it raises. *)
Variable fromstring : string -> string + Element.

(** The pretty printer [_format_urdf_xml]. *)
Variable _format_urdf_xml : Element -> string.

(** A call returns its value or raises, and leaves the converter in some
    state either way. *)
Definition Call (A : Type) : Type := Converter -> (Error + A) * Converter.

Definition parse_xacro (xacro_content : string) : Call Element :=
  fun self =>
    match fromstring xacro_content with
    | inl e => (inl (ValueError ("Invalid XACRO XML: " +:+ e)), self)
    | inr root =>
        if negb (String.eqb (tag root) "robot") then
          (inl (ValueError "XACRO file must have 'robot' as root element"), self)
        else
          let '(self', root') := _collect_xacro_elements root self in
          let expanded_root := _expand_xacro_elements self' root' in
          (inr expanded_root, self')
    end.

Definition generate_urdf (robot_name : string) (processed_root : Element) : string :=
  _format_urdf_xml (urdf_root_of robot_name processed_root).

Definition convert_string (xacro_content : string) (robot_name : option string)
    : Call string :=
  fun self =>
    match parse_xacro xacro_content self with
    | (inl err, self') => (inl err, self')
    | (inr processed_root, self') =>
        let robot_name :=
          match robot_name with
          | Some n => n
          | None => get_default processed_root "name" "robot"
          end in
        (inr (generate_urdf robot_name processed_root), self')
    end.

End EntryPoints.

(** ** The depth of nested calls

    [_collect_xacro_elements], [_expand_xacro_elements] and
    [_expand_macro_content] call themselves once for every level of the
    tree they are given, and [_expand_macro_call] is one more call on the
    way into a macro body.  The interpreter bounds the depth of nested
    calls: a call beyond the bound raises [RecursionError], and
    [parse_xacro] catches nothing but the error of the parser.  The
    functions of this module are the ones above with that bound written
    out: [depth] is the number of nested calls of these four methods that
    the interpreter still allows.  The calls of the other methods do not
    recurse; they take a few levels more and are taken to fit, so the
    error is raised here at the latest.  What has been assigned to
    [self] before the error stays assigned. *)

Module Bounded.

(** What a call raises. *)
Inductive Error : Type :=
| ValueError (message : string)
| RecursionError.

(** The loop of [_collect_xacro_elements] over the children, given the
    method for the recursive call; [None] stands for the error. *)
Fixpoint collect_children
    (collect : Element -> Converter -> Converter * option Element)
    (cs : list Element) (self : Converter) : Converter * option (list Element) :=
  match cs with
  | [] => (self, Some [])
  | child :: rest =>
      if is_declaration_of "property" (tag child) then
        collect_children collect rest (collect_property self child)
      else if is_declaration_of "macro" (tag child) then
        collect_children collect rest (collect_macro self child)
      else if is_declaration_of "include" (tag child) then
        collect_children collect rest (collect_include self child)
      else
        match collect child self with
        | (self1, None) => (self1, None)
        | (self1, Some child') =>
            match collect_children collect rest self1 with
            | (self2, Some kept) => (self2, Some (child' :: kept))
            | (self2, None) => (self2, None)
            end
        end
  end.

Fixpoint _collect_xacro_elements (depth : nat) (element : Element) (self : Converter)
    : Converter * option Element :=
  match depth with
  | O => (self, None)
  | S depth' =>
      match collect_children (_collect_xacro_elements depth') (children element) self with
      | (self', Some kept) =>
          (self', Some (mkElement (tag element) (attrib element) (text element)
                          (tail element) kept))
      | (self', None) => (self', None)
      end
  end.

Fixpoint _expand_macro_content (depth : nat) (self : Converter) (element : Element)
    (params : gmap string string) : option Element :=
  match depth with
  | O => None
  | S depth' =>
      match mapM (fun child => _expand_macro_content depth' self child params)
                 (children element) with
      | Some copies =>
          Some (mkElement (tag element)
                  ((fun attr_value =>
                      _resolve_properties self (_substitute_parameters attr_value params))
                     <$> attrib element)
                  (if has_content (text element)
                   then (fun t => _resolve_properties self (_substitute_parameters t params))
                          <$> text element
                   else None)
                  None
                  copies)
      | None => None
      end
  end.

Definition _expand_macro_call (depth : nat) (self : Converter) (call_element : Element)
    : option (list Element) :=
  match depth with
  | O => None
  | S depth' =>
      match find_macro self call_element with
      | None => Some []
      | Some macro_def =>
          let param_names := param_names_of macro_def in
          let param_values := param_values_of self param_names call_element in
          mapM (fun macro_child =>
                  _expand_macro_content depth' self macro_child param_values)
               (children macro_def)
      end
  end.

Fixpoint _expand_xacro_elements (depth : nat) (self : Converter) (element : Element)
    : option Element :=
  match depth with
  | O => None
  | S depth' =>
      match mapM (fun child =>
                    if _is_macro_call self child then _expand_macro_call depth' self child
                    else if PyStr.startswith (tag child) "xacro:"
                            && negb (_is_macro_call self child) then Some []
                    else (fun expanded_child => [expanded_child])
                           <$> _expand_xacro_elements depth' self child)
                 (children element) with
      | Some expanded =>
          Some (mkElement (tag element)
                  (expand_attrib self (attrib element))
                  (expand_text self (text element))
                  (expand_text self (tail element))
                  (concat expanded))
      | None => None
      end
  end.

Section EntryPoint.

Variable fromstring : string -> string + Element.

Definition parse_xacro (depth : nat) (xacro_content : string)
    : Converter -> (Error + Element) * Converter :=
  fun self =>
    match fromstring xacro_content with
    | inl e => (inl (ValueError ("Invalid XACRO XML: " +:+ e)), self)
    | inr root =>
        if negb (String.eqb (tag root) "robot") then
          (inl (ValueError "XACRO file must have 'robot' as root element"), self)
        else
          match _collect_xacro_elements depth root self with
          | (self', None) => (inl RecursionError, self')
          | (self', Some root') =>
              match _expand_xacro_elements depth self' root' with
              | None => (inl RecursionError, self')
              | Some expanded_root => (inr expanded_root, self')
              end
          end
    end.

End EntryPoint.

End Bounded.

(** ** Notions used in the statements *)

(** The nodes of a tree in document order, the root first. *)
Fixpoint nodes (e : Element) : list Element :=
  match e with
  | mkElement tg attrs tx tl cs => mkElement tg attrs tx tl cs :: List.flat_map nodes cs
  end.

(** The nodes below the root. *)
Definition descendants (e : Element) : list Element :=
  List.flat_map nodes (children e).

(** A declaration tag: a XACRO tag whose local name is one of the three
    declaration keywords. *)
Definition is_declaration (tg : string) : bool :=
  _is_xacro_element tg && bool_decide (_get_local_tag tg ∈ declaration_keywords).

(** The tree without its declarations: at every node the children that
    are declarations are left out, and the others follow in their order,
    each stripped in turn. *)
Fixpoint strip_declarations (e : Element) : Element :=
  match e with
  | mkElement tg attrs tx tl cs =>
      mkElement tg attrs tx tl
        (List.flat_map
           (fun c => if is_declaration (tag c) then [] else [strip_declarations c])
           cs)
  end.

(** The tree with every text and tail that is empty or all whitespace
    left unset. *)
Fixpoint drop_blank_text (e : Element) : Element :=
  match e with
  | mkElement tg attrs tx tl cs =>
      mkElement tg attrs
        (if has_content tx then tx else None)
        (if has_content tl then tl else None)
        (List.map drop_blank_text cs)
  end.

(** No text or tail of the tree is empty or all whitespace. *)
Fixpoint no_blank_text (e : Element) : bool :=
  match e with
  | mkElement tg attrs tx tl cs =>
      (has_content tx || bool_decide (tx = None))
      && (has_content tl || bool_decide (tl = None))
      && forallb no_blank_text cs
  end.

(** An attribute that expansion copies as it is: not a namespace
    declaration that mentions [xacro], and with no reference that
    resolves. *)
Definition attribute_expanded (self : Converter) (name value : string) : Prop :=
  if PyStr.startswith name "xmlns" then PyStr.contains "xacro" value = false
  else _resolve_properties self value = value.

#[global] Instance attribute_expanded_dec self name value :
  Decision (attribute_expanded self name value).
Proof. unfold attribute_expanded. destruct (PyStr.startswith name "xmlns"); apply _. Defined.

(** A text with no reference that resolves. *)
Definition text_expanded (self : Converter) (t : option string) : bool :=
  match t with
  | Some s => bool_decide (_resolve_properties self s = s)
  | None => true
  end.

(** An already expanded tree, for a converter in state [self]: no child
    anywhere is a macro invocation or carries the [xacro:] prefix (which
    the declarations written with a prefix do), and no attribute, text or
    tail holds a reference that resolves or a XACRO namespace
    declaration. *)
Fixpoint fully_expanded (self : Converter) (e : Element) : bool :=
  match e with
  | mkElement tg attrs tx tl cs =>
      bool_decide (map_Forall (attribute_expanded self) attrs)
      && text_expanded self tx && text_expanded self tl
      && forallb (fun c => negb (_is_macro_call self c)
                           && negb (PyStr.startswith (tag c) "xacro:")
                           && fully_expanded self c) cs
  end.

(** One converter state is carried over into another: every property and
    every macro is still defined, and the includes recorded before are
    still there, first. *)
Definition carried_over (self self' : Converter) : Prop :=
  (forall k, is_Some (properties self !! k) -> is_Some (properties self' !! k))
  /\ (forall k, is_Some (macros self !! k) -> is_Some (macros self' !! k))
  /\ includes self `prefix_of` includes self'.

(** [s] has a character that is not whitespace. *)
Fixpoint has_nonspace (s : string) : bool :=
  match s with
  | "" => false
  | String a s' => negb (PyStr.isspace a) || has_nonspace s'
  end.

(** [text] has no dollar sign, so no reference starts in it. *)
Definition dollar_free (text : string) : bool := negb (PyStr.has_char "$" text).

(** A name that the reference pattern accepts as group 1. *)
Definition ref_name (name : string) : bool :=
  PyStr.truthy name && negb (PyStr.has_char "}" name).

(** *** Readings of a text

    A text read as a row of pieces, each a literal stretch or a
    reference [${name}]. *)
Inductive piece : Type :=
| Lit (s : string)
| Ref (name : string).

(** The pieces written out, each reference as [value] gives it. *)
Fixpoint render (value : string -> string) (ps : list piece) : string :=
  match ps with
  | [] => ""
  | Lit s :: ps' => s +:+ render value ps'
  | Ref name :: ps' => value name +:+ render value ps'
  end.

(** The text that the pieces spell: each reference written as it is. *)
Definition source (ps : list piece) : string := render Re.group0 ps.

(** [t] begins with a reference: [${], a name that the pattern accepts,
    and [}]. *)
Definition starts_reference (t : string) : Prop :=
  exists name rest, ref_name name = true /\ t = Re.group0 name +:+ rest.

(** [ps] is a reading of the text it spells: every name is one that the
    pattern accepts, and at no position inside a literal stretch does the
    text begin with a reference.  So the references of the text, from
    left to right and without overlap, are the pieces [Ref]. *)
Fixpoint reading (ps : list piece) : Prop :=
  match ps with
  | [] => True
  | Lit s :: ps' =>
      (forall a b, s = a +:+ b -> b <> "" -> ~ starts_reference (b +:+ source ps'))
      /\ reading ps'
  | Ref name :: ps' => ref_name name = true /\ reading ps'
  end.

(** A test for [reading] on given pieces: the pattern fails at every
    position of every literal stretch. *)
Fixpoint no_reference_in (s rest : string) : bool :=
  match s with
  | "" => true
  | String x s' =>
      negb (bool_decide (is_Some (Re.match_here (s +:+ rest))))
      && no_reference_in s' rest
  end.

Fixpoint readingb (ps : list piece) : bool :=
  match ps with
  | [] => true
  | Lit s :: ps' => no_reference_in s (source ps') && readingb ps'
  | Ref name :: ps' => ref_name name && readingb ps'
  end.

(** The value of [name] in [d] if it has one other than the empty
    string. *)
Definition nonempty_value (d : gmap string string) (name : string) : option string :=
  match d !! name with
  | Some v => if PyStr.truthy v then Some v else None
  | None => None
  end.

(** What a reference to [name] stands for: among the properties; among
    the bindings of a macro call; and in the body of a macro, where a
    binding comes before a property.  A name with no value stands for
    the reference itself. *)
Definition global_value (self : Converter) (name : string) : string :=
  default (Re.group0 name) (nonempty_value (properties self) name).

Definition local_value (params : gmap string string) (name : string) : string :=
  default (Re.group0 name) (nonempty_value params name).

Definition scoped_value (self : Converter) (params : gmap string string)
    (name : string) : string :=
  match nonempty_value params name with
  | Some v => v
  | None => global_value self name
  end.

(** [v] has none of the characters that make a reference. *)
Definition inert (v : string) : bool :=
  negb (PyStr.has_char "$" v) && negb (PyStr.has_char "{" v)
  && negb (PyStr.has_char "}" v).

(** The references of [qs] are names that the pattern accepts, and [f]
    writes each of them as it is, or as text that is not empty and has
    none of the characters of a reference. *)
Definition eased (f : string -> string) (qs : list piece) : Prop :=
  Forall (fun p => match p with
                   | Lit _ => True
                   | Ref name =>
                       ref_name name = true
                       /\ (f name = Re.group0 name
                           \/ (inert (f name) = true /\ f name <> ""))
                   end) qs.

(** The nodes that the document walker comes to from [e]: [e], and the
    nodes it comes to from a child of [e] that is neither an invocation
    nor written with the prefix [xacro:]. *)
Inductive visited (self : Converter) : Element -> Element -> Prop :=
| visited_here e : visited self e e
| visited_below e c n :
    c ∈ children e ->
    _is_macro_call self c = false ->
    PyStr.startswith (tag c) "xacro:" = false ->
    visited self c n ->
    visited self e n.



(** ** Sample documents *)

Module Sample.

(** The tag that [ET.fromstring] gives an element written [xacro:local]
    under the usual namespace declaration. *)
Definition xacro (local : string) : string :=
  "{http://www.ros.org/wiki/xacro}" +:+ local.

(** An element with attributes and children, no text and no tail. *)
Definition elem (tg : string) (attrs : list (string * string))
    (cs : list Element) : Element :=
  mkElement tg (list_to_map attrs) None None cs.

(** A macro [inner] with one parameter, a macro [outer] whose body invokes
    [inner], and an invocation of [outer]. *)
Definition nested_macros : Element :=
  elem "robot" [("name", "r")]
    [ elem (xacro "macro") [("name", "inner"); ("params", "n")]
        [ elem "link" [("name", "${n}")] [] ];
      elem (xacro "macro") [("name", "outer")]
        [ elem (xacro "inner") [("n", "a")] [] ];
      elem (xacro "outer") [] [] ].

(** What the expansion of [nested_macros] is if the invocation of [inner]
    in the body of [outer] is expanded too. *)
Definition nested_macros_expanded : Element :=
  elem "robot" [("name", "r")] [ elem "link" [("name", "a")] [] ].

(** An invocation of a macro that is defined nowhere, between two links. *)
Definition unknown_macro : Element :=
  elem "robot" [("name", "r")]
    [ elem "link" [("name", "a")] [];
      elem (xacro "wheel") [("side", "left")] [];
      elem "link" [("name", "b")] [] ].

(** The same with the invocation left out. *)
Definition unknown_macro_dropped : Element :=
  elem "robot" [("name", "r")]
    [ elem "link" [("name", "a")] [];
      elem "link" [("name", "b")] [] ].

(** The same document with the tag of the invocation written with the
    bare prefix. *)
Definition unknown_macro_prefixed : Element :=
  elem "robot" [("name", "r")]
    [ elem "link" [("name", "a")] [];
      elem "xacro:wheel" [("side", "left")] [];
      elem "link" [("name", "b")] [] ].

(** Property [x] is 1; macro [m] has parameter [x] and refers to it in an
    attribute and in a text; the invocation passes 2. *)
Definition shadowing : Element :=
  elem "robot" [("name", "r")]
    [ elem (xacro "property") [("name", "x"); ("value", "1")] [];
      elem (xacro "macro") [("name", "m"); ("params", "x")]
        [ mkElement "link" {[ "name" := "l${x}" ]} (Some "v=${x}") None [] ];
      elem (xacro "m") [("x", "2")] [] ].

(** Property [a] is defined from [b] before [b] is, so its value keeps the
    reference; the invocation of [m] passes that value as [p]. *)
Definition late_property : Element :=
  elem "robot" [("name", "r")]
    [ elem (xacro "property") [("name", "a"); ("value", "${b}")] [];
      elem (xacro "property") [("name", "b"); ("value", "Y")] [];
      elem (xacro "macro") [("name", "m"); ("params", "p")]
        [ elem "link" [("name", "${p}")] [] ];
      elem (xacro "m") [("p", "${a}")] [] ].

(** A document with line breaks between its elements and nothing to
    expand. *)
Definition indented : Element :=
  mkElement "robot" {[ "name" := "r" ]} (Some (String "010" "  ")) None
    [ mkElement "link" {[ "name" := "a" ]} None (Some (String "010" "")) [] ].

(** A first document that declares a property and a macro, and a second
    one that uses both without declaring them. *)
Definition first_document : Element :=
  elem "robot" [("name", "one")]
    [ elem (xacro "property") [("name", "radius"); ("value", "0.1")] [];
      elem (xacro "macro") [("name", "wheel")] [ elem "link" [("name", "w")] [] ] ].

Definition second_document : Element :=
  elem "robot" [("name", "two")]
    [ elem "link" [("name", "${radius}")] [];
      elem (xacro "wheel") [] [] ].

(** The expansion of the second document by a fresh converter, and by a
    converter that has converted the first document before. *)
Definition second_fresh : Element :=
  elem "robot" [("name", "two")]
    [ elem "link" [("name", "${radius}")] [];
      elem (xacro "wheel") [] [] ].

Definition second_after_first : Element :=
  elem "robot" [("name", "two")]
    [ elem "link" [("name", "0.1")] [];
      elem "link" [("name", "w")] [] ].

(** A parser that knows these two documents by name. *)
Definition toy_fromstring (content : string) : string + Element :=
  if String.eqb content "first" then inr first_document
  else if String.eqb content "second" then inr second_document
  else inl "syntax error: line 1, column 0".

(** A formatter that prints the tag of the root and the tags of its
    children. *)
Definition toy_format (e : Element) : string :=
  tag e +:+ ":" +:+ String.concat "," (tag <$> children e).

(** Properties [prefix] and [x]; macro [m] has parameter [x] and refers
    to it behind a reference to [prefix], and behind text with a dollar
    sign; the invocation, inside a link, passes 2. *)
Definition shadowing_mixed : Element :=
  elem "robot" [("name", "r")]
    [ elem (xacro "property") [("name", "prefix"); ("value", "p_")] [];
      elem (xacro "property") [("name", "x"); ("value", "1")] [];
      elem (xacro "macro") [("name", "m"); ("params", "x")]
        [ elem "link" [("name", "${prefix}${x}")]
            [ elem "mesh" [("filename", "$(find pkg)/${x}.stl")] [] ] ];
      elem "group" [] [ elem (xacro "m") [("x", "2")] [] ] ].

(** What [shadowing_mixed] expands to. *)
Definition shadowing_mixed_expanded : Element :=
  elem "robot" [("name", "r")]
    [ elem "group" []
        [ elem "link" [("name", "p_2")]
            [ elem "mesh" [("filename", "$(find pkg)/2.stl")] [] ] ] ].


End Sample.

(** ** The URDF to XACRO converter

    [URDFToXacroConverter] reads a flat description and writes a templated
    one.  Its dictionaries are iterated in insertion order and that order
    decides the order of the output, so they are association lists with
    the update of Python's [dict].  Floating point numbers are not
    modelled: the type [float], the conversion [float(...)] from a string
    (which raises a [ValueError] with a message), [float(0)], [str(...)]
    of a float, and the text of the mean of a list of floats are
    parameters. *)

Module PyDict.

Section Dict.

Context {V : Type}.

(** [d.get(k)]. *)
Fixpoint get (d : list (string * V)) (k : string) : option V :=
  match d with
  | [] => None
  | (k', v) :: d' => if String.eqb k' k then Some v else get d' k
  end.

(** [d[k] = v]: the value changes in place, a new key goes to the end. *)
Fixpoint set (d : list (string * V)) (k : string) (v : V) : list (string * V) :=
  match d with
  | [] => [(k, v)]
  | (k', v') :: d' =>
      if String.eqb k' k then (k', v) :: d' else (k', v') :: set d' k v
  end.

(** [k in d]. *)
Definition mem (d : list (string * V)) (k : string) : bool :=
  match get d k with
  | Some _ => true
  | None => false
  end.

(** [d.values()] and [d.keys()]. *)
Definition values (d : list (string * V)) : list V := snd <$> d.
Definition keys (d : list (string * V)) : list string := fst <$> d.

End Dict.

End PyDict.

(** [s.rsplit(c, 1)] when [c] occurs in [s]: the text before the last
    [c] and the text behind it. *)
Fixpoint rsplit_once (c : ascii) (s : string) : option (string * string) :=
  match s with
  | "" => None
  | String a s' =>
      match rsplit_once c s' with
      | Some (h, t) => Some (String a h, t)
      | None => if Ascii.eqb a c then Some ("", s') else None
      end
  end.

(** [s.rsplit(c, 1)[0]]. *)
Definition rsplit_head (c : ascii) (s : string) : string :=
  match rsplit_once c s with
  | Some (h, _) => h
  | None => s
  end.

(** [element.find(tag)] and [element.findall(tag)] for a plain tag: the
    first child with that tag, and all of them in order. *)
Definition find (e : Element) (tg : string) : option Element :=
  List.find (fun c => String.eqb (tag c) tg) (children e).

Definition findall (e : Element) (tg : string) : list Element :=
  List.filter (fun c => String.eqb (tag c) tg) (children e).

(** The text that a copy keeps: none when the element has children, else
    the text if it is more than whitespace. *)
Definition copied_text (child : Element) : option string :=
  match children child with
  | _ :: _ => None
  | [] => if has_content (text child) then text child else None
  end.

(** The element that [_copy_element_with_parameterization] makes for one
    child of its source: the three branches of its attribute loop all
    copy the attribute as it is. *)
Fixpoint copy_element (child : Element) : Element :=
  match child with
  | mkElement tg attrs tx tl cs =>
      mkElement tg attrs (copied_text (mkElement tg attrs tx tl cs)) None
        (List.map copy_element cs)
  end.

(** [_copy_element_with_parameterization(source, target)]: the copies of
    the children of [source] are appended to [target]. *)
Definition _copy_element_with_parameterization (source target : Element) : Element :=
  mkElement (tag target) (attrib target) (text target) (tail target)
    (children target ++ List.map copy_element (children source)).

(** The attribute loop of [_parameterize_link_element] for a child with
    tag [tg]. *)
Definition parameterize_attrib (tg : string) (attrs : gmap string string)
    : gmap string string :=
  map_imap (fun attr_name attr_value =>
              Some (if String.eqb attr_name "filename"
                       && PyStr.contains "package://" attr_value
                    then "${mesh_file}"
                    else if String.eqb attr_name "value" && String.eqb tg "mass"
                    then "${mass}"
                    else attr_value))
           attrs.

Fixpoint parameterize_element (child : Element) : Element :=
  match child with
  | mkElement tg attrs tx tl cs =>
      mkElement tg (parameterize_attrib tg attrs)
        (copied_text (mkElement tg attrs tx tl cs)) None
        (List.map parameterize_element cs)
  end.

Definition _parameterize_link_element (source_elem target_elem : Element) : Element :=
  mkElement (tag target_elem) (attrib target_elem) (text target_elem)
    (tail target_elem)
    (children target_elem ++ List.map parameterize_element (children source_elem)).

(** [_extract_mesh_pattern]. *)
Definition _extract_mesh_pattern (mesh_filename : string) : string :=
  if negb (PyStr.truthy mesh_filename) then "unknown"
  else if PyStr.contains "package://" mesh_filename
          && (3 <=? length (PyStr.split "/" mesh_filename))%nat then
    let parts := PyStr.split "/" mesh_filename in
    let package := nth 1 parts "" in
    let filename := List.last parts "" in
    let base_name := rsplit_head "." filename in
    package +:+ "_" +:+ base_name
  else "default".

(** The name that a link or a reference to a link gets in the output. *)
Definition prefixed_link_name (name : string) : string :=
  if String.eqb name "base_link" then "${prefix}${base_link_name}"
  else "${prefix}" +:+ name.

Section Floats.

Variable float : Type.

(** [float(s)]: the number, or the message of the [ValueError]. *)
Variable float_of_string : string -> string + float.

(** [float(0)]. *)
Variable float_zero : float.

(** [str(x)]. *)
Variable str_of_float : float -> string.

(** [str(sum(masses) / len(masses))] for a non-empty list. *)
Variable str_of_mean : list float -> string.

Record LinkInfo : Type := mkLinkInfo {
  link_name : string;
  link_element : Element;
  mass : option float;
  inertia : option (gmap string float);
  visual_mesh : option string;
  collision_mesh : option string }.

Record JointInfo : Type := mkJointInfo {
  joint_name : string;
  joint_element : Element;
  joint_type : string;
  parent : string;
  child : string;
  axis : option (float * float * float);
  limits : option (gmap string float) }.

(** The fields set by [URDFToXacroConverter.__init__]. *)
Record UrdfConverter : Type := mkUrdfConverter {
  links : list (string * LinkInfo);
  joints : list (string * JointInfo);
  materials : list (string * Element);
  urdf_properties : list (string * string);
  urdf_macros : list Element }.

Definition urdf_init : UrdfConverter := mkUrdfConverter [] [] [] [] [].

(** [float(e.get(key, 0))]. *)
Definition float_attr (e : Element) (key : string) : string + float :=
  match attrib e !! key with
  | Some s => float_of_string s
  | None => inr float_zero
  end.

(** The file name of the mesh under [visual] or [collision]. *)
Definition mesh_filename_of (link_element : Element) (kind : string) : option string :=
  match find link_element kind with
  | Some v =>
      match find v "geometry" with
      | Some geometry =>
          match find geometry "mesh" with
          | Some mesh => get mesh "filename"
          | None => None
          end
      | None => None
      end
  | None => None
  end.

(** The six entries of the inertia dictionary, converted in the order of
    the source; the first conversion that fails raises. *)
Definition inertia_of (inertia_elem : Element) : string + gmap string float :=
  match float_attr inertia_elem "ixx" with inl e => inl e | inr ixx =>
  match float_attr inertia_elem "ixy" with inl e => inl e | inr ixy =>
  match float_attr inertia_elem "ixz" with inl e => inl e | inr ixz =>
  match float_attr inertia_elem "iyy" with inl e => inl e | inr iyy =>
  match float_attr inertia_elem "iyz" with inl e => inl e | inr iyz =>
  match float_attr inertia_elem "izz" with inl e => inl e | inr izz =>
    inr (<["izz" := izz]> (<["iyz" := iyz]> (<["iyy" := iyy]>
        (<["ixz" := ixz]> (<["ixy" := ixy]> (<["ixx" := ixx]> ∅))))))
  end end end end end end.

(** [_extract_link_info]: the link, or the [ValueError] of a malformed
    inertia entry.  A malformed mass is caught and gives no mass. *)
Definition _extract_link_info (link_element : Element) : Error + LinkInfo :=
  let name := get_default link_element "name" "" in
  let inertial := find link_element "inertial" in
  let mass :=
    match inertial with
    | Some i =>
        match find i "mass" with
        | Some mass_elem =>
            match float_attr mass_elem "value" with
            | inr m => Some m
            | inl _ => None
            end
        | None => None
        end
    | None => None
    end in
  let inertia :=
    match inertial with
    | Some i =>
        match find i "inertia" with
        | Some inertia_elem =>
            match inertia_of inertia_elem with
            | inr d => inr (Some d)
            | inl e => inl (ValueError e)
            end
        | None => inr None
        end
    | None => inr None
    end in
  match inertia with
  | inl err => inl err
  | inr inertia =>
      inr (mkLinkInfo name link_element mass inertia
             (mesh_filename_of link_element "visual")
             (mesh_filename_of link_element "collision"))
  end.

(** [[float(x) for x in xyz.split()]]: the numbers, or nothing when one
    of the conversions raises. *)
Fixpoint floats_of (words : list string) : option (list float) :=
  match words with
  | [] => Some []
  | w :: ws =>
      match float_of_string w with
      | inl _ => None
      | inr x =>
          match floats_of ws with
          | Some xs => Some (x :: xs)
          | None => None
          end
      end
  end.

Definition axis_of (axis_elem : Element) : option (float * float * float) :=
  let xyz := get_default axis_elem "xyz" "0 0 0" in
  match floats_of (PyStr.split_ws xyz) with
  | Some [x; y; z] => Some (x, y, z)
  | _ => None
  end.

(** The loop over the four limit attributes. *)
Definition limits_of (limit_elem : Element) : gmap string float :=
  foldl (fun limits attr =>
           match get limit_elem attr with
           | Some value =>
               match float_of_string value with
               | inr x => <[attr := x]> limits
               | inl _ => limits
               end
           | None => limits
           end)
        ∅ ["lower"; "upper"; "effort"; "velocity"].

Definition _extract_joint_info (joint_element : Element) : JointInfo :=
  let name := get_default joint_element "name" "" in
  let joint_type := get_default joint_element "type" "" in
  let parent :=
    match find joint_element "parent" with
    | Some parent_elem => get_default parent_elem "link" ""
    | None => ""
    end in
  let child :=
    match find joint_element "child" with
    | Some child_elem => get_default child_elem "link" ""
    | None => ""
    end in
  let axis :=
    match find joint_element "axis" with
    | Some axis_elem => axis_of axis_elem
    | None => None
    end in
  let limits :=
    match find joint_element "limit" with
    | Some limit_elem => Some (limits_of limit_elem)
    | None => None
    end in
  mkJointInfo name joint_element joint_type parent child axis limits.

(** The first loop of [parse_urdf]: it stops at the first link that
    raises, with the links before it stored. *)
Fixpoint extract_links (ls : list Element) (self : UrdfConverter)
    : option Error * UrdfConverter :=
  match ls with
  | [] => (None, self)
  | link :: rest =>
      match _extract_link_info link with
      | inl err => (Some err, self)
      | inr link_info =>
          extract_links rest
            (mkUrdfConverter (PyDict.set (links self) (link_name link_info) link_info)
               (joints self) (materials self) (urdf_properties self) (urdf_macros self))
      end
  end.

Definition extract_joints (js : list Element) (self : UrdfConverter) : UrdfConverter :=
  foldl (fun self joint =>
           let joint_info := _extract_joint_info joint in
           mkUrdfConverter (links self)
             (PyDict.set (joints self) (joint_name joint_info) joint_info)
             (materials self) (urdf_properties self) (urdf_macros self))
        self js.

Definition extract_materials (ms : list Element) (self : UrdfConverter) : UrdfConverter :=
  foldl (fun self material =>
           match get material "name" with
           | Some name =>
               if PyStr.truthy name then
                 mkUrdfConverter (links self) (joints self)
                   (PyDict.set (materials self) name material)
                   (urdf_properties self) (urdf_macros self)
               else self
           | None => self
           end)
        self ms.

(** [_identify_common_patterns]: the links with a mesh, grouped by the
    pattern of the mesh in the order of [self.links]; the groups of two
    links or more, under the key [mesh_] and the pattern. *)
Definition group_by_mesh (ls : list LinkInfo) : list (string * list LinkInfo) :=
  foldl (fun mesh_patterns link =>
           match visual_mesh link with
           | Some mesh =>
               if PyStr.truthy mesh then
                 let mesh_base := _extract_mesh_pattern mesh in
                 let mesh_patterns :=
                   if negb (PyDict.mem mesh_patterns mesh_base)
                   then PyDict.set mesh_patterns mesh_base []
                   else mesh_patterns in
                 PyDict.set mesh_patterns mesh_base
                   (default [] (PyDict.get mesh_patterns mesh_base) ++ [link])%list
               else mesh_patterns
           | None => mesh_patterns
           end)
        [] ls.

Definition _identify_common_patterns (self : UrdfConverter)
    : list (string * list LinkInfo) :=
  foldl (fun patterns '(pattern, ls) =>
           if (1 <? length ls)%nat
           then PyDict.set patterns ("mesh_" +:+ pattern) ls
           else patterns)
        [] (group_by_mesh (PyDict.values (links self))).

(** [_create_properties]. *)
Definition _create_properties (self : UrdfConverter) : UrdfConverter :=
  let masses := omap mass (PyDict.values (links self)) in
  let properties := urdf_properties self in
  let properties :=
    match masses with
    | [] => properties
    | _ :: _ => PyDict.set properties "default_mass" (str_of_mean masses)
    end in
  let properties := PyDict.set properties "default_color" "0.8 0.8 0.8 1.0" in
  let properties := PyDict.set properties "package_name" "robot_description" in
  let properties := PyDict.set properties "prefix" "" in
  let properties := PyDict.set properties "base_link_name" "base_link" in
  mkUrdfConverter (links self) (joints self) (materials self) properties
    (urdf_macros self).

(** [_create_link_macro].  An [Element] without children is false, so a
    template without children gives no macro. *)
Definition _create_link_macro (pattern_name : string) (template_link : LinkInfo)
    : option Element :=
  match children (link_element template_link) with
  | [] => None
  | _ :: _ =>
      let params := ["prefix"; "link_name"; "mesh_file"] in
      let params :=
        match mass template_link with
        | Some _ => (params ++ ["mass"])%list
        | None => params
        end in
      let params_str := String.concat " " params in
      let link_elem :=
        mkElement "link" {[ "name" := "${prefix}${link_name}" ]} None None [] in
      Some (mkElement "xacro:macro"
              (<["params" := params_str]> {[ "name" := pattern_name +:+ "_link" ]})
              None None
              [ _parameterize_link_element (link_element template_link) link_elem ])
  end.

(** [_create_macro_call]: every path returns the call. *)
Definition _create_macro_call (pattern_name : string) (link : LinkInfo)
    (use_prefix : bool) : Element :=
  let attrs : gmap string string := ∅ in
  let attrs :=
    if use_prefix then
      let attrs := <["prefix" := "${prefix}"]> attrs in
      if String.eqb (link_name link) "base_link"
      then <["link_name" := "${base_link_name}"]> attrs
      else <["link_name" := link_name link]> attrs
    else <["link_name" := link_name link]> attrs in
  let attrs :=
    match visual_mesh link with
    | Some mesh => if PyStr.truthy mesh then <["mesh_file" := mesh]> attrs else attrs
    | None => attrs
    end in
  let attrs :=
    match mass link with
    | Some m => <["mass" := str_of_float m]> attrs
    | None => attrs
    end in
  mkElement ("xacro:" +:+ pattern_name +:+ "_link") attrs None None [].

(** [_create_prefixed_link]: the loop passes each child of the link as
    the source of the copy, so what is appended to the new link are the
    copies of the children of the children. *)
Definition _create_prefixed_link (link : LinkInfo) : Element :=
  foldl (fun link_elem child => _copy_element_with_parameterization child link_elem)
        (mkElement "link" {[ "name" := prefixed_link_name (link_name link) ]}
           None None [])
        (children (link_element link)).

(** The element that [_create_prefixed_joint] makes for one child of the
    joint. *)
Definition prefixed_joint_child (child : Element) : Element :=
  mkElement (tag child)
    (map_imap (fun attr_name attr_value =>
                 Some (if String.eqb attr_name "link"
                       then prefixed_link_name attr_value
                       else attr_value))
              (attrib child))
    (copied_text child) None
    (List.map copy_element (children child)).

Definition _create_prefixed_joint (joint : JointInfo) : Element :=
  mkElement "joint"
    (map_imap (fun attr_name attr_value =>
                 Some (if String.eqb attr_name "name"
                       then "${prefix}" +:+ attr_value
                       else attr_value))
              (attrib (joint_element joint)))
    None None
    (List.map prefixed_joint_child (children (joint_element joint))).

(** The second loop of [_create_main_robot_macro]: one call for each link
    of each pattern whose name has not been seen; [processed_links] is
    the set of the names seen. *)
Fixpoint calls_for (pattern_name : string) (ls : list LinkInfo)
    (processed_links : list string) : list Element * list string :=
  match ls with
  | [] => ([], processed_links)
  | link :: rest =>
      if bool_decide (link_name link ∈ processed_links)
      then calls_for pattern_name rest processed_links
      else
        let '(calls, processed) :=
          calls_for pattern_name rest (processed_links ++ [link_name link])%list in
        (_create_macro_call pattern_name link true :: calls, processed)
  end.

Fixpoint pattern_calls (patterns : list (string * list LinkInfo))
    (processed_links : list string) : list Element * list string :=
  match patterns with
  | [] => ([], processed_links)
  | (pattern_name, ls) :: rest =>
      let '(calls, processed) := calls_for pattern_name ls processed_links in
      let '(calls', processed') := pattern_calls rest processed in
      ((calls ++ calls')%list, processed')
  end.

Definition _create_main_robot_macro (self : UrdfConverter) (robot_name : string)
    : Element :=
  let patterns := _identify_common_patterns self in
  let sub_macros :=
    omap (fun '(pattern_name, ls) =>
            match ls with
            | template :: _ => _create_link_macro pattern_name template
            | [] => None
            end) patterns in
  let '(calls, processed_links) := pattern_calls patterns [] in
  let remaining :=
    List.map _create_prefixed_link
      (List.filter (fun link => negb (bool_decide (link_name link ∈ processed_links)))
         (PyDict.values (links self))) in
  let prefixed_joints := List.map _create_prefixed_joint (PyDict.values (joints self)) in
  mkElement "xacro:macro"
    (<["params" := "prefix base_link_name"]> {[ "name" := robot_name ]})
    None None
    (sub_macros ++ calls ++ remaining ++ prefixed_joints)%list.

(** [generate_xacro] up to the call of the formatter: the root that is
    formatted, and the converter with the properties it has created. *)
Definition xacro_root_of (self : UrdfConverter) (robot_name : string)
    : Element * UrdfConverter :=
  let self := _create_properties self in
  let property_elems :=
    List.map (fun '(prop_name, prop_value) =>
                mkElement "xacro:property"
                  (<["value" := prop_value]> {[ "name" := prop_name ]}) None None [])
             (urdf_properties self) in
  let main_macro := _create_main_robot_macro self robot_name in
  let macro_call :=
    mkElement ("xacro:" +:+ robot_name)
      (<["base_link_name" := "${base_link_name}"]> {[ "prefix" := "${prefix}" ]})
      None None [] in
  (mkElement "robot"
     (<["xmlns:xacro" := "http://www.ros.org/wiki/xacro"]> {[ "name" := robot_name ]})
     None None
     (property_elems ++ PyDict.values (materials self)
        ++ [main_macro; macro_call])%list,
   self).

Section UrdfEntryPoints.

Variable fromstring : string -> string + Element.
Variable _format_xacro_xml : Element -> string.

Definition UrdfCall (A : Type) : Type :=
  UrdfConverter -> (Error + A) * UrdfConverter.

Definition parse_urdf (urdf_content : string) : UrdfCall Element :=
  fun self =>
    match fromstring urdf_content with
    | inl e => (inl (ValueError ("Invalid URDF XML: " +:+ e)), self)
    | inr root =>
        if negb (String.eqb (tag root) "robot") then
          (inl (ValueError "URDF file must have 'robot' as root element"), self)
        else
          match extract_links (findall root "link") self with
          | (Some err, self') => (inl err, self')
          | (None, self') =>
              let self' := extract_joints (findall root "joint") self' in
              let self' := extract_materials (findall root "material") self' in
              (inr root, self')
          end
    end.

Definition urdf_convert_string (urdf_content : string) (robot_name : option string)
    : UrdfCall string :=
  fun self =>
    match parse_urdf urdf_content self with
    | (inl err, self') => (inl err, self')
    | (inr root, self') =>
        let robot_name :=
          match robot_name with
          | Some n => n
          | None => get_default root "name" "robot"
          end in
        let '(xacro_root, self'') := xacro_root_of self' robot_name in
        (inr (_format_xacro_xml xacro_root), self'')
    end.

End UrdfEntryPoints.

End Floats.

Arguments mkLinkInfo {float}.
Arguments link_name {float}.
Arguments link_element {float}.
Arguments mass {float}.
Arguments inertia {float}.
Arguments visual_mesh {float}.
Arguments collision_mesh {float}.
Arguments mkJointInfo {float}.
Arguments joint_name {float}.
Arguments joint_element {float}.
Arguments joint_type {float}.
Arguments parent {float}.
Arguments child {float}.
Arguments axis {float}.
Arguments limits {float}.
Arguments mkUrdfConverter {float}.
Arguments links {float}.
Arguments joints {float}.
Arguments materials {float}.
Arguments urdf_properties {float}.
Arguments urdf_macros {float}.
Arguments urdf_init {float}.
Arguments float_attr {float}.
Arguments inertia_of {float}.
Arguments _extract_link_info {float}.
Arguments floats_of {float}.
Arguments axis_of {float}.
Arguments limits_of {float}.
Arguments _extract_joint_info {float}.
Arguments extract_links {float}.
Arguments extract_joints {float}.
Arguments extract_materials {float}.
Arguments group_by_mesh {float}.
Arguments _identify_common_patterns {float}.
Arguments _create_properties {float}.
Arguments _create_link_macro {float}.
Arguments _create_macro_call {float}.
Arguments _create_prefixed_link {float}.
Arguments _create_prefixed_joint {float}.
Arguments calls_for {float}.
Arguments pattern_calls {float}.
Arguments _create_main_robot_macro {float}.
Arguments xacro_root_of {float}.
Arguments parse_urdf {float}.
Arguments urdf_convert_string {float}.

(** The converter keeps what it held: every link, joint and material
    that is stored is still stored. *)
Definition urdf_kept {float : Type} (self self' : UrdfConverter float) : Prop :=
  (forall k, PyDict.mem (links self) k = true -> PyDict.mem (links self') k = true)
  /\ (forall k, PyDict.mem (joints self) k = true -> PyDict.mem (joints self') k = true)
  /\ (forall k, PyDict.mem (materials self) k = true ->
                PyDict.mem (materials self') k = true).

(** The links are stored under their own names, each name once. *)
Definition keyed_by_name {float : Type} (self : UrdfConverter float) : Prop :=
  NoDup (PyDict.keys (links self))
  /\ Forall (fun entry => link_name entry.2 = entry.1) (links self).

(** * Facts about the model *)

(** ** Induction over trees *)

Lemma Element_ind_nested (P : Element -> Prop) :
  (forall tg attrs tx tl cs, Forall P cs -> P (mkElement tg attrs tx tl cs)) ->
  forall e, P e.
Proof.
  intros step. fix IH 1. intros [tg attrs tx tl cs]. apply step.
  induction cs as [|c cs IHcs]; constructor; [apply IH | exact IHcs].
Qed.

(** ** Strings *)

#[local] Arguments String.append : simpl nomatch.

Lemma str_app_assoc (a b c : string) : (a +:+ b) +:+ c = a +:+ (b +:+ c).
Proof. induction a as [|x a IH]; simpl; [reflexivity | by rewrite IH]. Qed.

Lemma str_app_nil_r (a : string) : a +:+ "" = a.
Proof. induction a as [|x a IH]; simpl; [reflexivity | by rewrite IH]. Qed.

Lemma str_length_app (a b : string) :
  String.length (a +:+ b) = String.length a + String.length b.
Proof. induction a as [|x a IH]; simpl; [reflexivity | by rewrite IH]. Qed.

Lemma has_char_app c (a b : string) :
  PyStr.has_char c (a +:+ b) = PyStr.has_char c a || PyStr.has_char c b.
Proof.
  induction a as [|x a IH]; simpl; [reflexivity |].
  rewrite IH. by rewrite orb_assoc.
Qed.

Lemma has_char_true c (s : string) :
  PyStr.has_char c s = true <-> exists a b, s = a +:+ String c b.
Proof.
  split.
  - induction s as [|x s IH]; simpl; [discriminate |].
    destruct (Ascii.eqb_spec x c) as [->|Hne]; simpl.
    + intros _. by exists "", s.
    + intros Hs. destruct (IH Hs) as (a & b & ->). by exists (String x a), b.
  - intros (a & b & ->). rewrite has_char_app. simpl.
    rewrite Ascii.eqb_refl. simpl. apply orb_true_r.
Qed.

Lemma prefix_true (p s : string) :
  String.prefix p s = true <-> exists r, s = p +:+ r.
Proof.
  revert s. induction p as [|x p IH]; intros s.
  - destruct s; simpl; split; eauto.
  - destruct s as [|y s]; simpl.
    + split; [discriminate | intros [r Hr]; discriminate].
    + destruct (ascii_dec x y) as [->|Hne].
      * rewrite IH. split; intros [r Hr]; exists r; [by rewrite Hr | by injection Hr].
      * split; [discriminate | intros [r Hr]; injection Hr; congruence].
Qed.

Lemma contains_nil (sub : string) :
  PyStr.contains sub "" = String.prefix sub "" || false.
Proof. reflexivity. Qed.

Lemma contains_cons (sub : string) x (s : string) :
  PyStr.contains sub (String x s)
  = String.prefix sub (String x s) || PyStr.contains sub s.
Proof. reflexivity. Qed.

Lemma contains_true (sub s : string) :
  PyStr.contains sub s = true <-> exists a b, s = a +:+ sub +:+ b.
Proof.
  split.
  - induction s as [|x s IH].
    + rewrite contains_nil, orb_false_r. intros [r Hr]%prefix_true. by exists "", r.
    + rewrite contains_cons. intros [[r Hr]%prefix_true | Hs]%orb_true_iff.
      * by exists "", r.
      * destruct (IH Hs) as (a & b & ->). by exists (String x a), b.
  - intros (a & b & ->). induction a as [|x a IH].
    + change ("" +:+ sub +:+ b) with (sub +:+ b).
      assert (String.prefix sub (sub +:+ b) = true) as Hp
        by (apply prefix_true; by exists b).
      destruct (sub +:+ b) as [|y r].
      * by rewrite contains_nil, Hp.
      * by rewrite contains_cons, Hp.
    + change (String x a +:+ sub +:+ b) with (String x (a +:+ sub +:+ b)).
      rewrite contains_cons, IH. apply orb_true_r.
Qed.

Lemma split_once_Some c (s p l : string) :
  PyStr.split_once c s = Some (p, l)
  <-> s = p +:+ String c l /\ PyStr.has_char c p = false.
Proof.
  revert p. induction s as [|x s IH]; intros p; simpl.
  - split; [discriminate |]. intros [H _]. destruct p; discriminate.
  - destruct (Ascii.eqb_spec x c) as [->|Hne].
    + split.
      * intros [= <- <-]. by split.
      * intros [H Hp]. destruct p as [|y p]; simpl in *.
        -- by injection H as ->.
        -- injection H as -> _. rewrite Ascii.eqb_refl in Hp. discriminate.
    + destruct (PyStr.split_once c s) as [[p' l']|] eqn:E.
      * split.
        -- intros [= <- <-]. destruct (proj1 (IH p') eq_refl) as [-> Hp'].
           split; [reflexivity |]. simpl.
           apply Ascii.eqb_neq in Hne. by rewrite Hne.
        -- intros [H Hp]. destruct p as [|y p]; simpl in *.
           ++ injection H as ->. congruence.
           ++ injection H as -> H. apply orb_false_iff in Hp as [_ Hp].
              assert (Some (p', l') = Some (p, l)) as [= -> ->]
                by (apply IH; by split).
              reflexivity.
      * split; [discriminate |]. intros [H Hp]. destruct p as [|y p]; simpl in *.
        -- injection H as ->. congruence.
        -- injection H as -> H. apply orb_false_iff in Hp as [_ Hp].
           assert (None = Some (p, l)) by (apply IH; by split). discriminate.
Qed.

Lemma split_once_is_Some c (s : string) :
  PyStr.has_char c s = true -> is_Some (PyStr.split_once c s).
Proof.
  induction s as [|x s IH]; simpl; [discriminate |].
  destruct (Ascii.eqb x c); simpl; [eauto |].
  intros [[p l] ->]%IH. eauto.
Qed.

(** ** Whitespace *)

Lemma has_nonspace_rev_app (s1 s2 : string) :
  has_nonspace (String.rev_app s1 s2) = has_nonspace s1 || has_nonspace s2.
Proof.
  revert s2. induction s1 as [|x s1 IH]; intros s2; simpl; [reflexivity |].
  rewrite IH. simpl. destruct (PyStr.isspace x), (has_nonspace s1); reflexivity.
Qed.

Lemma has_nonspace_rev (s : string) : has_nonspace (String.rev s) = has_nonspace s.
Proof. unfold String.rev. rewrite has_nonspace_rev_app. simpl. apply orb_false_r. Qed.

Lemma truthy_rev_app (s1 s2 : string) :
  PyStr.truthy (String.rev_app s1 s2) = PyStr.truthy s1 || PyStr.truthy s2.
Proof.
  revert s2. induction s1 as [|x s1 IH]; intros s2; simpl; [reflexivity |].
  rewrite IH. simpl. apply orb_true_r.
Qed.

Lemma truthy_lstrip (s : string) : PyStr.truthy (PyStr.lstrip s) = has_nonspace s.
Proof.
  induction s as [|x s IH]; simpl; [reflexivity |].
  destruct (PyStr.isspace x); simpl; [exact IH | reflexivity].
Qed.

Lemma has_nonspace_lstrip (s : string) :
  has_nonspace (PyStr.lstrip s) = has_nonspace s.
Proof.
  induction s as [|x s IH]; simpl; [reflexivity |].
  destruct (PyStr.isspace x) eqn:E; simpl; [exact IH | by rewrite E].
Qed.

Lemma truthy_strip (s : string) : PyStr.truthy (PyStr.strip s) = has_nonspace s.
Proof.
  unfold PyStr.strip, PyStr.rstrip, String.rev at 1.
  rewrite truthy_rev_app. simpl. rewrite orb_false_r, truthy_lstrip.
  by rewrite has_nonspace_rev, has_nonspace_lstrip.
Qed.

Lemma has_content_Some (s : string) : has_content (Some s) = has_nonspace s.
Proof.
  simpl. rewrite truthy_strip. destruct s; simpl; [reflexivity | apply andb_true_l].
Qed.

Lemma has_nonspace_app (a b : string) :
  has_nonspace (a +:+ b) = has_nonspace a || has_nonspace b.
Proof.
  induction a as [|x a IH]; simpl; [reflexivity |]. rewrite IH. apply orb_assoc.
Qed.

(** ** The scan of [re.sub] *)

Lemma upto_brace_name (name rest : string) :
  PyStr.has_char "}" name = false ->
  Re.upto_brace (name +:+ String "}" rest) = Some name.
Proof.
  induction name as [|x name IH]; simpl; [reflexivity |].
  intros [Hx Hn]%orb_false_iff. rewrite Hx. by rewrite IH.
Qed.

Lemma match_here_ref (name rest : string) :
  ref_name name = true -> Re.match_here (Re.group0 name +:+ rest) = Some name.
Proof.
  unfold ref_name. intros [Ht Hb%negb_true_iff]%andb_true_iff.
  unfold Re.group0. simpl. rewrite str_app_assoc. simpl.
  rewrite upto_brace_name by done. by rewrite Ht.
Qed.

Lemma match_here_other a (s : string) :
  Ascii.eqb a "$" = false -> Re.match_here (String a s) = None.
Proof. intros Ha. destruct s as [|b s]; simpl; [reflexivity | by rewrite Ha]. Qed.

Lemma sub_go_skip repl (p rest : string) :
  Re.sub_go repl (String.length p) (p +:+ rest) = Re.sub_go repl 0 rest.
Proof.
  induction p as [|x p IH]; simpl; [by destruct rest | exact IH].
Qed.

(** A reference at the head of the text is replaced by what [repl]
    returns, as it is, and the scan goes on behind the closing brace. *)
Lemma sub_ref repl (name rest : string) :
  ref_name name = true ->
  Re.sub repl (Re.group0 name +:+ rest)
  = repl name (Re.group0 name) +:+ Re.sub repl rest.
Proof.
  intros Hn. unfold Re.sub.
  pose proof (match_here_ref name rest Hn) as Hm.
  unfold Re.group0 in *. simpl in Hm |- *. rewrite Hm. f_equal.
  rewrite str_app_assoc.
  replace (String.length name + 2) with (String.length ("{" +:+ name +:+ "}")).
  - rewrite <- (sub_go_skip repl ("{" +:+ name +:+ "}") rest).
    by rewrite !str_app_assoc.
  - simpl. rewrite str_length_app. simpl. lia.
Qed.

(** Text without a dollar sign is copied, and the scan goes on behind it. *)
Lemma sub_literal repl (lit rest : string) :
  dollar_free lit = true -> Re.sub repl (lit +:+ rest) = lit +:+ Re.sub repl rest.
Proof.
  unfold dollar_free, Re.sub. intros H%negb_true_iff.
  induction lit as [|x lit IH]; simpl in *; [reflexivity |].
  apply orb_false_iff in H as [Hx Hl].
  pose proof (match_here_other x (lit +:+ rest) Hx) as Hm. simpl in Hm.
  rewrite Hm. by rewrite IH.
Qed.

Lemma sub_dollar_free repl (s : string) :
  dollar_free s = true -> Re.sub repl s = s.
Proof.
  intros H. rewrite <- (str_app_nil_r s) at 1.
  rewrite sub_literal by done. simpl. apply str_app_nil_r.
Qed.

Lemma upto_brace_Some (s name : string) :
  Re.upto_brace s = Some name ->
  PyStr.has_char "}" name = false /\ exists rest, s = name +:+ String "}" rest.
Proof.
  revert name. induction s as [|x s IH]; intros name; simpl; [discriminate |].
  destruct (Ascii.eqb_spec x "}") as [->|Hx].
  - intros [= <-]. split; [reflexivity | by exists s].
  - destruct (Re.upto_brace s) as [n|]; [| discriminate].
    intros [= <-]. destruct (IH n eq_refl) as [Hn [rest ->]].
    split; [| by exists rest]. simpl. apply Ascii.eqb_neq in Hx. by rewrite Hx.
Qed.

Lemma match_here_Some (text name : string) :
  Re.match_here text = Some name ->
  ref_name name = true /\ exists rest, text = Re.group0 name +:+ rest.
Proof.
  unfold Re.match_here. destruct text as [|a [|b s]]; [discriminate | discriminate |].
  destruct (Ascii.eqb_spec a "$") as [->|]; [| discriminate].
  destruct (Ascii.eqb_spec b "{") as [->|]; [| discriminate]. simpl.
  destruct (Re.upto_brace s) as [n|] eqn:E; [| discriminate].
  destruct (PyStr.truthy n) eqn:Ht; [| discriminate].
  intros [= <-]. destruct (upto_brace_Some _ _ E) as [Hn [rest ->]].
  split; [unfold ref_name; by rewrite Ht, Hn |].
  exists rest. unfold Re.group0. simpl. by rewrite str_app_assoc.
Qed.

(** ** The variable store *)

Lemma resolve_ref self (lit name rest : string) :
  dollar_free lit = true -> ref_name name = true ->
  _resolve_properties self (lit +:+ Re.group0 name +:+ rest)
  = lit +:+ lookup_or_keep (properties self) name (Re.group0 name)
        +:+ _resolve_properties self rest.
Proof.
  intros Hl Hn. unfold _resolve_properties.
  by rewrite sub_literal, sub_ref.
Qed.

Lemma resolve_literal self (lit rest : string) :
  dollar_free lit = true ->
  _resolve_properties self (lit +:+ rest) = lit +:+ _resolve_properties self rest.
Proof. apply sub_literal. Qed.

Lemma lookup_or_keep_Some d (name whole v : string) :
  d !! name = Some v -> PyStr.truthy v = true -> lookup_or_keep d name whole = v.
Proof. unfold lookup_or_keep. by intros -> ->. Qed.

Lemma lookup_or_keep_empty d (name whole : string) :
  d !! name = Some "" -> lookup_or_keep d name whole = whole.
Proof. unfold lookup_or_keep. by intros ->. Qed.

(** ** Readings of a text *)

(** The text begins with a reference exactly when the pattern matches
    at its head. *)
Lemma starts_reference_match (t : string) :
  starts_reference t <-> exists name, Re.match_here t = Some name.
Proof.
  split.
  - intros (name & rest & Hn & ->). exists name. by apply match_here_ref.
  - intros [name H]. destruct (match_here_Some _ _ H) as [Hn [rest ->]].
    by exists name, rest.
Qed.

Lemma match_here_None (t : string) :
  ~ starts_reference t -> Re.match_here t = None.
Proof.
  intros H. destruct (Re.match_here t) as [name|] eqn:E; [| reflexivity].
  destruct H. apply starts_reference_match. eauto.
Qed.

(** A stretch inside which no reference begins is copied. *)
Lemma sub_stretch repl (s rest : string) :
  (forall a b, s = a +:+ b -> b <> "" -> ~ starts_reference (b +:+ rest)) ->
  Re.sub repl (s +:+ rest) = s +:+ Re.sub repl rest.
Proof.
  induction s as [|x s IH]; intros Hs; [reflexivity |].
  unfold Re.sub. cbn [String.append Re.sub_go].
  rewrite (match_here_None (String x (s +:+ rest)))
    by (apply (Hs "" (String x s)); [reflexivity | discriminate]).
  f_equal. apply IH. intros a b -> Hb. apply (Hs (String x a) b); [reflexivity | exact Hb].
Qed.

(** On a reading the scan copies the literal stretches and replaces
    each reference by what [repl] returns for it. *)
Lemma sub_reading repl (ps : list piece) :
  reading ps ->
  Re.sub repl (source ps) = render (fun name => repl name (Re.group0 name)) ps.
Proof.
  induction ps as [|[s|name] ps IH]; cbn [reading]; [reflexivity | |].
  - intros [Hs Hps]. unfold source. cbn [render]. rewrite sub_stretch by exact Hs.
    f_equal. by apply IH.
  - intros [Hn Hps]. unfold source. cbn [render]. rewrite sub_ref by exact Hn.
    f_equal. by apply IH.
Qed.

(** Every text has a reading. *)
Lemma reading_exists (t : string) : exists ps, reading ps /\ source ps = t.
Proof.
  assert (forall n (t : string), String.length t <= n ->
            exists ps, reading ps /\ source ps = t) as Hlen;
    [| by apply (Hlen (String.length t))].
  clear t. induction n as [|n IH]; intros t Ht.
  - destruct t; [| simpl in Ht; lia]. by exists [].
  - destruct t as [|x t']; [by exists [] |].
    destruct (Re.match_here (String x t')) as [name|] eqn:Hm.
    + destruct (match_here_Some _ _ Hm) as [Hn [rest Hrest]].
      destruct (IH rest) as (ps & Hps & Hsrc).
      { apply (f_equal String.length) in Hrest. rewrite str_length_app in Hrest.
        unfold Re.group0 in Hrest. simpl in Hrest, Ht. lia. }
      exists (Ref name :: ps). split; [by split |].
      unfold source in *. cbn [render]. by rewrite Hsrc, Hrest.
    + destruct (IH t') as (ps & Hps & Hsrc); [simpl in Ht; lia |].
      exists (Lit (String x "") :: ps). split.
      * split; [| exact Hps]. intros a b Hab Hb Hstart.
        assert (b = String x "") as ->.
        { destruct a as [|y a]; [by rewrite Hab |].
          simpl in Hab. injection Hab as _ Hab. destruct a; destruct b; try discriminate.
          by destruct Hb. }
        apply starts_reference_match in Hstart as [name Hname].
        change (String x "" +:+ source ps) with (String x (source ps)) in Hname.
        rewrite Hsrc in Hname. congruence.
      * unfold source in *. cbn [render]. by rewrite Hsrc.
Qed.

(** A text begins with a reference exactly when it begins with [${],
    goes on with a character other than [}], and has a [}] further on. *)
Lemma starts_reference_iff (t : string) :
  starts_reference t
  <-> exists c u, t = String "$" (String "{" (String c u)) /\ c <> "}"%char
                  /\ PyStr.has_char "}" (String c u) = true.
Proof.
  split.
  - intros (name & rest & [Ht Hb%negb_true_iff]%andb_true_iff & ->).
    destruct name as [|c n]; [discriminate |].
    exists c, (n +:+ String "}" rest). split; [| split].
    + unfold Re.group0. simpl. by rewrite str_app_assoc.
    + simpl in Hb. apply orb_false_iff in Hb as [Hc _].
      intros ->. by rewrite Ascii.eqb_refl in Hc.
    + change (String c (n +:+ String "}" rest)) with (String c n +:+ String "}" rest).
      rewrite has_char_app. simpl. apply orb_true_r.
  - intros (c & u & -> & Hc & Hu).
    destruct (split_once_is_Some _ _ Hu) as [[p l] Hpl].
    apply split_once_Some in Hpl as [Hpl Hp].
    exists p, l. split.
    + unfold ref_name. rewrite Hp. destruct p as [|y p]; [| reflexivity].
      simpl in Hpl. by injection Hpl as ->.
    + unfold Re.group0. simpl. rewrite str_app_assoc. simpl. by rewrite Hpl.
Qed.

(** What a text with some references replaced by inert text has in
    common with the text itself: a closing brace in the one is a closing
    brace in the other, and so for the first characters as far as they
    can make the head of a reference. *)
Lemma render_has_brace f (qs : list piece) :
  PyStr.has_char "}" (render f qs) = true -> PyStr.has_char "}" (source qs) = true.
Proof.
  unfold source. induction qs as [|[s|name] qs IH]; cbn [render]; [done | |].
  - rewrite !has_char_app. intros [H|H]%orb_true_iff; [by rewrite H |].
    rewrite IH by done. apply orb_true_r.
  - intros _. unfold Re.group0. rewrite !has_char_app. simpl.
    rewrite !orb_true_r. reflexivity.
Qed.

Lemma render_head f (qs : list piece) c' (u' : string) :
  render f qs = String c' u' -> c' <> "}"%char ->
  eased f qs ->
  exists c u, source qs = String c u /\ c <> "}"%char.
Proof.
  unfold source. induction qs as [|[s|name] qs IH]; cbn [render]; [discriminate | |].
  - intros H Hc Hok. apply Forall_cons in Hok as [_ Hok]. destruct s as [|x s].
    + by apply IH.
    + simpl in H. injection H as -> _. simpl. eauto.
  - intros _ _ _. unfold Re.group0. simpl. eexists _, _. split; [reflexivity | discriminate].
Qed.

Lemma inert_head c (v : string) :
  inert (String c v) = true -> c <> "$"%char /\ c <> "{"%char /\ c <> "}"%char.
Proof.
  unfold inert.
  intros [[H1%negb_true_iff H2%negb_true_iff]%andb_true_iff H3%negb_true_iff]%andb_true_iff.
  cbn [PyStr.has_char] in H1, H2, H3.
  apply orb_false_iff in H1 as [H1 _], H2 as [H2 _], H3 as [H3 _].
  by repeat split; apply Ascii.eqb_neq.
Qed.

Lemma render_open f (qs : list piece) (u' : string) :
  eased f qs -> render f qs = String "{" u' ->
  exists qs1, source qs = String "{" (source qs1) /\ u' = render f qs1 /\ eased f qs1.
Proof.
  unfold source. induction qs as [|[s|name] qs IH]; cbn [render]; [discriminate | |].
  - intros Hok H. apply Forall_cons in Hok as [_ Hok]. destruct s as [|x s].
    + by apply IH.
    + simpl in H. injection H as -> <-. exists (Lit s :: qs).
      split; [reflexivity |]. split; [reflexivity |]. by constructor.
  - intros Hok H. apply Forall_cons in Hok as [[_ [Hf|[Hf Hne]]] _].
    + rewrite Hf in H. discriminate H.
    + destruct (f name) as [|c v]; [by destruct Hne |].
      simpl in H. injection H as -> _. by destruct (inert_head _ _ Hf) as (_ & ? & _).
Qed.

Lemma render_dollar f (qs : list piece) (u' : string) :
  eased f qs -> render f qs = String "$" u' ->
  starts_reference (source qs)
  \/ exists qs1, source qs = String "$" (source qs1) /\ u' = render f qs1 /\ eased f qs1.
Proof.
  unfold source. induction qs as [|[s|name] qs IH]; cbn [render]; [discriminate | |].
  - intros Hok H. apply Forall_cons in Hok as [_ Hok]. destruct s as [|x s].
    + by apply IH.
    + simpl in H. injection H as -> <-. right. exists (Lit s :: qs).
      split; [reflexivity |]. split; [reflexivity |]. by constructor.
  - intros Hok H. apply Forall_cons in Hok as [[Hn [Hf|[Hf Hne]]] _].
    + left. by exists name, (render Re.group0 qs).
    + destruct (f name) as [|c v]; [by destruct Hne |].
      simpl in H. injection H as -> _. by destruct (inert_head _ _ Hf) as (? & _).
Qed.

(** Where the text with some references replaced by inert text begins
    with a reference, so does the text itself. *)
Lemma eased_starts_reference f (qs : list piece) :
  eased f qs -> starts_reference (render f qs) -> starts_reference (source qs).
Proof.
  intros Hok (c & u & H & Hc & Hu)%starts_reference_iff.
  destruct (render_dollar _ _ _ Hok H) as [Hs | (qs1 & Hsrc1 & H1 & Hok1)];
    [exact Hs |].
  symmetry in H1. destruct (render_open _ _ _ Hok1 H1) as (qs2 & Hsrc2 & H2 & Hok2).
  symmetry in H2. destruct (render_head _ _ _ _ H2 Hc Hok2) as (c2 & u2 & Hsrc3 & Hc2).
  apply starts_reference_iff. exists c2, u2.
  split; [by rewrite Hsrc1, Hsrc2, Hsrc3 |]. split; [exact Hc2 |].
  rewrite <- Hsrc3. apply (render_has_brace f). by rewrite H2.
Qed.

Lemma reading_names (ps : list piece) (name : string) :
  reading ps -> Ref name ∈ ps -> ref_name name = true.
Proof.
  induction ps as [|[s|n] ps IH]; cbn [reading].
  - intros _ H. by apply elem_of_nil in H.
  - intros [_ Hps] [H|H]%elem_of_cons; [discriminate | by apply IH].
  - intros [Hn Hps] [H|H]%elem_of_cons; [by injection H as -> | by apply IH].
Qed.

(** The replacement functions of the two substitutions, as values. *)
Lemma lookup_or_keep_value d (name : string) :
  lookup_or_keep d name (Re.group0 name)
  = default (Re.group0 name) (nonempty_value d name).
Proof.
  unfold lookup_or_keep, nonempty_value.
  destruct (d !! name) as [v|]; [| reflexivity]. by destruct (PyStr.truthy v).
Qed.

Lemma nonempty_value_Some d (name v : string) :
  nonempty_value d name = Some v <-> d !! name = Some v /\ v <> "".
Proof.
  unfold nonempty_value. destruct (d !! name) as [w|]; [| naive_solver].
  destruct w; simpl; naive_solver.
Qed.

(** Both substitutions on a reading. *)
Lemma resolve_reading self (ps : list piece) :
  reading ps -> _resolve_properties self (source ps) = render (global_value self) ps.
Proof.
  intros Hps. unfold _resolve_properties. rewrite sub_reading by done.
  induction ps as [|[s|name] ps IH]; cbn [render]; [reflexivity | |];
    cbn [reading] in Hps; destruct Hps as [_ Hps]; rewrite IH by done; [reflexivity |].
  by rewrite lookup_or_keep_value.
Qed.

Lemma substitute_reading params (ps : list piece) :
  reading ps -> _substitute_parameters (source ps) params = render (local_value params) ps.
Proof.
  intros Hps. unfold _substitute_parameters. rewrite sub_reading by done.
  induction ps as [|[s|name] ps IH]; cbn [render]; [reflexivity | |];
    cbn [reading] in Hps; destruct Hps as [_ Hps]; rewrite IH by done; [reflexivity |].
  by rewrite lookup_or_keep_value.
Qed.

Lemma inert_dollar_free (v : string) : inert v = true -> dollar_free v = true.
Proof. unfold inert, dollar_free. by intros [[H _]%andb_true_iff _]%andb_true_iff. Qed.

(** The two substitutions in a row, where the values bound to the names
    of the text are inert: each reference gets its value in the scope of
    the macro. *)
Lemma resolve_local_render self params (ps : list piece) :
  reading ps ->
  (forall name v, Ref name ∈ ps -> nonempty_value params name = Some v ->
                  inert v = true) ->
  _resolve_properties self (render (local_value params) ps)
  = render (scoped_value self params) ps.
Proof.
  induction ps as [|[s|name] ps IH]; cbn [reading render]; [reflexivity | |].
  - intros [Hs Hps] Hin.
    assert (forall name v, Ref name ∈ ps -> nonempty_value params name = Some v ->
                           inert v = true) as Hin'
      by (intros n v Hn; apply Hin; by right).
    unfold _resolve_properties. rewrite sub_stretch.
    + f_equal. by apply IH.
    + intros a b Hab Hb Hstart. apply (Hs a b Hab Hb).
      apply (eased_starts_reference (local_value params) (Lit b :: ps)); [| exact Hstart].
      constructor; [exact I |]. apply Forall_forall. intros [l|n] Hn; [exact I |].
      split; [by apply (reading_names ps) |].
      unfold local_value. destruct (nonempty_value params n) as [v|] eqn:E; [| by left].
      right. split; [by apply (Hin' n) |]. by apply nonempty_value_Some in E as [_ ?].
  - intros [Hn Hps] Hin.
    assert (forall name v, Ref name ∈ ps -> nonempty_value params name = Some v ->
                           inert v = true) as Hin'
      by (intros n v Hn'; apply Hin; by right).
    unfold local_value at 1, scoped_value at 1.
    destruct (nonempty_value params name) as [v|] eqn:E; cbn [default].
    + rewrite resolve_literal by (apply inert_dollar_free, (Hin name); [by left | done]).
      f_equal. by apply IH.
    + unfold _resolve_properties. rewrite sub_ref by done.
      rewrite lookup_or_keep_value. f_equal. by apply IH.
Qed.

Lemma scoped_inert self params (ps : list piece) :
  reading ps ->
  (forall name v, Ref name ∈ ps -> params !! name = Some v -> inert v = true) ->
  _resolve_properties self (render (local_value params) ps)
  = render (scoped_value self params) ps.
Proof.
  intros Hps Hin. apply resolve_local_render; [exact Hps |].
  intros name v Hn [Hv _]%nonempty_value_Some. by apply (Hin name).
Qed.

(** The test for readings is sound. *)
Lemma no_reference_in_stretch (s rest : string) :
  no_reference_in s rest = true ->
  forall a b, s = a +:+ b -> b <> "" -> ~ starts_reference (b +:+ rest).
Proof.
  induction s as [|x s IH]; cbn [no_reference_in].
  - intros _ a b Hab Hb. destruct a; destruct b; try discriminate. by destruct Hb.
  - intros [Hx Hs]%andb_true_iff a b Hab Hb.
    destruct a as [|y a].
    + simpl in Hab. subst b. intros [name Hname]%starts_reference_match.
      apply negb_true_iff, bool_decide_eq_false in Hx. apply Hx. eauto.
    + simpl in Hab. injection Hab as _ Hab. by apply (IH Hs a b).
Qed.

Lemma readingb_reading (ps : list piece) : readingb ps = true -> reading ps.
Proof.
  induction ps as [|[s|name] ps IH]; cbn [readingb reading]; [done | |].
  - intros [Hs Hps]%andb_true_iff. split; [by apply no_reference_in_stretch | by apply IH].
  - intros [Hn Hps]%andb_true_iff. split; [exact Hn | by apply IH].
Qed.

Lemma render_ext (f g : string -> string) (ps : list piece) :
  (forall name, Ref name ∈ ps -> f name = g name) -> render f ps = render g ps.
Proof.
  induction ps as [|[s|name] ps IH]; cbn [render]; [reflexivity | |]; intros H.
  - f_equal. apply IH. intros n Hn. apply H. by right.
  - rewrite (H name) by (by left). f_equal. apply IH. intros n Hn. apply H. by right.
Qed.

(** ** The tag resolver *)

Lemma keyword_eqb (l : string) :
  bool_decide (l ∈ declaration_keywords)
  = String.eqb l "property" || String.eqb l "macro" || String.eqb l "include".
Proof.
  unfold declaration_keywords.
  destruct (String.eqb_spec l "property") as [->|H1]; [reflexivity |].
  destruct (String.eqb_spec l "macro") as [->|H2]; [reflexivity |].
  destruct (String.eqb_spec l "include") as [->|H3]; [reflexivity |].
  apply bool_decide_eq_false. intros H.
  repeat (apply elem_of_cons in H as [H|H]; [congruence |]).
  by apply elem_of_nil in H.
Qed.

Lemma is_declaration_branches (tg : string) :
  is_declaration tg
  = is_declaration_of "property" tg || is_declaration_of "macro" tg
    || is_declaration_of "include" tg.
Proof.
  unfold is_declaration, is_declaration_of. rewrite keyword_eqb.
  destruct (_is_xacro_element tg); simpl; [| by rewrite !andb_false_r].
  by rewrite !andb_true_r.
Qed.

(** C4, as stated, fails: the bare name [property] has a declaration
    keyword as its local name, and the classifier rejects it. *)
Lemma C4_bare_keyword_rejected :
  _get_local_tag "property" = "property"
  /\ "property" ∈ declaration_keywords
  /\ _is_xacro_element "property" = false.
Proof. repeat split. unfold declaration_keywords. set_solver. Qed.

(** C4, amended: [_is_xacro_element] accepts a tag exactly when the tag
    has a closing brace and the marker [xacro] somewhere in it, or when
    it has a colon and either the text before the first colon is [xacro]
    or the text behind the first colon is one of [property], [macro],
    [include].  A bare name is never accepted. *)
Theorem C4_is_xacro_element_iff (tg : string) :
  _is_xacro_element tg = true
  <-> ((exists a b, tg = a +:+ "}" +:+ b) /\ (exists a b, tg = a +:+ "xacro" +:+ b))
      \/ (exists prefix local,
            tg = prefix +:+ ":" +:+ local
            /\ (forall a b, prefix <> a +:+ ":" +:+ b)
            /\ (local ∈ declaration_keywords \/ prefix = "xacro")).
Proof.
  assert (forall c s, PyStr.has_char c s = false <-> forall a b, s <> a +:+ String c b)
    as no_char.
  { intros c s. split.
    - intros H a b ->. rewrite has_char_app in H. simpl in H.
      rewrite Ascii.eqb_refl in H. simpl in H. by rewrite orb_true_r in H.
    - intros H. destruct (PyStr.has_char c s) eqn:E; [| reflexivity].
      apply has_char_true in E as (a & b & ->). by destruct (H a b). }
  unfold _is_xacro_element.
  destruct (PyStr.has_char "}" tg && PyStr.contains "xacro" tg) eqn:Hns.
  { split; [intros _ | reflexivity]. left.
    apply andb_true_iff in Hns as [Hb Hx].
    split; [by apply has_char_true in Hb | by apply contains_true in Hx]. }
  assert (~ ((exists a b, tg = a +:+ "}" +:+ b)
             /\ (exists a b, tg = a +:+ "xacro" +:+ b))) as Hnot.
  { intros [Hb Hx]. apply (has_char_true "}" tg) in Hb. apply contains_true in Hx.
    by rewrite Hb, Hx in Hns. }
  destruct (PyStr.has_char ":" tg) eqn:Hc.
  - destruct (split_once_is_Some _ _ Hc) as [[p l] Hs]. rewrite Hs.
    pose proof (proj1 (split_once_Some _ _ _ _) Hs) as [Htg Hp].
    split.
    + intros H. right. exists p, l. split; [exact Htg |].
      split; [by apply no_char |].
      apply orb_true_iff in H as [H|H].
      * left. by apply bool_decide_eq_true in H.
      * right. by apply String.eqb_eq in H.
    + intros [H | (p' & l' & Htg' & Hp' & H)]; [by destruct Hnot |].
      assert (PyStr.split_once ":" tg = Some (p', l')) as Hs'
        by (apply split_once_Some; split; [exact Htg' | by apply no_char]).
      rewrite Hs in Hs'. injection Hs' as -> ->.
      apply orb_true_iff. destruct H as [H | ->].
      * left. by apply bool_decide_eq_true.
      * right. apply String.eqb_refl.
  - split; [discriminate |].
    intros [H | (p' & l' & -> & _)]; [by destruct Hnot |].
    rewrite has_char_app in Hc. simpl in Hc. by rewrite orb_true_r in Hc.
Qed.

(** ** C3 and C6: resolution of references *)

(** C3, as stated, fails.  Property [x] is defined with the empty string
    as its value, there is no local binding, and the reference is not
    replaced by that value.  And where parameter [p] is bound to the text
    [${y}], a reference to [p] in a macro body is not replaced by that
    binding but by the value of property [y]. *)
Lemma C3_stated_precedence_fails :
  (let self := mkConverter {[ "x" := "" ]} ∅ [] in
   properties self !! "x" = Some ""
   /\ _resolve_properties self "${x}" = "${x}"
   /\ _resolve_properties self "${x}" <> "")
  /\ (let self := mkConverter {[ "y" := "Y" ]} ∅ [] in
      let params : gmap string string := {[ "p" := "${y}" ]} in
      params !! "p" = Some "${y}"
      /\ _resolve_properties self (_substitute_parameters "${p}" params) = "Y"
      /\ _resolve_properties self (_substitute_parameters "${p}" params) <> "${y}").
Proof. vm_compute. repeat split; discriminate. Qed.

(** C3, amended.  Every text has a reading, and for any reading of a
    text: [_resolve_properties] writes every reference of the text as the
    value of the property of that name, and as the reference itself where
    no property of that name is defined; [_substitute_parameters] does the
    same with the bindings it is given; everything else is copied.  With
    a local scope, as in a macro body, the text goes through both: every
    reference with a binding becomes the bound value while the others
    stay, and the text so obtained is resolved against the properties.
    Where the values bound to the names of the text have no [$], [{] or
    [}], that is one rule for every occurrence: the binding if there is
    one, else the property, else the reference itself.  A text none of
    whose names is a property is returned as it is.  Throughout, a name
    whose value is the empty string counts as a name without a value. *)
Theorem C3_resolution_precedence (self : Converter) (params : gmap string string)
    (t : string) :
  (exists ps, reading ps /\ source ps = t)
  /\ forall ps, reading ps -> source ps = t ->
       _resolve_properties self t = render (global_value self) ps
       /\ _substitute_parameters t params = render (local_value params) ps
       /\ _resolve_properties self (_substitute_parameters t params)
          = _resolve_properties self (render (local_value params) ps)
       /\ ((forall name v, Ref name ∈ ps -> params !! name = Some v ->
                           inert v = true) ->
           _resolve_properties self (_substitute_parameters t params)
           = render (scoped_value self params) ps)
       /\ ((forall name, Ref name ∈ ps -> properties self !! name = None) ->
           _resolve_properties self t = t).
Proof.
  split; [apply reading_exists |]. intros ps Hps <-.
  split; [by apply resolve_reading |].
  split; [by apply substitute_reading |].
  split; [by rewrite substitute_reading |].
  split.
  - intros Hin. rewrite substitute_reading by done. by apply scoped_inert.
  - intros Hnone. rewrite resolve_reading by done. apply render_ext.
    intros name Hn. unfold global_value, nonempty_value. by rewrite (Hnone name Hn).
Qed.

(** The theorem at properties [x] = 1 and [prefix] = [p_], a binding of
    [x] to 2, and a text with a dollar sign that starts no reference, two
    references in a row and a reference to a name with no value. *)
Lemma C3_resolution_precedence_witness :
  let self := mkConverter {[ "x" := "1"; "prefix" := "p_" ]} ∅ [] in
  let params : gmap string string := {[ "x" := "2" ]} in
  let t := "$(find pkg)/${prefix}${x}.${y}" in
  let ps := [Lit "$(find pkg)/"; Ref "prefix"; Ref "x"; Lit "."; Ref "y"] in
  readingb ps = true /\ source ps = t
  /\ _resolve_properties self t = "$(find pkg)/p_1.${y}"
  /\ _substitute_parameters t params = "$(find pkg)/${prefix}2.${y}"
  /\ _resolve_properties self (_substitute_parameters t params) = "$(find pkg)/p_2.${y}".
Proof.
  intros self params t ps.
  assert (readingb ps = true) as Hps by reflexivity.
  assert (forall name v, Ref name ∈ ps -> params !! name = Some v -> inert v = true)
    as Hin.
  { intros name v _ [_ <-]%lookup_singleton_Some. reflexivity. }
  destruct (proj2 (C3_resolution_precedence self params t) ps
              (readingb_reading ps Hps) eq_refl) as (H1 & H2 & _ & H4 & _).
  split; [exact Hps |]. split; [reflexivity |].
  split; [rewrite H1; vm_compute; reflexivity |].
  split; [rewrite H2; vm_compute; reflexivity |].
  rewrite (H4 Hin). vm_compute. reflexivity.
Defined.

(** ** Expansion of a macro body *)

Lemma macro_content_tag self e params :
  tag (_expand_macro_content self e params) = tag e.
Proof. by destruct e. Qed.

Lemma macro_content_attrib self e params (k v : string) :
  attrib e !! k = Some v ->
  attrib (_expand_macro_content self e params) !! k
  = Some (_resolve_properties self (_substitute_parameters v params)).
Proof. destruct e as [tg attrs tx tl cs]. simpl. intros H. by rewrite lookup_fmap, H. Qed.

Lemma macro_content_text self e params (t : string) :
  text e = Some t -> has_nonspace t = true ->
  text (_expand_macro_content self e params)
  = Some (_resolve_properties self (_substitute_parameters t params)).
Proof.
  destruct e as [tg attrs tx tl cs]. cbn [text _expand_macro_content].
  intros -> Ht. by rewrite has_content_Some, Ht.
Qed.

Lemma macro_content_children self e params :
  children (_expand_macro_content self e params)
  = List.map (fun c => _expand_macro_content self c params) (children e).
Proof. by destruct e. Qed.

(** The nodes of an expanded body are the expanded nodes of the body, in
    the same order: the copy goes through every level with the same
    bindings. *)
Lemma macro_content_nodes self params e :
  nodes (_expand_macro_content self e params)
  = List.map (fun n => _expand_macro_content self n params) (nodes e).
Proof.
  induction e as [tg attrs tx tl cs IH] using Element_ind_nested.
  cbn [nodes _expand_macro_content List.map]. f_equal.
  induction IH as [|c cs Hc _ IHcs]; [reflexivity |].
  cbn [List.map List.flat_map]. by rewrite List.map_app, Hc, IHcs.
Qed.

Lemma param_values_lookup self names call (k v : string) :
  k ∈ names -> attrib call !! k = Some v ->
  param_values_of self names call !! k = Some (_resolve_properties self v).
Proof.
  intros Hk Hv. unfold param_values_of. rewrite map_lookup_imap, Hv. simpl.
  by rewrite bool_decide_eq_true_2.
Qed.

Lemma expand_macro_call_found self call macro_def :
  find_macro self call = Some macro_def ->
  _expand_macro_call self call
  = List.map (fun c => _expand_macro_content self c
                         (param_values_of self (param_names_of macro_def) call))
             (children macro_def).
Proof. unfold _expand_macro_call. by intros ->. Qed.

(** The walker and the invocations it meets. *)

Lemma found_is_macro_call self e macro_def :
  find_macro self e = Some macro_def -> _is_macro_call self e = true.
Proof.
  unfold _is_macro_call, find_macro.
  destruct (macros self !! _get_local_tag (tag e)) as [m|].
  - intros _. by rewrite bool_decide_eq_true_2 by eauto.
  - intros H. rewrite (bool_decide_eq_false_2 (is_Some None)) by (intros [? ?]; discriminate).
    by rewrite bool_decide_eq_true_2 by eauto.
Qed.

Lemma nodes_self e : e ∈ nodes e.
Proof. destruct e. cbn [nodes]. by left. Qed.

Lemma nodes_below e c n : c ∈ children e -> n ∈ nodes c -> n ∈ descendants e.
Proof.
  intros Hc Hn. unfold descendants. apply list_elem_of_In, in_flat_map.
  exists c. split; by apply list_elem_of_In.
Qed.

Lemma descendants_nodes e n : n ∈ descendants e -> n ∈ nodes e.
Proof. destruct e. cbn [nodes]. unfold descendants. simpl. by right. Qed.

Lemma nodes_trans e m n : m ∈ nodes e -> n ∈ descendants m -> n ∈ descendants e.
Proof.
  induction e as [tg attrs tx tl cs IH] using Element_ind_nested.
  cbn [nodes]. intros [->|Hm]%elem_of_cons Hn; [exact Hn |].
  apply list_elem_of_In, in_flat_map in Hm as (c & Hc & Hm).
  apply (nodes_below _ c); [by apply list_elem_of_In |].
  apply descendants_nodes. rewrite Forall_forall in IH.
  apply (IH c); [by apply list_elem_of_In | by apply list_elem_of_In | exact Hn].
Qed.

(** What the walker puts in place of one child. *)
Lemma expand_children self e :
  children (_expand_xacro_elements self e)
  = List.flat_map
      (fun child =>
         if _is_macro_call self child then _expand_macro_call self child
         else if PyStr.startswith (tag child) "xacro:"
                 && negb (_is_macro_call self child) then []
         else [_expand_xacro_elements self child])
      (children e).
Proof. by destruct e. Qed.

(** A node that the walker comes to is in the output, expanded. *)
Lemma visited_expanded self e n :
  visited self e n -> _expand_xacro_elements self n ∈ nodes (_expand_xacro_elements self e).
Proof.
  induction 1 as [e | e c n Hc Hcall Hprefix _ IH]; [apply nodes_self |].
  apply descendants_nodes, (nodes_below _ (_expand_xacro_elements self c)); [| exact IH].
  rewrite expand_children. apply list_elem_of_In, in_flat_map.
  exists c. split; [by apply list_elem_of_In |]. rewrite Hcall, Hprefix. by left.
Qed.

(** An invocation among the children is replaced by its expansion,
    between what the children before it and after it give. *)
Lemma expand_children_call self e call :
  call ∈ children e -> _is_macro_call self call = true ->
  exists front back,
    children (_expand_xacro_elements self e)
    = (front ++ _expand_macro_call self call ++ back)%list.
Proof.
  intros (before & after & Hcs)%list_elem_of_split Hcall.
  rewrite expand_children, Hcs, flat_map_app. cbn [List.flat_map]. rewrite Hcall.
  eauto.
Qed.

(** The attributes and the text of a copied body node, for any reading
    of the value. *)
Lemma macro_content_reading self params (n : Element) (k : string) (ps : list piece) :
  reading ps ->
  (attrib n !! k = Some (source ps) ->
   attrib (_expand_macro_content self n params) !! k
   = Some (_resolve_properties self (render (local_value params) ps)))
  /\ (text n = Some (source ps) ->
      text (_expand_macro_content self n params)
      = if has_nonspace (source ps)
        then Some (_resolve_properties self (render (local_value params) ps))
        else None).
Proof.
  intros Hps. split; intros H.
  - by rewrite (macro_content_attrib _ _ _ _ _ H), substitute_reading.
  - destruct n as [tg attrs tx tl cs]. cbn [text _expand_macro_content] in *.
    rewrite H, has_content_Some. destruct (has_nonspace (source ps)); [| reflexivity].
    cbn [fmap option_fmap option_map]. by rewrite substitute_reading.
Qed.

(** C2.  A document with root [robot] is parsed; after the collection
    of its declarations property [x] is 1; the macro found for an
    invocation declares the parameter [x], and the invocation passes
    [x="2"].  Then [parse_xacro] returns, and in the bindings of the
    invocation [x] is 2: a reference [${x}] stands for 2 in the body of
    the macro while it stands for 1 elsewhere.  The invocation expands to
    the copies of the children of the macro under these bindings, level
    by level; where the invocation is a child of a node that the walker
    comes to, these copies take its place in the returned tree, so every
    node of the macro body is in the output.  For every attribute and
    text of the body and any reading of it: every reference with a
    binding is written as the bound value, [${x}] as 2, and the result
    is resolved against the properties; where the bound values have no
    [$], [{] or [}] the output is the text with every reference written
    as its binding if it has one and else as its property.  Every text
    has a reading. *)
Theorem C2_parameter_shadows_property (fromstring : string -> string + Element)
    (xacro_content : string) (self : Converter) (root call macro_def : Element) :
  fromstring xacro_content = inr root -> tag root = "robot" ->
  let collected := _collect_xacro_elements root self in
  let params := param_values_of collected.1 (param_names_of macro_def) call in
  properties collected.1 !! "x" = Some "1" ->
  find_macro collected.1 call = Some macro_def ->
  "x" ∈ param_names_of macro_def ->
  attrib call !! "x" = Some "2" ->
  exists out : Element,
    parse_xacro fromstring xacro_content self = (inr out, collected.1)
    /\ global_value collected.1 "x" = "1"
    /\ local_value params "x" = "2"
    /\ scoped_value collected.1 params "x" = "2"
    /\ _expand_macro_call collected.1 call
       = List.map (fun c => _expand_macro_content collected.1 c params)
                  (children macro_def)
    /\ List.flat_map nodes (_expand_macro_call collected.1 call)
       = List.map (fun n => _expand_macro_content collected.1 n params)
                  (descendants macro_def)
    /\ (forall parent,
          visited collected.1 collected.2 parent -> call ∈ children parent ->
          (exists parent' front back,
             parent' ∈ nodes out
             /\ children parent'
                = (front
                   ++ List.map (fun c => _expand_macro_content collected.1 c params)
                               (children macro_def)
                   ++ back)%list)
          /\ (forall n, n ∈ descendants macro_def ->
                        _expand_macro_content collected.1 n params ∈ descendants out))
    /\ (forall (n : Element) (k : string) (ps : list piece),
          reading ps ->
          (attrib n !! k = Some (source ps) ->
           attrib (_expand_macro_content collected.1 n params) !! k
           = Some (_resolve_properties collected.1 (render (local_value params) ps)))
          /\ (text n = Some (source ps) ->
              text (_expand_macro_content collected.1 n params)
              = if has_nonspace (source ps)
                then Some (_resolve_properties collected.1
                             (render (local_value params) ps))
                else None)
          /\ ((forall name v, Ref name ∈ ps -> params !! name = Some v ->
                              inert v = true) ->
              _resolve_properties collected.1 (render (local_value params) ps)
              = render (scoped_value collected.1 params) ps))
    /\ (forall t : string, exists ps, reading ps /\ source ps = t).
Proof.
  intros Hparse Hroot collected params Hprop Hfind Hdecl Harg.
  assert (params !! "x" = Some "2") as Hx.
  { subst params. rewrite (param_values_lookup _ _ _ "x" "2") by done.
    reflexivity. }
  exists (_expand_xacro_elements collected.1 collected.2).
  split.
  { unfold parse_xacro. rewrite Hparse, Hroot. cbn [String.eqb negb].
    change (_collect_xacro_elements root self) with collected.
    by destruct collected. }
  split; [unfold global_value, nonempty_value; by rewrite Hprop |].
  split; [unfold local_value, nonempty_value; by rewrite Hx |].
  split; [unfold scoped_value, nonempty_value; by rewrite Hx |].
  split; [by apply expand_macro_call_found |].
  split.
  { rewrite (expand_macro_call_found _ _ _ Hfind). unfold descendants. fold params.
    induction (children macro_def) as [|c cs IH]; [reflexivity |].
    cbn [List.map List.flat_map]. by rewrite List.map_app, macro_content_nodes, IH. }
  split.
  - intros parent Hvisit Hcall.
    pose proof (visited_expanded _ _ _ Hvisit) as Hparent.
    destruct (expand_children_call collected.1 parent call Hcall
                (found_is_macro_call _ _ _ Hfind)) as (front & back & Hchildren).
    rewrite (expand_macro_call_found _ _ _ Hfind) in Hchildren.
    fold params in Hchildren.
    split; [by exists (_expand_xacro_elements collected.1 parent), front, back |].
    intros n Hn. unfold descendants in Hn.
    apply list_elem_of_In, in_flat_map in Hn as (c & Hc & Hn).
    apply (nodes_trans _ _ _ Hparent).
    apply (nodes_below _ (_expand_macro_content collected.1 c params)).
    + rewrite Hchildren. apply elem_of_app. right. apply elem_of_app. left.
      apply list_elem_of_In.
      apply (in_map (fun c => _expand_macro_content collected.1 c params)). exact Hc.
    + rewrite macro_content_nodes. apply list_elem_of_In.
      apply (in_map (fun c => _expand_macro_content collected.1 c params)). exact Hn.
  - split; [| apply reading_exists]. intros n k ps Hps.
    destruct (macro_content_reading collected.1 params n k ps Hps) as [Ha Ht].
    split; [exact Ha |]. split; [exact Ht |]. by apply scoped_inert.
Qed.

(** The theorem at [Sample.shadowing_mixed]: the invocation inside the
    element [group], and the two attributes of the body of [m], one with
    a reference to a property in front of [${x}] and one with a dollar
    sign that starts no reference. *)
Lemma C2_parameter_shadows_property_witness :
  let fromstring := fun _ : string => @inr string Element Sample.shadowing_mixed in
  let collected := _collect_xacro_elements Sample.shadowing_mixed init in
  let call := Sample.elem (Sample.xacro "m") [("x", "2")] [] in
  let parent := Sample.elem "group" [] [call] in
  let mesh := Sample.elem "mesh" [("filename", "$(find pkg)/${x}.stl")] [] in
  let link := Sample.elem "link" [("name", "${prefix}${x}")] [mesh] in
  let macro_def :=
    Sample.elem (Sample.xacro "macro") [("name", "m"); ("params", "x")] [link] in
  let params := param_values_of collected.1 (param_names_of macro_def) call in
  properties collected.1 !! "x" = Some "1"
  /\ find_macro collected.1 call = Some macro_def
  /\ attrib call !! "x" = Some "2"
  /\ visited collected.1 collected.2 parent
  /\ readingb [Ref "prefix"; Ref "x"] = true
  /\ readingb [Lit "$(find pkg)/"; Ref "x"; Lit ".stl"] = true
  /\ (exists out : Element,
        parse_xacro fromstring "mixed" init = (inr out, collected.1)
        /\ out = Sample.shadowing_mixed_expanded
        /\ _expand_macro_content collected.1 link params ∈ descendants out
        /\ _expand_macro_content collected.1 mesh params ∈ descendants out)
  /\ attrib (_expand_macro_content collected.1 link params) !! "name" = Some "p_2"
  /\ attrib (_expand_macro_content collected.1 mesh params) !! "filename"
     = Some "$(find pkg)/2.stl".
Proof.
  intros fromstring collected call parent mesh link macro_def params.
  assert (properties collected.1 !! "x" = Some "1") as H1 by (vm_compute; reflexivity).
  assert (find_macro collected.1 call = Some macro_def) as H2 by (vm_compute; reflexivity).
  assert ("x" ∈ param_names_of macro_def) as H3
    by (apply (bool_decide_unpack _); vm_compute; exact I).
  assert (attrib call !! "x" = Some "2") as H4 by (vm_compute; reflexivity).
  assert (call ∈ children parent) as H5 by (by left).
  assert (visited collected.1 collected.2 parent) as H6.
  { apply (visited_below _ _ parent); [| vm_compute; reflexivity
                                       | vm_compute; reflexivity | apply visited_here].
    apply list_elem_of_In. vm_compute. by left. }
  assert (readingb [Ref "prefix"; Ref "x"] = true) as H7 by reflexivity.
  assert (readingb [Lit "$(find pkg)/"; Ref "x"; Lit ".stl"] = true) as H8
    by reflexivity.
  destruct (C2_parameter_shadows_property fromstring "mixed" init
              Sample.shadowing_mixed call macro_def
              eq_refl eq_refl H1 H2 H3 H4)
    as (out & Hout & _ & _ & _ & _ & _ & Hplace & Hbody & _).
  destruct (Hplace parent H6 H5) as [_ Hnodes].
  do 6 (split; [assumption |]).
  split.
  { exists out. split; [exact Hout |].
    split; [| split; apply Hnodes; apply list_elem_of_In; vm_compute; auto].
    assert (parse_xacro fromstring "mixed" init
            = (inr Sample.shadowing_mixed_expanded, collected.1)) as Hrun
      by (vm_compute; reflexivity).
    rewrite Hrun in Hout. by injection Hout as <-. }
  split.
  - destruct (Hbody link "name" [Ref "prefix"; Ref "x"] (readingb_reading _ H7))
      as (Ha & _).
    etrans; [exact (Ha eq_refl) | vm_compute; reflexivity].
  - destruct (Hbody mesh "filename" [Lit "$(find pkg)/"; Ref "x"; Lit ".stl"]
                (readingb_reading _ H8)) as (Ha & _).
    etrans; [exact (Ha eq_refl) | vm_compute; reflexivity].
Defined.

(** The sample document from end to end: the output holds 2. *)
Lemma shadowing_expanded :
  let '(self, tree) := _collect_xacro_elements Sample.shadowing init in
  _expand_xacro_elements self tree
  = Sample.elem "robot" [("name", "r")]
      [ mkElement "link" {[ "name" := "l2" ]} (Some "v=2") None [] ].
Proof. vm_compute. reflexivity. Qed.

(** C6, as stated, fails.  In [Sample.late_property] the value bound to
    parameter [p] is the text [${b}]; substituting the parameter leaves
    that text, and the expansion of the body then resolves it to the
    value of property [b]. *)
Lemma C6_bound_reference_resolved :
  let '(self, tree) := _collect_xacro_elements Sample.late_property init in
  let call := Sample.elem (Sample.xacro "m") [("p", "${a}")] [] in
  properties self !! "b" = Some "Y"
  /\ param_values_of self ["p"] call !! "p" = Some "${b}"
  /\ _substitute_parameters "${p}" (param_values_of self ["p"] call) = "${b}"
  /\ _expand_xacro_elements self tree
     = Sample.elem "robot" [("name", "r")] [ Sample.elem "link" [("name", "Y")] [] ]
  /\ _expand_xacro_elements self tree
     <> Sample.elem "robot" [("name", "r")] [ Sample.elem "link" [("name", "${b}")] [] ].
Proof.
  vm_compute. repeat split. intros H. discriminate H.
Qed.

(** C6, amended.  Every text has a reading, and for any reading of a
    text each of the two substitutions is one pass: the value that takes
    the place of a reference is put in as it is, whatever it contains,
    and the scan goes on behind the reference; a name with no value
    other than the empty string keeps its reference.  The copy of a macro
    body runs the two in a row on every attribute, and on every text that
    is more than whitespace: parameters first, and properties over the
    result.  So for any reading of the text that the first pass gives,
    the output has every reference of that text, those that came in with
    a bound value too, written as the value of its property. *)
Theorem C6_single_pass_per_call (self : Converter) (params : gmap string string)
    (t : string) :
  (exists ps, reading ps /\ source ps = t)
  /\ forall ps, reading ps -> source ps = t ->
       _resolve_properties self t = render (global_value self) ps
       /\ _substitute_parameters t params = render (local_value params) ps
       /\ (exists qs, reading qs /\ source qs = render (local_value params) ps)
       /\ forall (e : Element) (k : string) (qs : list piece),
            reading qs -> source qs = render (local_value params) ps ->
            (attrib e !! k = Some t ->
             attrib (_expand_macro_content self e params) !! k
             = Some (_resolve_properties self (_substitute_parameters t params))
             /\ attrib (_expand_macro_content self e params) !! k
                = Some (render (global_value self) qs))
            /\ (text e = Some t ->
                text (_expand_macro_content self e params)
                = if has_nonspace t then Some (render (global_value self) qs)
                  else None).
Proof.
  split; [apply reading_exists |]. intros ps Hps <-.
  split; [by apply resolve_reading |].
  split; [by apply substitute_reading |].
  split; [apply reading_exists |].
  intros e k qs Hqs Hsrc.
  destruct (macro_content_reading self params e k ps Hps) as [Ha Ht].
  rewrite <- Hsrc, resolve_reading in Ha, Ht by done.
  split.
  - intros H. split; [by apply macro_content_attrib | by apply Ha].
  - exact Ht.
Qed.

(** The theorem at property [b] with value [Y], parameter [p] bound to
    the text [${b}], and the attribute value [a${p}]: the first pass
    gives [a${b}], the copy of the body gives [aY]. *)
Lemma C6_single_pass_per_call_witness :
  let self := mkConverter {[ "b" := "Y" ]} ∅ [] in
  let params : gmap string string := {[ "p" := "${b}" ]} in
  let t := "a${p}" in
  let e := Sample.elem "link" [("name", t)] [] in
  readingb [Lit "a"; Ref "p"] = true /\ readingb [Lit "a"; Ref "b"] = true
  /\ _substitute_parameters t params = "a${b}"
  /\ attrib (_expand_macro_content self e params) !! "name" = Some "aY".
Proof.
  intros self params t e.
  assert (readingb [Lit "a"; Ref "p"] = true) as Hps by reflexivity.
  assert (readingb [Lit "a"; Ref "b"] = true) as Hqs by reflexivity.
  destruct (proj2 (C6_single_pass_per_call self params t) [Lit "a"; Ref "p"]
              (readingb_reading _ Hps) eq_refl) as (_ & H2 & _ & Hbody).
  destruct (Hbody e "name" [Lit "a"; Ref "b"] (readingb_reading _ Hqs) eq_refl)
    as [Ha _].
  split; [exact Hps |]. split; [exact Hqs |].
  split; [rewrite H2; vm_compute; reflexivity |].
  destruct (Ha eq_refl) as [_ ->]. vm_compute. reflexivity.
Defined.

(** ** C1 and C7: invocations *)

(** C1 at its failing input.  After the collection of
    [Sample.nested_macros] both macros are registered; the invocation of
    [outer] is replaced by the body of [outer], and the invocation of
    [inner] in that body is copied as it is, not replaced by the body of
    [inner]. *)
Lemma C1_nested_invocation_copied :
  let '(self, tree) := _collect_xacro_elements Sample.nested_macros init in
  is_Some (macros self !! "inner") /\ is_Some (macros self !! "outer")
  /\ _is_macro_call self (Sample.elem (Sample.xacro "inner") [("n", "a")] []) = true
  /\ _expand_xacro_elements self tree
     = Sample.elem "robot" [("name", "r")]
         [ Sample.elem (Sample.xacro "inner") [("n", "a")] [] ]
  /\ _expand_xacro_elements self tree <> Sample.nested_macros_expanded.
Proof.
  vm_compute. repeat split; eauto. intros H. discriminate H.
Qed.

(** The copy of a macro body keeps every child, whatever its tag: no
    child is looked up in the macro table. *)
Lemma macro_content_keeps_children self params e :
  tag <$> children (_expand_macro_content self e params) = tag <$> children e.
Proof.
  rewrite macro_content_children.
  induction (children e) as [|c cs IH]; [reflexivity |].
  cbn [List.map fmap list_fmap]. rewrite macro_content_tag. f_equal. exact IH.
Qed.

(** A call that finds no macro expands to nothing. *)
Lemma expand_macro_call_unknown self call :
  find_macro self call = None -> _expand_macro_call self call = [].
Proof. unfold _expand_macro_call. by intros ->. Qed.

(** An element that finds no macro is not a macro call, so
    [_expand_xacro_elements] never passes it to [_expand_macro_call]. *)
Lemma unknown_is_not_macro_call self call :
  find_macro self call = None -> _is_macro_call self call = false.
Proof.
  unfold find_macro, _is_macro_call.
  destruct (macros self !! _get_local_tag (tag call)) eqn:E1; [discriminate |].
  intros E2. rewrite E2.
  rewrite !bool_decide_eq_false_2 by (intros [? ?]; discriminate).
  by rewrite andb_false_r.
Qed.

(** C7 at its failing input.  No macro is defined; the invocation
    [xacro:wheel], with the tag the parser gives it, is copied to the
    output between its siblings.  With the tag written with the bare
    prefix it is dropped. *)
Lemma C7_unknown_invocation_copied :
  let '(self, tree) := _collect_xacro_elements Sample.unknown_macro init in
  macros self = ∅
  /\ _expand_xacro_elements self tree = Sample.unknown_macro
  /\ _expand_xacro_elements self tree <> Sample.unknown_macro_dropped
  /\ _expand_xacro_elements self Sample.unknown_macro_prefixed
     = Sample.unknown_macro_dropped.
Proof.
  vm_compute. repeat split. intros H. discriminate H.
Qed.

(** ** C5: the collection pass *)

(** The collector on a node is its loop on the children of the node. *)
Lemma collect_unfold tg attrs tx tl cs self :
  _collect_xacro_elements (mkElement tg attrs tx tl cs) self
  = let '(self', kept) := collect_children cs self in
    (self', mkElement tg attrs tx tl kept).
Proof.
  simpl.
  match goal with
  | |- (let '(_, _) := ?loop cs self in _) = _ =>
      assert (forall cs self, loop cs self = collect_children cs self) as ->
  end; [| reflexivity].
  clear. induction cs as [|c cs IH]; intros self; simpl; [reflexivity |].
  by rewrite !IH.
Qed.

Lemma strip_declarations_tag e : tag (strip_declarations e) = tag e.
Proof. by destruct e. Qed.

Lemma nodes_root e : nodes e = e :: descendants e.
Proof. by destruct e. Qed.

(** The children kept by the loop are the stripped children that are not
    declarations, in their order, whatever the state is. *)
Lemma collect_children_tree cs :
  Forall (fun c => forall self,
            (_collect_xacro_elements c self).2 = strip_declarations c) cs ->
  forall self,
    (collect_children cs self).2
    = List.flat_map
        (fun c => if is_declaration (tag c) then [] else [strip_declarations c]) cs.
Proof.
  induction 1 as [|c cs Hc _ IH]; intros self; [reflexivity |].
  cbn [collect_children List.flat_map].
  rewrite is_declaration_branches.
  destruct (is_declaration_of "property" (tag c)); [apply IH |].
  destruct (is_declaration_of "macro" (tag c)); [apply IH |].
  destruct (is_declaration_of "include" (tag c)); [apply IH |].
  specialize (Hc self).
  destruct (_collect_xacro_elements c self) as [self1 c']. simpl in Hc, IH.
  specialize (IH self1).
  destruct (collect_children cs self1) as [self2 kept].
  simpl in *. by rewrite Hc, IH.
Qed.

Lemma collect_tree e self :
  (_collect_xacro_elements e self).2 = strip_declarations e.
Proof.
  revert self. induction e as [tg attrs tx tl cs IH] using Element_ind_nested.
  intros self. rewrite collect_unfold.
  pose proof (collect_children_tree cs IH self) as Hcs.
  destruct (collect_children cs self) as [self' kept]. simpl in *. by rewrite Hcs.
Qed.

Lemma strip_declarations_clean e :
  Forall (fun n => is_declaration (tag n) = false) (descendants (strip_declarations e)).
Proof.
  induction e as [tg attrs tx tl cs IH] using Element_ind_nested.
  unfold descendants. cbn [strip_declarations children].
  induction IH as [|c cs Hc _ IHcs]; [constructor |].
  cbn [List.flat_map]. destruct (is_declaration (tag c)) eqn:E; [exact IHcs |].
  cbn [app List.flat_map]. rewrite nodes_root.
  apply Forall_app. split; [| exact IHcs].
  constructor; [by rewrite strip_declarations_tag | exact Hc].
Qed.

(** C5: the tree that the collection pass leaves is the input tree
    without its declarations: at every node the children whose tag is a
    declaration tag are gone and the others follow in their order.  No
    node below the root has a declaration tag; and when the root is
    [robot], as it is whenever [parse_xacro] runs the pass, no node has. *)
Theorem C5_collection_removes_declarations (element : Element) (self : Converter) :
  let element' := (_collect_xacro_elements element self).2 in
  element' = strip_declarations element
  /\ Forall (fun n => is_declaration (tag n) = false) (descendants element')
  /\ (tag element = "robot" ->
      Forall (fun n => is_declaration (tag n) = false) (nodes element')).
Proof.
  intros element'. subst element'. rewrite collect_tree.
  split; [reflexivity |].
  split; [apply strip_declarations_clean |].
  intros Hroot. rewrite nodes_root. constructor; [| apply strip_declarations_clean].
  by rewrite strip_declarations_tag, Hroot.
Qed.

(** The theorem at [Sample.shadowing], whose root is [robot]. *)
Lemma C5_collection_removes_declarations_witness :
  tag Sample.shadowing = "robot"
  /\ Forall (fun n => is_declaration (tag n) = false)
       (nodes (_collect_xacro_elements Sample.shadowing init).2).
Proof.
  split; [reflexivity |].
  by apply (C5_collection_removes_declarations Sample.shadowing init).
Defined.

(** ** C9: expansion of an expanded tree *)

Lemma expand_attrib_expanded self (attrs : gmap string string) :
  map_Forall (attribute_expanded self) attrs -> expand_attrib self attrs = attrs.
Proof.
  intros H. apply map_eq. intros k. unfold expand_attrib.
  rewrite map_lookup_imap. destruct (attrs !! k) as [v|] eqn:E; [| reflexivity].
  specialize (H k v E). unfold attribute_expanded in H. simpl.
  destruct (PyStr.startswith k "xmlns"); [by rewrite H | by rewrite H].
Qed.

Lemma expand_text_expanded self (t : option string) :
  text_expanded self t = true ->
  expand_text self t = if has_content t then t else None.
Proof.
  unfold expand_text. destruct t as [s|]; [| reflexivity].
  cbn [text_expanded]. intros H%bool_decide_eq_true.
  destruct (has_content (Some s)); [| reflexivity]. simpl. by rewrite H.
Qed.

Lemma drop_blank_text_tag e : tag (drop_blank_text e) = tag e.
Proof. by destruct e. Qed.

Lemma is_macro_call_tag self e e' :
  tag e = tag e' -> _is_macro_call self e = _is_macro_call self e'.
Proof. unfold _is_macro_call. by intros ->. Qed.

Lemma expand_expanded self e :
  fully_expanded self e = true -> _expand_xacro_elements self e = drop_blank_text e.
Proof.
  induction e as [tg attrs tx tl cs IH] using Element_ind_nested.
  cbn [fully_expanded _expand_xacro_elements drop_blank_text].
  intros [[[Ha Htx]%andb_true_iff Htl]%andb_true_iff Hcs]%andb_true_iff.
  apply bool_decide_eq_true in Ha.
  rewrite expand_attrib_expanded, !expand_text_expanded by done. f_equal.
  induction IH as [|c cs Hc _ IHcs]; [reflexivity |].
  cbn [forallb] in Hcs.
  apply andb_true_iff in Hcs as [[[Hm Hp]%andb_true_iff Hfe]%andb_true_iff Hcs].
  apply negb_true_iff in Hm, Hp.
  cbn [List.flat_map List.map]. rewrite Hm, Hp. cbn [andb app].
  by rewrite Hc, IHcs.
Qed.

Lemma has_content_dropped (t : option string) :
  has_content (if has_content t then t else None) = has_content t.
Proof. by destruct (has_content t) eqn:E. Qed.

Lemma text_expanded_dropped self (t : option string) :
  text_expanded self t = true ->
  text_expanded self (if has_content t then t else None) = true.
Proof. by destruct (has_content t). Qed.

Lemma drop_blank_text_expanded self e :
  fully_expanded self e = true -> fully_expanded self (drop_blank_text e) = true.
Proof.
  induction e as [tg attrs tx tl cs IH] using Element_ind_nested.
  cbn [fully_expanded drop_blank_text].
  intros [[[Ha Htx]%andb_true_iff Htl]%andb_true_iff Hcs]%andb_true_iff.
  rewrite Ha, !text_expanded_dropped by done. cbn [andb].
  induction IH as [|c cs Hc _ IHcs]; [reflexivity |].
  cbn [forallb] in Hcs.
  apply andb_true_iff in Hcs as [[[Hm Hp]%andb_true_iff Hfe]%andb_true_iff Hcs].
  cbn [List.map forallb].
  rewrite (is_macro_call_tag self _ c) by apply drop_blank_text_tag.
  rewrite drop_blank_text_tag, Hm, Hp, Hc, IHcs by done. reflexivity.
Qed.

Lemma drop_blank_text_idem e : drop_blank_text (drop_blank_text e) = drop_blank_text e.
Proof.
  induction e as [tg attrs tx tl cs IH] using Element_ind_nested.
  cbn [drop_blank_text]. rewrite !has_content_dropped.
  f_equal; try by destruct (has_content _).
  induction IH as [|c cs Hc _ IHcs]; [reflexivity |].
  cbn [List.map]. by rewrite Hc, IHcs.
Qed.

Lemma drop_blank_text_none e :
  no_blank_text e = true -> drop_blank_text e = e.
Proof.
  induction e as [tg attrs tx tl cs IH] using Element_ind_nested.
  cbn [no_blank_text drop_blank_text].
  intros [[Htx Htl]%andb_true_iff Hcs]%andb_true_iff.
  assert (forall t : option string,
            has_content t || bool_decide (t = None) = true ->
            (if has_content t then t else None) = t) as keep.
  { intros t. destruct (has_content t); [reflexivity |].
    simpl. by intros ->%bool_decide_eq_true. }
  rewrite !keep by done. f_equal.
  induction IH as [|c cs Hc _ IHcs]; [reflexivity |].
  cbn [forallb] in Hcs. apply andb_true_iff in Hcs as [Hn Hcs].
  cbn [List.map]. by rewrite Hc, IHcs.
Qed.

(** C9, as stated, fails: [Sample.indented] has no declaration, no
    invocation and no reference, and its expansion is a different tree:
    the text of the root and the tail of the link, which are whitespace,
    are gone. *)
Lemma C9_whitespace_text_dropped :
  fully_expanded init Sample.indented = true
  /\ forallb (fun n => negb (is_declaration (tag n))) (nodes Sample.indented) = true
  /\ text Sample.indented = Some (String "010" "  ")
  /\ text (_expand_xacro_elements init Sample.indented) = None
  /\ _expand_xacro_elements init Sample.indented <> Sample.indented.
Proof.
  vm_compute. repeat split. intros H. discriminate H.
Qed.

(** C9, amended: take a tree in which no child is a macro invocation or
    carries the [xacro:] prefix, no attribute is a namespace declaration
    that mentions [xacro], and no attribute, text or tail holds a
    reference that resolves.  Its expansion is the same tree except that
    every text and tail that is empty or all whitespace is unset; it is
    the very same tree when there is no such text; and expanding the
    result again changes nothing. *)
Theorem C9_expansion_of_expanded_tree (self : Converter) (e : Element) :
  fully_expanded self e = true ->
  _expand_xacro_elements self e = drop_blank_text e
  /\ (no_blank_text e = true -> _expand_xacro_elements self e = e)
  /\ _expand_xacro_elements self (_expand_xacro_elements self e)
     = _expand_xacro_elements self e.
Proof.
  intros H. rewrite (expand_expanded self e H).
  split; [reflexivity |].
  split; [apply drop_blank_text_none |].
  rewrite expand_expanded by by apply drop_blank_text_expanded.
  apply drop_blank_text_idem.
Qed.

(** The theorem at [Sample.indented]. *)
Lemma C9_expansion_of_expanded_tree_witness :
  fully_expanded init Sample.indented = true
  /\ _expand_xacro_elements init Sample.indented = drop_blank_text Sample.indented
  /\ _expand_xacro_elements init (_expand_xacro_elements init Sample.indented)
     = _expand_xacro_elements init Sample.indented.
Proof.
  assert (fully_expanded init Sample.indented = true) as H by (vm_compute; reflexivity).
  split; [exact H |].
  destruct (C9_expansion_of_expanded_tree init Sample.indented H) as (H1 & _ & H3).
  by split.
Defined.

(** ** C10: the state across conversions *)

Lemma carried_over_refl self : carried_over self self.
Proof. by repeat split. Qed.

Lemma carried_over_trans s1 s2 s3 :
  carried_over s1 s2 -> carried_over s2 s3 -> carried_over s1 s3.
Proof.
  intros (Hp1 & Hm1 & Hi1) (Hp2 & Hm2 & Hi2). repeat split.
  - intros k H. by apply Hp2, Hp1.
  - intros k H. by apply Hm2, Hm1.
  - by etrans.
Qed.

Lemma collect_property_carried self child :
  carried_over self (collect_property self child).
Proof.
  unfold collect_property. destruct (get child "name") as [n|]; [| apply carried_over_refl].
  destruct (PyStr.truthy n); [| apply carried_over_refl].
  repeat split; [| done | done]. cbn [properties]. intros k H.
  apply lookup_insert_is_Some. destruct (decide (n = k)); [by left | by right].
Qed.

Lemma collect_macro_carried self child :
  carried_over self (collect_macro self child).
Proof.
  unfold collect_macro. destruct (get child "name") as [n|]; [| apply carried_over_refl].
  destruct (PyStr.truthy n); [| apply carried_over_refl].
  repeat split; [done | | done]. cbn [macros]. intros k H.
  apply lookup_insert_is_Some. destruct (decide (n = k)); [by left | by right].
Qed.

Lemma collect_include_carried self child :
  carried_over self (collect_include self child).
Proof.
  unfold collect_include. destruct (PyStr.truthy _); [| apply carried_over_refl].
  repeat split; [done | done |]. cbn [includes]. by apply prefix_app_r.
Qed.

Lemma collect_children_carried cs :
  Forall (fun c => forall self,
            carried_over self (_collect_xacro_elements c self).1) cs ->
  forall self, carried_over self (collect_children cs self).1.
Proof.
  induction 1 as [|c cs Hc _ IH]; intros self; [apply carried_over_refl |].
  cbn [collect_children].
  destruct (is_declaration_of "property" (tag c));
    [eapply carried_over_trans; [apply collect_property_carried | apply IH] |].
  destruct (is_declaration_of "macro" (tag c));
    [eapply carried_over_trans; [apply collect_macro_carried | apply IH] |].
  destruct (is_declaration_of "include" (tag c));
    [eapply carried_over_trans; [apply collect_include_carried | apply IH] |].
  specialize (Hc self).
  destruct (_collect_xacro_elements c self) as [self1 c']. simpl in Hc.
  specialize (IH self1).
  destruct (collect_children cs self1) as [self2 kept]. simpl in *.
  by eapply carried_over_trans.
Qed.

Lemma collect_carried e self :
  carried_over self (_collect_xacro_elements e self).1.
Proof.
  revert self. induction e as [tg attrs tx tl cs IH] using Element_ind_nested.
  intros self. rewrite collect_unfold.
  pose proof (collect_children_carried cs IH self) as H.
  by destruct (collect_children cs self) as [self' kept].
Qed.

Lemma parse_xacro_carried fromstring content self :
  carried_over self (parse_xacro fromstring content self).2.
Proof.
  unfold parse_xacro. destruct (fromstring content) as [e|root]; [apply carried_over_refl |].
  destruct (negb _); [apply carried_over_refl |].
  pose proof (collect_carried root self) as H.
  by destruct (_collect_xacro_elements root self) as [self' root'].
Qed.

Lemma convert_string_state fromstring format content robot_name self :
  (convert_string fromstring format content robot_name self).2
  = (parse_xacro fromstring content self).2.
Proof.
  unfold convert_string.
  by destruct (parse_xacro fromstring content self) as [[err|root] self'].
Qed.

Lemma parse_xacro_robot fromstring content root self :
  fromstring content = inr root -> tag root = "robot" ->
  parse_xacro fromstring content self
  = (inr (_expand_xacro_elements (_collect_xacro_elements root self).1
            (_collect_xacro_elements root self).2),
     (_collect_xacro_elements root self).1).
Proof.
  intros Hparse Hroot. unfold parse_xacro. rewrite Hparse, Hroot.
  by destruct (_collect_xacro_elements root self).
Qed.

Lemma convert_string_robot fromstring format content root self :
  fromstring content = inr root -> tag root = "robot" ->
  let self' := (_collect_xacro_elements root self).1 in
  let processed_root := _expand_xacro_elements self' (_collect_xacro_elements root self).2 in
  convert_string fromstring format content None self
  = (inr (format (urdf_root_of (get_default processed_root "name" "robot")
                    processed_root)),
     self').
Proof.
  intros Hparse Hroot. unfold convert_string.
  by rewrite (parse_xacro_robot _ _ _ _ Hparse Hroot).
Qed.

(** C10: neither [parse_xacro] nor [convert_string] clears the converter:
    every property and macro defined before the call is defined after
    it, and the includes recorded before are still recorded.  So a second
    conversion on the same converter sees what the first one collected,
    and its result can differ from that of a fresh converter: after the
    conversion of [Sample.first_document], [Sample.second_document]
    expands with the property and the macro of the first document, and
    the tree handed to the formatter is another one. *)
Theorem C10_state_persists (fromstring : string -> string + Element)
    (format : Element -> string) :
  (forall (content : string) (robot_name : option string) (self : Converter),
     carried_over self (parse_xacro fromstring content self).2
     /\ carried_over self (convert_string fromstring format content robot_name self).2)
  /\ (forall first second : string,
        fromstring first = inr Sample.first_document ->
        fromstring second = inr Sample.second_document ->
        let used := (convert_string fromstring format first None init).2 in
        is_Some (properties used !! "radius") /\ is_Some (macros used !! "wheel")
        /\ (parse_xacro fromstring second init).1 = inr Sample.second_fresh
        /\ (parse_xacro fromstring second used).1 = inr Sample.second_after_first
        /\ (convert_string fromstring format second None init).1
           = inr (format (urdf_root_of "two" Sample.second_fresh))
        /\ (convert_string fromstring format second None used).1
           = inr (format (urdf_root_of "two" Sample.second_after_first))
        /\ urdf_root_of "two" Sample.second_fresh
           <> urdf_root_of "two" Sample.second_after_first).
Proof.
  split.
  - intros content robot_name self. rewrite convert_string_state.
    split; apply parse_xacro_carried.
  - intros first second H1 H2 used. subst used.
    rewrite (convert_string_robot _ format _ _ init H1 eq_refl).
    rewrite !(parse_xacro_robot _ _ _ _ H2 eq_refl).
    rewrite !(convert_string_robot _ format _ _ _ H2 eq_refl).
    cbn [fst snd].
    split; [vm_compute; eauto |]. split; [vm_compute; eauto |].
    split; [vm_compute; reflexivity |]. split; [vm_compute; reflexivity |].
    split; [f_equal; f_equal; vm_compute; reflexivity |].
    split; [f_equal; f_equal; vm_compute; reflexivity |].
    vm_compute. intros H. discriminate H.
Qed.

(** The theorem at the sample parser and formatter. *)
Lemma C10_state_persists_witness :
  let used :=
    (convert_string Sample.toy_fromstring Sample.toy_format "first" None init).2 in
  Sample.toy_fromstring "first" = inr Sample.first_document
  /\ Sample.toy_fromstring "second" = inr Sample.second_document
  /\ (parse_xacro Sample.toy_fromstring "second" init).1 = inr Sample.second_fresh
  /\ (parse_xacro Sample.toy_fromstring "second" used).1 = inr Sample.second_after_first.
Proof.
  intros used.
  split; [reflexivity |]. split; [reflexivity |].
  destruct (proj2 (C10_state_persists Sample.toy_fromstring Sample.toy_format)
              "first" "second" eq_refl eq_refl) as (_ & _ & Hfresh & Hused & _).
  by split.
Defined.

(** ** C8: errors of [parse_xacro] *)




















(** * Further properties of the XACRO to URDF converter *)

(** ** The local name of a tag *)

Lemma split_not_nil c (s : string) : PyStr.split c s <> [].
Proof.
  induction s as [|x s IH]; cbn [PyStr.split]; [discriminate |].
  destruct (Ascii.eqb x c); [discriminate |].
  destruct (PyStr.split c s); discriminate.
Qed.

Lemma last_split_no_sep c (s : string) :
  PyStr.has_char c s = false -> List.last (PyStr.split c s) "" = s.
Proof.
  induction s as [|x s IH]; [reflexivity |].
  cbn [PyStr.has_char PyStr.split]. intros [Hx Hs]%orb_false_iff. rewrite Hx.
  specialize (IH Hs).
  destruct (PyStr.split c s) as [|w ws] eqn:E; [by destruct (split_not_nil c s) |].
  destruct ws as [|w' ws]; cbn [List.last] in *; [by rewrite IH |].
  exfalso. clear IH. revert w w' ws E.
  induction s as [|y s IHs]; intros w w' ws E; [discriminate E |].
  cbn [PyStr.has_char PyStr.split] in *. apply orb_false_iff in Hs as [Hy Hs].
  rewrite Hy in E.
  destruct (PyStr.split c s) as [|u us] eqn:Es; [discriminate E |].
  injection E as _ E. subst us. by eapply IHs.
Qed.

Lemma last_split_app c (a b : string) :
  List.last (PyStr.split c (a +:+ String c b)) "" = List.last (PyStr.split c b) "".
Proof.
  induction a as [|x a IH]; simpl.
  - rewrite Ascii.eqb_refl.
    destruct (PyStr.split c b) as [|w ws] eqn:E; [by destruct (split_not_nil c b) |].
    reflexivity.
  - destruct (Ascii.eqb x c).
    + destruct (PyStr.split c (a +:+ String c b)) as [|w ws] eqn:E;
        [by destruct (split_not_nil c (a +:+ String c b)) |].
      exact IH.
    + destruct (PyStr.split c (a +:+ String c b)) as [|w ws] eqn:E;
        [by destruct (split_not_nil c (a +:+ String c b)) |].
      destruct ws as [|w' ws]; cbn [List.last] in *.
      * destruct (PyStr.split c b) as [|v vs] eqn:Eb;
          [by destruct (split_not_nil c b) |].
        exfalso. clear IH.
        assert (length (PyStr.split c (a +:+ String c b)) >= 2) as Hlen.
        { clear. induction a as [|y a IHa]; simpl.
          - rewrite Ascii.eqb_refl. simpl.
            destruct (PyStr.split c b) eqn:E; [by destruct (split_not_nil c b) |].
            simpl. lia.
          - destruct (Ascii.eqb y c); simpl; [lia |].
            destruct (PyStr.split c (a +:+ String c b)) as [|u us]; simpl in *; lia. }
        rewrite E in Hlen. simpl in Hlen. lia.
      * exact IH.
Qed.

Lemma last_split_free c (s : string) :
  PyStr.has_char c (List.last (PyStr.split c s) "") = false.
Proof.
  induction s as [|x s IH]; [reflexivity |].
  cbn [PyStr.split]. destruct (Ascii.eqb x c) eqn:Hx.
  - destruct (PyStr.split c s) as [|w ws] eqn:E; [by destruct (split_not_nil c s) |].
    exact IH.
  - destruct (PyStr.split c s) as [|w ws] eqn:E; [by destruct (split_not_nil c s) |].
    destruct ws as [|w' ws]; cbn [List.last] in *; [| exact IH].
    cbn [PyStr.has_char]. by rewrite Hx, IH.
Qed.

Lemma local_tag_after_brace (a local : string) :
  PyStr.has_char "}" local = false ->
  _get_local_tag (a +:+ "}" +:+ local) = local.
Proof.
  intros Hl. unfold _get_local_tag. rewrite has_char_app. simpl. rewrite orb_true_r.
  rewrite last_split_app. by apply last_split_no_sep.
Qed.

Lemma local_tag_after_colon (a local : string) :
  PyStr.has_char "}" a = false -> PyStr.has_char "}" local = false ->
  PyStr.has_char ":" local = false ->
  _get_local_tag (a +:+ ":" +:+ local) = local.
Proof.
  intros Ha Hl Hc. unfold _get_local_tag.
  rewrite !has_char_app. simpl. rewrite Ha, Hl. simpl. rewrite orb_true_r.
  rewrite last_split_app. by apply last_split_no_sep.
Qed.

(** The local name is what follows the last closing brace of the tag,
    colons included; without a brace it is what follows the last colon. *)
Theorem get_local_tag_qualified (a local : string) :
  PyStr.has_char "}" local = false ->
  _get_local_tag (a +:+ "}" +:+ local) = local
  /\ (PyStr.has_char "}" a = false -> PyStr.has_char ":" local = false ->
      _get_local_tag (a +:+ ":" +:+ local) = local).
Proof.
  intros Hl. split; [by apply local_tag_after_brace |].
  intros Ha Hc. by apply local_tag_after_colon.
Qed.

Lemma get_local_tag_qualified_witness :
  PyStr.has_char "}" "a:b" = false
  /\ _get_local_tag ("{http://www.ros.org/wiki/xacro" +:+ "}" +:+ "a:b") = "a:b".
Proof.
  split; [reflexivity |].
  apply (get_local_tag_qualified "{http://www.ros.org/wiki/xacro" "a:b" eq_refl).
Defined.

(** The local name never holds a closing brace, and a tag that holds
    neither a brace nor a colon is its own local name. *)
Theorem get_local_tag_brace_free (tg : string) :
  PyStr.has_char "}" (_get_local_tag tg) = false
  /\ (PyStr.has_char "}" tg = false ->
      PyStr.has_char ":" (_get_local_tag tg) = false)
  /\ (PyStr.has_char "}" tg = false -> PyStr.has_char ":" tg = false ->
      _get_local_tag tg = tg).
Proof.
  unfold _get_local_tag. destruct (PyStr.has_char "}" tg) eqn:Hb.
  - split; [apply last_split_free |]. split; discriminate.
  - destruct (PyStr.has_char ":" tg) eqn:Hc.
    + split; [| split; [intros _; apply last_split_free | discriminate]].
      destruct (PyStr.has_char "}" (List.last (PyStr.split ":" tg) "")) eqn:E;
        [| reflexivity].
      exfalso. revert E. clear Hc. revert Hb.
      induction tg as [|x s IH]; [discriminate |].
      cbn [PyStr.has_char PyStr.split]. intros [Hx Hs]%orb_false_iff.
      destruct (Ascii.eqb x ":").
      * destruct (PyStr.split ":" s) as [|w ws] eqn:Es;
          [by destruct (split_not_nil ":" s) | by apply IH].
      * destruct (PyStr.split ":" s) as [|w ws] eqn:Es;
          [by destruct (split_not_nil ":" s) |].
        destruct ws as [|w' ws]; cbn [List.last] in *; [| by apply IH].
        cbn [PyStr.has_char]. rewrite Hx. simpl. by apply IH.
    + by repeat split.
Qed.

Lemma get_local_tag_brace_free_witness :
  PyStr.has_char "}" "link" = false /\ PyStr.has_char ":" "link" = false
  /\ _get_local_tag "link" = "link".
Proof.
  split; [reflexivity |]. split; [reflexivity |].
  by apply (get_local_tag_brace_free "link").
Defined.

(** ** Invocations *)

(** The walker takes an element for a macro call exactly when the call
    finds a macro: by the local name first, by the whole tag else.  So
    the walker never passes [_expand_macro_call] an element for which it
    returns the empty list of the macro that is not found, and what it
    puts in place of the call has one node for each child of the macro. *)
Theorem is_macro_call_iff_found (self : Converter) (element : Element) :
  (_is_macro_call self element = true <-> is_Some (find_macro self element))
  /\ (forall macro_def,
        find_macro self element = Some macro_def ->
        (macros self !! _get_local_tag (tag element) = Some macro_def
         \/ (macros self !! _get_local_tag (tag element) = None
             /\ macros self !! tag element = Some macro_def))
        /\ length (_expand_macro_call self element) = length (children macro_def)).
Proof.
  split.
  - unfold _is_macro_call, find_macro.
    destruct (macros self !! _get_local_tag (tag element)) as [m|] eqn:E1.
    + rewrite bool_decide_eq_true_2 by eauto. split; eauto.
    + rewrite !(bool_decide_eq_false_2 (is_Some None))
        by (intros [? ?]; discriminate).
      rewrite andb_false_r.
      destruct (macros self !! tag element) as [m|] eqn:E2.
      * rewrite bool_decide_eq_true_2 by eauto. split; eauto.
      * rewrite bool_decide_eq_false_2 by (intros [? ?]; discriminate).
        split; [discriminate | intros [? ?]; discriminate].
  - intros macro_def Hfound. split.
    + unfold find_macro in Hfound.
      destruct (macros self !! _get_local_tag (tag element)) as [m|];
        [left; congruence | right; by split].
    + rewrite (expand_macro_call_found _ _ _ Hfound). apply List.length_map.
Qed.

Lemma is_macro_call_iff_found_witness :
  let self := (_collect_xacro_elements Sample.shadowing init).1 in
  let call := Sample.elem (Sample.xacro "m") [("x", "2")] [] in
  _is_macro_call self call = true /\ length (_expand_macro_call self call) = 1.
Proof.
  intros self call.
  destruct (is_macro_call_iff_found self call) as [Hiff Hlen].
  assert (is_Some (find_macro self call)) as [m Hm] by (vm_compute; eauto).
  split; [apply Hiff; eauto |].
  destruct (Hlen m Hm) as [_ ->].
  assert (Some m = Some (Sample.elem (Sample.xacro "macro")
                           [("name", "m"); ("params", "x")]
                           [ mkElement "link" {[ "name" := "l${x}" ]}
                               (Some "v=${x}") None [] ])) as [= ->]
    by (rewrite <- Hm; vm_compute; reflexivity).
  reflexivity.
Defined.

(** An attribute of the invocation that is not a declared parameter of
    the macro has no effect: the expansion is the same without it. *)
Theorem undeclared_attribute_ignored (self : Converter) (call macro_def : Element)
    (k : string) :
  find_macro self call = Some macro_def ->
  k ∉ param_names_of macro_def ->
  _expand_macro_call self call
  = _expand_macro_call self
      (mkElement (tag call) (delete k (attrib call)) (text call) (tail call)
         (children call)).
Proof.
  intros Hfound Hk.
  rewrite (expand_macro_call_found _ _ _ Hfound).
  rewrite (expand_macro_call_found _ _ macro_def) by exact Hfound.
  assert (param_values_of self (param_names_of macro_def)
            (mkElement (tag call) (delete k (attrib call)) (text call) (tail call)
               (children call))
          = param_values_of self (param_names_of macro_def) call) as ->;
    [| reflexivity].
  unfold param_values_of. cbn [attrib]. rewrite map_imap_delete.
  apply delete_id. rewrite map_lookup_imap.
  destruct (attrib call !! k) as [v|]; [| reflexivity]. simpl.
  by rewrite bool_decide_eq_false_2.
Qed.

Lemma undeclared_attribute_ignored_witness :
  let self := (_collect_xacro_elements Sample.shadowing init).1 in
  let macro_def :=
    Sample.elem (Sample.xacro "macro") [("name", "m"); ("params", "x")]
      [ mkElement "link" {[ "name" := "l${x}" ]} (Some "v=${x}") None [] ] in
  _expand_macro_call self (Sample.elem (Sample.xacro "m") [("x", "2"); ("y", "3")] [])
  = _expand_macro_call self
      (mkElement (Sample.xacro "m")
         (delete "y" (list_to_map [("x", "2"); ("y", "3")])) None None []).
Proof.
  intros self macro_def.
  apply (undeclared_attribute_ignored self
           (Sample.elem (Sample.xacro "m") [("x", "2"); ("y", "3")] []) macro_def "y").
  - vm_compute. reflexivity.
  - intros H. apply (bool_decide_pack _) in H. vm_compute in H. exact H.
Defined.

(** A declared parameter that the invocation does not pass is unbound:
    a reference to it stands for what it stands for among the
    properties.  For every attribute and text of the macro body and any
    reading of it, the references with a binding are written as the
    bound values, this one stays, and the result is resolved against the
    properties; where the bound values have no [$], [{] or [}] every
    reference is written as its binding if it has one and else as its
    property, this one as its property.  Every text has a reading. *)
Theorem unsupplied_parameter_is_global (self : Converter) (call macro_def : Element)
    (name : string) :
  find_macro self call = Some macro_def ->
  attrib call !! name = None ->
  let params := param_values_of self (param_names_of macro_def) call in
  params !! name = None
  /\ _expand_macro_call self call
     = List.map (fun c => _expand_macro_content self c params) (children macro_def)
  /\ local_value params name = Re.group0 name
  /\ scoped_value self params name = global_value self name
  /\ (forall (n : Element) (k : string) (ps : list piece),
        reading ps ->
        (attrib n !! k = Some (source ps) ->
         attrib (_expand_macro_content self n params) !! k
         = Some (_resolve_properties self (render (local_value params) ps)))
        /\ (text n = Some (source ps) ->
            text (_expand_macro_content self n params)
            = if has_nonspace (source ps)
              then Some (_resolve_properties self (render (local_value params) ps))
              else None)
        /\ ((forall name' v, Ref name' ∈ ps -> params !! name' = Some v ->
                             inert v = true) ->
            _resolve_properties self (render (local_value params) ps)
            = render (scoped_value self params) ps))
  /\ (forall t : string, exists ps, reading ps /\ source ps = t).
Proof.
  intros Hfound Harg params.
  assert (params !! name = None) as Hp.
  { subst params. unfold param_values_of. by rewrite map_lookup_imap, Harg. }
  split; [exact Hp |]. split; [by apply expand_macro_call_found |].
  split; [unfold local_value, nonempty_value; by rewrite Hp |].
  split; [unfold scoped_value, nonempty_value; by rewrite Hp |].
  split; [| apply reading_exists].
  intros n k ps Hps.
  destruct (macro_content_reading self params n k ps Hps) as [Ha Ht].
  split; [exact Ha |]. split; [exact Ht |]. by apply scoped_inert.
Qed.

(** The theorem at [Sample.shadowing_mixed] and an invocation of [m]
    that passes nothing: [${prefix}${x}] becomes [p_1]. *)
Lemma unsupplied_parameter_is_global_witness :
  let self := (_collect_xacro_elements Sample.shadowing_mixed init).1 in
  let call := Sample.elem (Sample.xacro "m") [] [] in
  let mesh := Sample.elem "mesh" [("filename", "$(find pkg)/${x}.stl")] [] in
  let link := Sample.elem "link" [("name", "${prefix}${x}")] [mesh] in
  let macro_def :=
    Sample.elem (Sample.xacro "macro") [("name", "m"); ("params", "x")] [link] in
  let params := param_values_of self (param_names_of macro_def) call in
  find_macro self call = Some macro_def
  /\ attrib call !! "x" = None
  /\ readingb [Ref "prefix"; Ref "x"] = true
  /\ scoped_value self params "x" = "1"
  /\ attrib (_expand_macro_content self link params) !! "name" = Some "p_1".
Proof.
  intros self call mesh link macro_def params.
  assert (find_macro self call = Some macro_def) as H1 by (vm_compute; reflexivity).
  assert (attrib call !! "x" = None) as H2 by (vm_compute; reflexivity).
  assert (readingb [Ref "prefix"; Ref "x"] = true) as H3 by reflexivity.
  destruct (unsupplied_parameter_is_global self call macro_def "x" H1 H2)
    as (_ & _ & _ & Hscoped & Hbody & _).
  do 3 (split; [assumption |]).
  split; [etrans; [exact Hscoped | vm_compute; reflexivity] |].
  destruct (Hbody link "name" [Ref "prefix"; Ref "x"] (readingb_reading _ H3))
    as (Ha & _).
  etrans; [exact (Ha eq_refl) | vm_compute; reflexivity].
Defined.

(** No node that the expansion of a macro puts in the output has a tail:
    the text between the elements of a macro body is lost. *)
Theorem macro_expansion_drops_tails (self : Converter) (call : Element) :
  Forall (fun n => tail n = None) (List.flat_map nodes (_expand_macro_call self call)).
Proof.
  assert (forall params e,
            Forall (fun n => tail n = None)
              (nodes (_expand_macro_content self e params))) as Hnodes.
  { intros params e.
    induction e as [tg attrs tx tl cs IH] using Element_ind_nested.
    cbn [_expand_macro_content nodes]. constructor; [reflexivity |].
    induction IH as [|c cs Hc _ IHcs]; [constructor |].
    cbn [List.map List.flat_map]. apply Forall_app. by split. }
  unfold _expand_macro_call. destruct (find_macro self call) as [macro_def|];
    [| constructor].
  induction (children macro_def) as [|c cs IH]; [constructor |].
  cbn [List.map List.flat_map]. apply Forall_app. split; [apply Hnodes | exact IH].
Qed.

(** ** The collection pass and the converter state *)

Lemma is_declaration_false_branches (tg : string) :
  is_declaration tg = false ->
  is_declaration_of "property" tg = false
  /\ is_declaration_of "macro" tg = false
  /\ is_declaration_of "include" tg = false.
Proof.
  rewrite is_declaration_branches.
  intros [[H1 H2]%orb_false_iff H3]%orb_false_iff. by repeat split.
Qed.

Lemma collect_children_no_declaration cs :
  Forall (fun c => forall self,
            Forall (fun n => is_declaration (tag n) = false) (descendants c) ->
            _collect_xacro_elements c self = (self, c)) cs ->
  forall self,
    Forall (fun n => is_declaration (tag n) = false) (List.flat_map nodes cs) ->
    collect_children cs self = (self, cs).
Proof.
  induction 1 as [|c cs Hc _ IH]; intros self Hclean; [reflexivity |].
  cbn [List.flat_map] in Hclean. apply Forall_app in Hclean as [Hn Hrest].
  rewrite nodes_root in Hn. apply Forall_cons in Hn as [Hroot Hdesc].
  destruct (is_declaration_false_branches _ Hroot) as (H1 & H2 & H3).
  cbn [collect_children]. rewrite H1, H2, H3.
  by rewrite (Hc self Hdesc), (IH self Hrest).
Qed.

Lemma collect_clean_tree (element : Element) (self : Converter) :
  Forall (fun n => is_declaration (tag n) = false) (descendants element) ->
  _collect_xacro_elements element self = (self, element).
Proof.
  revert self. induction element as [tg attrs tx tl cs IH] using Element_ind_nested.
  intros self Hclean. rewrite collect_unfold.
  by rewrite (collect_children_no_declaration cs IH self Hclean).
Qed.

(** A tree with no declaration below its root goes through the
    collection pass unchanged, and so does the converter.  So collection
    is done after one pass: a second pass over a collected tree, from any
    state, changes neither the tree nor the state. *)
Theorem collect_without_declarations (element : Element) (self : Converter) :
  (Forall (fun n => is_declaration (tag n) = false) (descendants element) ->
   _collect_xacro_elements element self = (self, element))
  /\ (forall self0,
        let collected := (_collect_xacro_elements element self0).2 in
        _collect_xacro_elements collected self = (self, collected)).
Proof.
  split; [apply collect_clean_tree |].
  intros self0 collected. apply collect_clean_tree.
  subst collected. rewrite collect_tree. apply strip_declarations_clean.
Qed.

Lemma collect_without_declarations_witness :
  Forall (fun n => is_declaration (tag n) = false) (descendants Sample.unknown_macro)
  /\ _collect_xacro_elements Sample.unknown_macro init = (init, Sample.unknown_macro).
Proof.
  assert (Forall (fun n => is_declaration (tag n) = false)
            (descendants Sample.unknown_macro)) as H
    by (unfold Sample.unknown_macro, Sample.elem, descendants;
        cbn [children List.flat_map nodes app]; repeat constructor).
  split; [exact H |].
  by apply (collect_without_declarations Sample.unknown_macro init).
Defined.

Lemma collect_children_app cs1 cs2 self :
  collect_children (cs1 ++ cs2) self
  = let '(self1, kept1) := collect_children cs1 self in
    let '(self2, kept2) := collect_children cs2 self1 in
    (self2, (kept1 ++ kept2)%list).
Proof.
  revert self. induction cs1 as [|c cs1 IH]; intros self.
  - cbn [app collect_children]. by destruct (collect_children cs2 self).
  - cbn [app collect_children].
    destruct (is_declaration_of "property" (tag c)); [apply IH |].
    destruct (is_declaration_of "macro" (tag c)); [apply IH |].
    destruct (is_declaration_of "include" (tag c)); [apply IH |].
    destruct (_collect_xacro_elements c self) as [self1 c'].
    rewrite IH. destruct (collect_children cs1 self1) as [self2 kept1].
    by destruct (collect_children cs2 self2) as [self3 kept2].
Qed.

(** The children of a node are collected from left to right: collecting
    a node with children [cs1 ++ cs2] is collecting one with children
    [cs1] and then, from the state that leaves, one with children [cs2]. *)
Theorem collect_siblings_in_order (tg : string) (attrs : gmap string string)
    (tx tl : option string) (cs1 cs2 : list Element) (self : Converter) :
  let first := _collect_xacro_elements (mkElement tg attrs tx tl cs1) self in
  let second := _collect_xacro_elements (mkElement tg attrs tx tl cs2) first.1 in
  _collect_xacro_elements (mkElement tg attrs tx tl (cs1 ++ cs2)) self
  = (second.1,
     mkElement tg attrs tx tl (children first.2 ++ children second.2)%list).
Proof.
  intros first second. subst first second.
  rewrite !collect_unfold, collect_children_app.
  destruct (collect_children cs1 self) as [self1 kept1]. cbn [fst snd].
  by destruct (collect_children cs2 self1) as [self2 kept2].
Qed.

(** The last declaration of a property decides its value, and that value
    is resolved against the properties collected before the declaration
    only: when the last child of a node declares property [name], the
    property is the declared value resolved in the state that the
    children before it leave. *)
Theorem last_property_declaration_wins (tg : string) (attrs : gmap string string)
    (tx tl : option string) (cs : list Element) (decl : Element)
    (name : string) (self : Converter) :
  is_declaration_of "property" (tag decl) = true ->
  get decl "name" = Some name -> PyStr.truthy name = true ->
  let before := (_collect_xacro_elements (mkElement tg attrs tx tl cs) self).1 in
  let after := (_collect_xacro_elements (mkElement tg attrs tx tl (cs ++ [decl])) self).1 in
  properties after !! name
    = Some (_resolve_properties before (get_default decl "value" ""))
  /\ (forall k, k <> name -> properties after !! k = properties before !! k)
  /\ macros after = macros before /\ includes after = includes before.
Proof.
  intros Hdecl Hname Htruthy before after. subst before after.
  rewrite !collect_unfold, collect_children_app.
  destruct (collect_children cs self) as [self1 kept1]. cbn [fst snd].
  cbn [collect_children]. rewrite Hdecl. cbn [fst].
  unfold collect_property. rewrite Hname, Htruthy. cbn [properties macros includes].
  split; [apply lookup_insert_eq |].
  split; [| by split]. intros k Hk. by apply lookup_insert_ne.
Qed.

Lemma last_property_declaration_wins_witness :
  let first := Sample.elem (Sample.xacro "property") [("name", "n"); ("value", "1")] [] in
  let decl := Sample.elem (Sample.xacro "property") [("name", "n"); ("value", "${n}2")] [] in
  properties (_collect_xacro_elements
                (mkElement "robot" ∅ None None ([first] ++ [decl])) init).1 !! "n"
  = Some "12".
Proof.
  intros first decl.
  destruct (last_property_declaration_wins "robot" ∅ None None [first] decl "n" init
              eq_refl eq_refl eq_refl) as [-> _].
  vm_compute. reflexivity.
Defined.

Lemma collect_children_macros cs (name : string) (m : Element) :
  Forall (fun c => forall self,
            macros (_collect_xacro_elements c self).1 !! name = Some m ->
            macros self !! name = Some m
            \/ (In m (descendants c)
                /\ is_declaration_of "macro" (tag m) = true
                /\ get m "name" = Some name)) cs ->
  forall self,
    macros (collect_children cs self).1 !! name = Some m ->
    macros self !! name = Some m
    \/ (In m (List.flat_map nodes cs)
        /\ is_declaration_of "macro" (tag m) = true
        /\ get m "name" = Some name).
Proof.
  induction 1 as [|c cs Hc _ IH]; intros self; [by left |].
  cbn [collect_children List.flat_map].
  assert (forall self', macros self' = macros self ->
            macros (collect_children cs self').1 !! name = Some m ->
            macros self !! name = Some m
            \/ (In m (nodes c ++ List.flat_map nodes cs)
                /\ is_declaration_of "macro" (tag m) = true
                /\ get m "name" = Some name)) as Hsame.
  { intros self' Heq H. destruct (IH self' H) as [H'|(Hin & H')].
    - left. by rewrite <- Heq.
    - right. split; [| exact H']. apply List.in_or_app. by right. }
  destruct (is_declaration_of "property" (tag c)) eqn:Hp.
  { apply Hsame. unfold collect_property.
    destruct (get c "name") as [n|]; [| reflexivity]. by destruct (PyStr.truthy n). }
  destruct (is_declaration_of "macro" (tag c)) eqn:Hm.
  { intros H. destruct (IH _ H) as [H'|(Hin & H')].
    - unfold collect_macro in H'.
      destruct (get c "name") as [n|] eqn:Hn; [| by left].
      destruct (PyStr.truthy n); [| by left]. cbn [macros] in H'.
      destruct (decide (n = name)) as [->|Hne].
      + rewrite lookup_insert_eq in H'. injection H' as <-. right.
        split; [| by split]. apply List.in_or_app. left.
        rewrite nodes_root. by left.
      + rewrite lookup_insert_ne in H' by done. by left.
    - right. split; [| exact H']. apply List.in_or_app. by right. }
  destruct (is_declaration_of "include" (tag c)) eqn:Hi.
  { apply Hsame. unfold collect_include. by destruct (PyStr.truthy _). }
  specialize (Hc self).
  destruct (_collect_xacro_elements c self) as [self1 c']. cbn [fst] in Hc.
  specialize (IH self1).
  destruct (collect_children cs self1) as [self2 kept]. cbn [fst] in *.
  intros H. destruct (IH H) as [H'|(Hin & H')].
  - destruct (Hc H') as [H''|(Hin & H'')]; [by left |].
    right. split; [| exact H'']. apply List.in_or_app. left.
    rewrite nodes_root. by right.
  - right. split; [| exact H']. apply List.in_or_app. by right.
Qed.

(** What the macro table holds after a collection pass: an entry that was
    there before, or an element of the document with a macro declaration
    tag, under the name that its [name] attribute gives. *)
Theorem collected_macros_come_from_document (element : Element) (self : Converter)
    (name : string) (m : Element) :
  macros (_collect_xacro_elements element self).1 !! name = Some m ->
  macros self !! name = Some m
  \/ (In m (descendants element)
      /\ is_declaration_of "macro" (tag m) = true
      /\ get m "name" = Some name).
Proof.
  revert self. induction element as [tg attrs tx tl cs IH] using Element_ind_nested.
  intros self. rewrite collect_unfold.
  pose proof (collect_children_macros cs name m IH self) as H.
  by destruct (collect_children cs self) as [self' kept].
Qed.

Lemma collected_macros_come_from_document_witness :
  let m := Sample.elem (Sample.xacro "macro") [("name", "wheel")]
             [ Sample.elem "link" [("name", "w")] [] ] in
  macros (_collect_xacro_elements Sample.first_document init).1 !! "wheel" = Some m
  /\ (macros init !! "wheel" = Some m
      \/ (In m (descendants Sample.first_document)
          /\ is_declaration_of "macro" (tag m) = true
          /\ get m "name" = Some "wheel")).
Proof.
  intros m.
  assert (macros (_collect_xacro_elements Sample.first_document init).1 !! "wheel"
          = Some m) as H by (vm_compute; reflexivity).
  split; [exact H |]. by apply collected_macros_come_from_document.
Defined.

(** ** Resolution without definitions *)

(** A replacement function that gives every reference back leaves the
    whole text as it is. *)
Lemma sub_keep repl (text : string) :
  (forall name, repl name (Re.group0 name) = Re.group0 name) ->
  Re.sub repl text = text.
Proof.
  intros Hrepl.
  assert (forall n (t : string), String.length t <= n -> Re.sub repl t = t) as Hlen;
    [| by apply (Hlen (String.length text))].
  induction n as [|n IH]; intros t Ht.
  - destruct t; [reflexivity | simpl in Ht; lia].
  - destruct t as [|a t']; [reflexivity |].
    destruct (Re.match_here (String a t')) as [name|] eqn:Hm.
    + destruct (match_here_Some _ _ Hm) as [Hn [rest Hrest]].
      rewrite Hrest, sub_ref, Hrepl by done. f_equal. apply IH.
      apply (f_equal String.length) in Hrest. rewrite str_length_app in Hrest.
      unfold Re.group0 in Hrest. simpl in Hrest, Ht. lia.
    + unfold Re.sub. cbn [Re.sub_go]. rewrite Hm. f_equal.
      apply IH. simpl in Ht. lia.
Qed.

(** A converter in which every property that is defined has the empty
    string as its value, in particular one with no property, resolves
    every text to itself, whatever references it holds; and a macro body
    text is left alone by the substitution of no parameter. *)
Theorem resolve_without_values (self : Converter) (text : string) :
  (forall name v, properties self !! name = Some v -> v = "") ->
  _resolve_properties self text = text
  /\ _substitute_parameters text ∅ = text.
Proof.
  intros Hnone. split.
  - apply sub_keep. intros name. unfold lookup_or_keep.
    destruct (properties self !! name) as [v|] eqn:E; [| reflexivity].
    by rewrite (Hnone _ _ E).
  - apply sub_keep. intros name. unfold lookup_or_keep. by rewrite lookup_empty.
Qed.

Lemma resolve_without_values_witness :
  _resolve_properties init "a${b}c${d" = "a${b}c${d".
Proof.
  apply (resolve_without_values init "a${b}c${d").
  intros name v H. unfold init in H. cbn [properties] in H.
  by rewrite lookup_empty in H.
Defined.

(** ** The document walker *)

(** The element that the walker returns has the tag of its input; its
    attributes are attributes of the input; none of them is a namespace
    declaration that mentions [xacro]; and an attribute that is no
    namespace declaration is never lost. *)
Theorem expanded_element_attributes (self : Converter) (element : Element) :
  let expanded := _expand_xacro_elements self element in
  tag expanded = tag element
  /\ (forall k v, attrib expanded !! k = Some v ->
        is_Some (attrib element !! k)
        /\ (PyStr.startswith k "xmlns" = true -> PyStr.contains "xacro" v = false))
  /\ (forall k v, attrib element !! k = Some v ->
        PyStr.startswith k "xmlns" = false ->
        attrib expanded !! k = Some (_resolve_properties self v)).
Proof.
  destruct element as [tg attrs tx tl cs]. cbn [_expand_xacro_elements tag attrib].
  split; [reflexivity |]. unfold expand_attrib. split.
  - intros k v. rewrite map_lookup_imap.
    destruct (attrs !! k) as [w|]; [| discriminate]. simpl.
    destruct (PyStr.startswith k "xmlns").
    + destruct (PyStr.contains "xacro" w) eqn:E; simpl; [discriminate |].
      intros [= <-]. split; [eauto | done].
    + intros _. split; [eauto | discriminate].
  - intros k v Hk Hx. by rewrite map_lookup_imap, Hk; simpl; rewrite Hx.
Qed.

Lemma expanded_element_attributes_witness :
  let e := Sample.elem "robot"
             [("name", "r"); ("xmlns:xacro", "http://www.ros.org/wiki/xacro")] [] in
  attrib e !! "name" = Some "r" /\ PyStr.startswith "name" "xmlns" = false
  /\ attrib (_expand_xacro_elements init e) !! "name"
     = Some (_resolve_properties init "r").
Proof.
  intros e. split; [reflexivity |]. split; [reflexivity |].
  by apply (expanded_element_attributes init e).
Defined.

(** With no macro registered the walker keeps the children one for one,
    in order, each expanded in turn, except those whose tag starts with
    [xacro:], which it drops. *)
Theorem expand_without_macros (self : Converter) (element : Element) :
  macros self = ∅ ->
  children (_expand_xacro_elements self element)
  = List.map (_expand_xacro_elements self)
      (List.filter (fun c => negb (PyStr.startswith (tag c) "xacro:"))
         (children element)).
Proof.
  intros Hm. destruct element as [tg attrs tx tl cs].
  cbn [_expand_xacro_elements children].
  assert (forall c, _is_macro_call self c = false) as Hcall.
  { intros c. apply unknown_is_not_macro_call. unfold find_macro.
    by rewrite Hm, !lookup_empty. }
  induction cs as [|c cs IH]; [reflexivity |].
  cbn [List.flat_map List.filter]. rewrite Hcall, IH. cbn [negb andb].
  rewrite andb_true_r.
  by destruct (PyStr.startswith (tag c) "xacro:").
Qed.

Lemma expand_without_macros_witness :
  macros init = ∅
  /\ children (_expand_xacro_elements init Sample.unknown_macro_prefixed)
     = List.map (_expand_xacro_elements init)
         (List.filter (fun c => negb (PyStr.startswith (tag c) "xacro:"))
            (children Sample.unknown_macro_prefixed)).
Proof.
  split; [reflexivity |].
  by apply (expand_without_macros init Sample.unknown_macro_prefixed).
Defined.

(** ** The conversion of a string *)

Lemma strip_declarations_attrib e : attrib (strip_declarations e) = attrib e.
Proof. by destruct e. Qed.

Lemma expanded_attrib self e :
  attrib (_expand_xacro_elements self e) = expand_attrib self (attrib e).
Proof. by destruct e. Qed.

(** A successful conversion hands the formatter a [robot] element with
    one attribute, [name], and no text: the name is the one passed by the
    caller if there is one, else the [name] attribute of the document
    root with its references resolved against the collected properties,
    else [robot].  No child of that element has a tag that starts with
    [xacro:], and the converter is left in the state after collection. *)
Theorem convert_string_robot_name (fromstring : string -> string + Element)
    (format : Element -> string) (content : string) (doc : Element)
    (robot_name : option string) (self : Converter) :
  fromstring content = inr doc -> tag doc = "robot" ->
  let self' := (_collect_xacro_elements doc self).1 in
  exists urdf_root,
    convert_string fromstring format content robot_name self
    = (inr (format urdf_root), self')
    /\ tag urdf_root = "robot"
    /\ attrib urdf_root
       = {[ "name" :=
              match robot_name with
              | Some n => n
              | None =>
                  match attrib doc !! "name" with
                  | Some v => _resolve_properties self' v
                  | None => "robot"
                  end
              end ]}
    /\ text urdf_root = None /\ tail urdf_root = None
    /\ Forall (fun c => PyStr.startswith (tag c) "xacro:" = false) (children urdf_root).
Proof.
  intros Hparse Hroot self'.
  unfold convert_string. rewrite (parse_xacro_robot _ _ _ _ Hparse Hroot).
  fold self'. eexists. split; [reflexivity |].
  split; [reflexivity |]. split; [| split; [reflexivity | split; [reflexivity |]]].
  - cbn [urdf_root_of attrib]. f_equal.
    destruct robot_name as [n|]; [reflexivity |].
    unfold get_default. rewrite collect_tree.
    rewrite expanded_attrib, strip_declarations_attrib.
    unfold expand_attrib. rewrite map_lookup_imap.
    by destruct (attrib doc !! "name") as [v|].
  - cbn [urdf_root_of children]. apply Forall_forall. intros c Hc.
    apply list_elem_of_In, List.filter_In in Hc as [_ Hc].
    by apply negb_true_iff in Hc.
Qed.

Lemma convert_string_robot_name_witness :
  Sample.toy_fromstring "second" = inr Sample.second_document
  /\ tag Sample.second_document = "robot"
  /\ exists urdf_root,
       convert_string Sample.toy_fromstring Sample.toy_format "second" None init
       = (inr (Sample.toy_format urdf_root),
          (_collect_xacro_elements Sample.second_document init).1)
       /\ tag urdf_root = "robot".
Proof.
  split; [reflexivity |]. split; [reflexivity |].
  destruct (convert_string_robot_name Sample.toy_fromstring Sample.toy_format
              "second" Sample.second_document None init eq_refl eq_refl)
    as (urdf_root & Hc & Ht & _).
  exists urdf_root. by split.
Defined.

(** * Properties of the URDF to XACRO converter *)

(** ** The pattern of a mesh file name *)

Lemma split_app c (a b : string) :
  PyStr.split c (a +:+ String c b) = (PyStr.split c a ++ PyStr.split c b)%list.
Proof.
  induction a as [|x a IH]; simpl.
  - by rewrite Ascii.eqb_refl.
  - destruct (Ascii.eqb x c); [by rewrite IH |].
    rewrite IH. destruct (PyStr.split c a) as [|w ws] eqn:E;
      [by destruct (split_not_nil c a) | reflexivity].
Qed.

Lemma split_no_sep c (s : string) :
  PyStr.has_char c s = false -> PyStr.split c s = [s].
Proof.
  induction s as [|x s IH]; [reflexivity |].
  cbn [PyStr.has_char PyStr.split]. intros [Hx Hs]%orb_false_iff.
  by rewrite Hx, (IH Hs).
Qed.

Lemma has_char_underscore (a b : string) :
  PyStr.has_char "_" (a +:+ "_" +:+ b) = true.
Proof. rewrite has_char_app. simpl. apply orb_true_r. Qed.

(** For a file name that starts with [package://] the pattern is an
    underscore and the last path segment without its extension: the
    second piece of the split at the slashes, which the source takes for
    the package, is the empty text between the two slashes, so neither
    the package nor the directories count. *)
Theorem mesh_pattern_ignores_package (path file : string) :
  PyStr.has_char "/" file = false ->
  _extract_mesh_pattern ("package://" +:+ path +:+ "/" +:+ file)
  = "_" +:+ rsplit_head "." file.
Proof.
  intros Hfile. unfold _extract_mesh_pattern.
  assert (PyStr.contains "package://" ("package://" +:+ path +:+ "/" +:+ file) = true)
    as -> by (apply contains_true; by exists "", (path +:+ "/" +:+ file)).
  assert (PyStr.split "/" ("package://" +:+ path +:+ "/" +:+ file)
          = ("package:" :: "" :: PyStr.split "/" path ++ [file])%list) as ->.
  { change ("package://" +:+ path +:+ "/" +:+ file)
      with ("package:" +:+ String "/" ("" +:+ String "/" (path +:+ String "/" file))).
    rewrite !split_app. by rewrite (split_no_sep "/" file). }
  cbn [PyStr.truthy negb andb length nth]. rewrite List.length_app. cbn [length].
  replace (3 <=? S (S (length (PyStr.split "/" path) + 1)))%nat with true
    by (symmetry; apply Nat.leb_le; lia).
  cbn [andb].
  change ("package:" :: "" :: PyStr.split "/" path ++ [file])%list
    with (("package:" :: "" :: PyStr.split "/" path) ++ [file])%list.
  by rewrite List.last_last.
Qed.

Lemma mesh_pattern_ignores_package_witness :
  PyStr.has_char "/" "wheel.stl" = false
  /\ _extract_mesh_pattern ("package://" +:+ "robot_a/meshes" +:+ "/" +:+ "wheel.stl")
     = "_wheel"
  /\ _extract_mesh_pattern ("package://" +:+ "robot_b/visual" +:+ "/" +:+ "wheel.stl")
     = "_wheel".
Proof.
  split; [reflexivity |].
  split; [apply (mesh_pattern_ignores_package "robot_a/meshes" "wheel.stl" eq_refl) |].
  apply (mesh_pattern_ignores_package "robot_b/visual" "wheel.stl" eq_refl).
Defined.

(** The three outcomes of [_extract_mesh_pattern]: [unknown] for the
    empty name only, [default] for a name without [package://] only, and
    else the second piece of the split at the slashes, an underscore and
    the last piece without its extension; the test on the number of
    pieces never fails. *)
Theorem mesh_pattern_cases (mesh_filename : string) :
  (_extract_mesh_pattern mesh_filename = "unknown" <-> mesh_filename = "")
  /\ (_extract_mesh_pattern mesh_filename = "default"
      <-> mesh_filename <> ""
          /\ PyStr.contains "package://" mesh_filename = false)
  /\ (PyStr.contains "package://" mesh_filename = true ->
      _extract_mesh_pattern mesh_filename
      = nth 1 (PyStr.split "/" mesh_filename) "" +:+ "_"
        +:+ rsplit_head "." (List.last (PyStr.split "/" mesh_filename) "")).
Proof.
  assert (PyStr.contains "package://" mesh_filename = true ->
          (3 <=? length (PyStr.split "/" mesh_filename))%nat = true) as Hlen.
  { intros (a & b & ->)%contains_true.
    change (a +:+ "package://" +:+ b)
      with (a +:+ "package:" +:+ String "/" ("" +:+ String "/" b)).
    rewrite <- str_app_assoc, !split_app, !List.length_app. cbn [PyStr.split length].
    apply Nat.leb_le.
    pose proof (split_not_nil "/" (a +:+ "package:")) as H1.
    pose proof (split_not_nil "/" b) as H2.
    destruct (PyStr.split "/" (a +:+ "package:")); [done |].
    destruct (PyStr.split "/" b); [done |]. simpl. lia. }
  assert (forall a b : string, a +:+ "_" +:+ b <> "unknown"
                               /\ a +:+ "_" +:+ b <> "default") as Hunder.
  { intros a b. pose proof (has_char_underscore a b) as H.
    split; intros E; rewrite E in H; discriminate H. }
  unfold _extract_mesh_pattern.
  destruct mesh_filename as [|x s]; cbn [PyStr.truthy negb].
  { split; [done |]. split; [| discriminate].
    split; [discriminate | by intros [H _]]. }
  destruct (PyStr.contains "package://" (String x s)) eqn:Hc.
  - rewrite (Hlen eq_refl). cbn [andb].
    split; [split; [intros E; by apply Hunder in E | discriminate] |].
    split; [| reflexivity].
    split; [intros E; by apply Hunder in E | intros [_ H]; discriminate H].
  - cbn [andb]. split; [split; discriminate |].
    split; [| discriminate]. by split.
Qed.

Lemma mesh_pattern_cases_witness :
  PyStr.contains "package://" "file:///package://a.b.stl" = true
  /\ _extract_mesh_pattern "file:///package://a.b.stl" = "_a.b".
Proof.
  split; [reflexivity |].
  destruct (mesh_pattern_cases "file:///package://a.b.stl") as (_ & _ & H).
  rewrite (H eq_refl). reflexivity.
Defined.

(** ** Copies of elements *)

Lemma copy_element_nodes e :
  (fun n => (tag n, attrib n)) <$> nodes (copy_element e)
  = (fun n => (tag n, attrib n)) <$> nodes e.
Proof.
  induction e as [tg attrs tx tl cs IH] using Element_ind_nested.
  cbn [copy_element nodes fmap list_fmap tag attrib]. f_equal.
  induction IH as [|c cs Hc _ IHcs]; [reflexivity |].
  cbn [List.map List.flat_map]. rewrite !fmap_app. by rewrite Hc, IHcs.
Qed.

Lemma copied_text_copied tg attrs tx tl cs :
  copied_text (mkElement tg attrs
                 (copied_text (mkElement tg attrs tx tl cs)) None
                 (List.map copy_element cs))
  = copied_text (mkElement tg attrs tx tl cs).
Proof.
  unfold copied_text. cbn [children text].
  destruct cs as [|c cs]; [| reflexivity]. cbn [List.map].
  by destruct (has_content tx) eqn:E; [rewrite E |].
Qed.

Lemma copy_element_idem e : copy_element (copy_element e) = copy_element e.
Proof.
  induction e as [tg attrs tx tl cs IH] using Element_ind_nested.
  cbn [copy_element]. rewrite copied_text_copied. f_equal.
  induction IH as [|c cs Hc _ IHcs]; [reflexivity |].
  cbn [List.map]. by rewrite Hc, IHcs.
Qed.

Lemma copy_element_tails e : Forall (fun n => tail n = None) (nodes (copy_element e)).
Proof.
  induction e as [tg attrs tx tl cs IH] using Element_ind_nested.
  cbn [copy_element nodes]. constructor; [reflexivity |].
  induction IH as [|c cs Hc _ IHcs]; [constructor |].
  cbn [List.map List.flat_map]. apply Forall_app. by split.
Qed.

(** [_copy_element_with_parameterization] parameterizes nothing: the
    children it appends to the target are copies of the children of the
    source that have, node for node and in document order, the same tags
    and the same attributes; no node of a copy has a tail; what the
    target held before stays in front; and a copy of a copy is the same
    copy. *)
Theorem copy_keeps_tags_and_attributes (source target : Element) :
  let result := _copy_element_with_parameterization source target in
  exists copies,
    children result = (children target ++ copies)%list
    /\ tag result = tag target /\ attrib result = attrib target
    /\ (fun n => (tag n, attrib n)) <$> List.flat_map nodes copies
       = (fun n => (tag n, attrib n)) <$> descendants source
    /\ Forall (fun n => tail n = None) (List.flat_map nodes copies)
    /\ List.map copy_element copies = copies.
Proof.
  exists (List.map copy_element (children source)).
  split; [reflexivity |]. split; [reflexivity |]. split; [reflexivity |].
  unfold descendants. induction (children source) as [|c cs (IH1 & IH2 & IH3)].
  - by repeat split.
  - cbn [List.map List.flat_map]. rewrite !fmap_app.
    split; [by rewrite copy_element_nodes, IH1 |].
    split; [apply Forall_app; split; [apply copy_element_tails | exact IH2] |].
    by rewrite copy_element_idem, IH3.
Qed.

(** ** Parameterized links *)

Lemma parameterize_attrib_filename tg attrs (v : string) :
  parameterize_attrib tg attrs !! "filename" = Some v ->
  PyStr.contains "package://" v = false.
Proof.
  unfold parameterize_attrib. rewrite map_lookup_imap.
  destruct (attrs !! "filename") as [w|]; [| discriminate]. simpl.
  destruct (PyStr.contains "package://" w) eqn:E; [by intros [= <-] |].
  destruct (String.eqb tg "mass"); intros [= <-]; exact E.
Qed.

(** X17 *)
Lemma parameterize_element_nodes e :
  nodes (parameterize_element e) = List.map parameterize_element (nodes e).
Proof.
  induction e as [tg attrs tx tl cs IH] using Element_ind_nested.
  cbn [nodes parameterize_element List.map]. f_equal.
  induction IH as [|c cs Hc _ IHcs]; [reflexivity |].
  cbn [List.map List.flat_map]. by rewrite List.map_app, Hc, IHcs.
Qed.

Lemma parameterize_element_node n :
  let n' := parameterize_element n in
  tag n' = tag n
  /\ (forall v, attrib n !! "filename" = Some v ->
        PyStr.contains "package://" v = true ->
        attrib n' !! "filename" = Some "${mesh_file}")
  /\ (tag n = "mass" -> is_Some (attrib n !! "value") ->
      attrib n' !! "value" = Some "${mass}")
  /\ (forall k v, attrib n !! k = Some v ->
        ~ (k = "filename" /\ PyStr.contains "package://" v = true) ->
        ~ (k = "value" /\ tag n = "mass") ->
        attrib n' !! k = Some v)
  /\ (forall k, attrib n !! k = None -> attrib n' !! k = None).
Proof.
  destruct n as [tg attrs tx tl cs]. cbn [parameterize_element tag attrib].
  unfold parameterize_attrib.
  split; [reflexivity |]. split; [| split; [| split]].
  - intros v Hv Hp. rewrite map_lookup_imap, Hv. simpl. by rewrite Hp.
  - intros -> [v Hv]. rewrite map_lookup_imap, Hv. reflexivity.
  - intros k v Hv H1 H2. rewrite map_lookup_imap, Hv. simpl.
    destruct (String.eqb_spec k "filename") as [->|Hk]; simpl.
    + destruct (PyStr.contains "package://" v) eqn:E; [by destruct H1 |]. reflexivity.
    + destruct (String.eqb_spec k "value") as [->|Hk']; [| reflexivity]. simpl.
      destruct (String.eqb_spec tg "mass") as [->|Ht]; [by destruct H2 | reflexivity].
  - intros k Hk. by rewrite map_lookup_imap, Hk.
Qed.

(** In the body of a link macro every node is the copy of a node of
    the source, in the same order and with the same tag.  An attribute
    [filename] with a [package://] name has become the placeholder
    [${mesh_file}], so no [filename] attribute holds a [package://] name
    any more; an attribute [value] of an element [mass] has become the
    placeholder [${mass}]; every other attribute is kept with its value,
    and no attribute is added. *)
Theorem parameterized_link_body (source_elem target_elem : Element) :
  let result := _parameterize_link_element source_elem target_elem in
  exists body,
    children result = (children target_elem ++ body)%list
    /\ tag <$> List.flat_map nodes body = tag <$> descendants source_elem
    /\ Forall (fun n =>
                 (forall v, attrib n !! "filename" = Some v ->
                            PyStr.contains "package://" v = false)
                 /\ (tag n = "mass" -> forall v, attrib n !! "value" = Some v ->
                                                 v = "${mass}"))
         (List.flat_map nodes body)
    /\ Forall2 (fun n n' =>
                  tag n' = tag n
                  /\ (forall v, attrib n !! "filename" = Some v ->
                        PyStr.contains "package://" v = true ->
                        attrib n' !! "filename" = Some "${mesh_file}")
                  /\ (tag n = "mass" -> is_Some (attrib n !! "value") ->
                      attrib n' !! "value" = Some "${mass}")
                  /\ (forall k v, attrib n !! k = Some v ->
                        ~ (k = "filename" /\ PyStr.contains "package://" v = true) ->
                        ~ (k = "value" /\ tag n = "mass") ->
                        attrib n' !! k = Some v)
                  /\ (forall k, attrib n !! k = None -> attrib n' !! k = None))
         (descendants source_elem) (List.flat_map nodes body).
Proof.
  intros result. exists (List.map parameterize_element (children source_elem)).
  split; [reflexivity |].
  assert (List.flat_map nodes (List.map parameterize_element (children source_elem))
          = List.map parameterize_element (descendants source_elem)) as ->.
  { unfold descendants. induction (children source_elem) as [|c cs IH]; [reflexivity |].
    cbn [List.map List.flat_map]. by rewrite List.map_app, parameterize_element_nodes, IH. }
  split; [| split].
  - induction (descendants source_elem) as [|n ns IH]; [reflexivity |].
    cbn [List.map fmap list_fmap]. f_equal; [| exact IH].
    apply (parameterize_element_node n).
  - apply Forall_forall. intros n' Hn'.
    apply list_elem_of_In, in_map_iff in Hn' as (n & <- & _).
    destruct n as [tg attrs tx tl cs]. cbn [parameterize_element tag attrib].
    split; [apply parameterize_attrib_filename |].
    intros -> v. unfold parameterize_attrib. rewrite map_lookup_imap.
    destruct (attrs !! "value") as [w|]; [| discriminate]. simpl. by intros [= <-].
  - induction (descendants source_elem) as [|n ns IH]; [constructor |].
    cbn [List.map]. constructor; [apply parameterize_element_node | exact IH].
Qed.

(** ** Prefixed links and joints *)

Lemma prefixed_link_children (cs : list Element) (acc : Element) :
  foldl (fun link_elem child => _copy_element_with_parameterization child link_elem)
        acc cs
  = mkElement (tag acc) (attrib acc) (text acc) (tail acc)
      (children acc
       ++ List.flat_map (fun c => List.map copy_element (children c)) cs).
Proof.
  revert acc. induction cs as [|c cs IH]; intros acc.
  - cbn [foldl List.flat_map]. rewrite app_nil_r. by destruct acc.
  - cbn [foldl List.flat_map]. rewrite IH.
    unfold _copy_element_with_parameterization. cbn [tag attrib text tail children].
    by rewrite app_assoc.
Qed.

(** The link that [_create_prefixed_link] makes holds copies of the
    children of the children of the original link: the loop passes each
    child as the source of a copy of children, so the children
    themselves, the [visual], [collision] and [inertial] elements, are
    left out, and a link whose children have no children comes out
    empty. *)
Theorem prefixed_link_loses_a_level {float : Type} (link : LinkInfo float) :
  let link_elem := _create_prefixed_link link in
  tag link_elem = "link"
  /\ attrib link_elem = {[ "name" := prefixed_link_name (link_name link) ]}
  /\ children link_elem
     = List.flat_map (fun c => List.map copy_element (children c))
         (children (link_element link))
  /\ (Forall (fun c => children c = []) (children (link_element link)) ->
      children link_elem = []).
Proof.
  intros link_elem. subst link_elem. unfold _create_prefixed_link.
  rewrite prefixed_link_children. cbn [tag attrib children app].
  split; [reflexivity |]. split; [reflexivity |]. split; [reflexivity |].
  induction 1 as [|c cs Hc _ IH]; [reflexivity |].
  cbn [List.flat_map]. by rewrite Hc, IH.
Qed.

Lemma prefixed_link_loses_a_level_witness :
  let visual :=
    Sample.elem "visual" [] [ Sample.elem "origin" [("xyz", "0 0 0")] [] ] in
  let link :=
    mkLinkInfo (float := unit) "arm"
      (Sample.elem "link" [("name", "arm")] [visual]) None None None None in
  children (_create_prefixed_link link)
  = [ Sample.elem "origin" [("xyz", "0 0 0")] [] ].
Proof.
  intros visual link.
  destruct (prefixed_link_loses_a_level link) as (_ & _ & -> & _).
  reflexivity.
Defined.

(** A joint and the links it connects get the same names: the [link]
    attribute that [_create_prefixed_joint] writes for a reference to a
    link is the [name] attribute that [_create_prefixed_link] writes for
    the link of that name.  The children of the joint keep their tags and
    their order, and the joint keeps every attribute but [name], which
    gets the prefix in front. *)
Theorem prefixed_joint_matches_links {float : Type} (joint : JointInfo float)
    (link : LinkInfo float) :
  let joint_elem := _create_prefixed_joint joint in
  tag <$> children joint_elem = tag <$> children (joint_element joint)
  /\ (forall k v, attrib (joint_element joint) !! k = Some v ->
        attrib joint_elem !! k
        = Some (if String.eqb k "name" then "${prefix}" +:+ v else v))
  /\ Forall2 (fun c c' =>
                attrib c !! "link" = Some (link_name link) ->
                attrib c' !! "link"
                = attrib (_create_prefixed_link link) !! "name")
       (children (joint_element joint)) (children joint_elem).
Proof.
  intros joint_elem. subst joint_elem. unfold _create_prefixed_joint.
  cbn [children attrib]. split; [| split].
  - induction (children (joint_element joint)) as [|c cs IH]; [reflexivity |].
    cbn [List.map fmap list_fmap]. f_equal. exact IH.
  - intros k v H. by rewrite map_lookup_imap, H.
  - unfold _create_prefixed_link. rewrite prefixed_link_children. cbn [attrib].
    rewrite lookup_singleton_eq.
    induction (children (joint_element joint)) as [|c cs IH]; constructor;
      [| exact IH].
    intros H. unfold prefixed_joint_child. cbn [attrib].
    by rewrite map_lookup_imap, H.
Qed.

Lemma prefixed_joint_matches_links_witness :
  let joint :=
    mkJointInfo (float := unit) "j1"
      (Sample.elem "joint" [("name", "j1"); ("type", "fixed")]
         [ Sample.elem "parent" [("link", "base_link")] [];
           Sample.elem "child" [("link", "arm")] [] ])
      "fixed" "base_link" "arm" None None in
  attrib (joint_element joint) !! "name" = Some "j1"
  /\ attrib (_create_prefixed_joint joint) !! "name" = Some "${prefix}j1".
Proof.
  intros joint. split; [reflexivity |].
  destruct (prefixed_joint_matches_links joint
              (mkLinkInfo "arm" (Sample.elem "link" [] []) None None None None))
    as (_ & H & _).
  by rewrite (H "name" "j1" eq_refl).
Defined.

(** ** Generated names under the reverse converter *)

(** What [_resolve_properties] of the XACRO to URDF converter makes of a
    generated link name that is not [base_link] and has no dollar sign.
    With a property [prefix] that is not empty the name gets that prefix.
    With the property [prefix] empty, as [_create_properties] declares
    it, the reference stays in the name; and so it does in the name of
    [base_link] under the two declared defaults. *)
Theorem generated_name_resolution (self : Converter) (name : string) :
  dollar_free name = true -> name <> "base_link" ->
  (forall p, properties self !! "prefix" = Some p -> PyStr.truthy p = true ->
             _resolve_properties self (prefixed_link_name name) = p +:+ name)
  /\ (properties self !! "prefix" = Some "" ->
      _resolve_properties self (prefixed_link_name name) = "${prefix}" +:+ name)
  /\ (properties self !! "prefix" = Some "" ->
      properties self !! "base_link_name" = Some "base_link" ->
      _resolve_properties self (prefixed_link_name "base_link")
      = "${prefix}base_link").
Proof.
  intros Hname Hbase.
  assert (prefixed_link_name name = "" +:+ Re.group0 "prefix" +:+ name) as ->.
  { unfold prefixed_link_name. by rewrite (proj2 (String.eqb_neq _ _) Hbase). }
  assert (_resolve_properties self name = name) as Hid by by apply sub_dollar_free.
  split; [| split].
  - intros p Hp Ht. rewrite resolve_ref by done.
    by rewrite (lookup_or_keep_Some _ _ _ p), Hid.
  - intros Hp. rewrite resolve_ref by done.
    by rewrite lookup_or_keep_empty, Hid.
  - intros Hp Hb.
    change (prefixed_link_name "base_link")
      with ("" +:+ Re.group0 "prefix" +:+ ("" +:+ Re.group0 "base_link_name" +:+ "")).
    rewrite resolve_ref by done. rewrite lookup_or_keep_empty by done.
    rewrite resolve_ref by done.
    by rewrite (lookup_or_keep_Some _ _ _ "base_link").
Qed.

Lemma generated_name_resolution_witness :
  let self := mkConverter (<["base_link_name" := "base_link"]> {[ "prefix" := "" ]}) ∅ [] in
  dollar_free "arm" = true /\ "arm" <> "base_link"
  /\ _resolve_properties self (prefixed_link_name "arm") = "${prefix}" +:+ "arm".
Proof.
  intros self.
  assert ("arm" <> "base_link") as H by discriminate.
  split; [reflexivity |]. split; [exact H |].
  by apply (generated_name_resolution self "arm" eq_refl H).
Defined.

(** ** Ordered dictionaries *)

Lemma dict_get_set_eq {V} (d : list (string * V)) k v :
  PyDict.get (PyDict.set d k v) k = Some v.
Proof.
  induction d as [|[k' v'] d IH]; simpl; [by rewrite String.eqb_refl |].
  destruct (String.eqb k' k) eqn:E; simpl; by rewrite E.
Qed.

Lemma dict_get_set_ne {V} (d : list (string * V)) k k' v :
  k <> k' -> PyDict.get (PyDict.set d k v) k' = PyDict.get d k'.
Proof.
  intros Hne. induction d as [|[k0 v0] d IH]; simpl.
  - by rewrite (proj2 (String.eqb_neq _ _) Hne).
  - destruct (String.eqb_spec k0 k) as [->|Hk]; simpl.
    + by rewrite (proj2 (String.eqb_neq _ _) Hne).
    + by rewrite IH.
Qed.

Lemma dict_in_set {V} (d : list (string * V)) k v k' v' :
  In (k', v') (PyDict.set d k v) -> (k' = k /\ v' = v) \/ In (k', v') d.
Proof.
  induction d as [|[k0 v0] d IH]; simpl.
  - intros [[= <- <-] | []]. by left.
  - destruct (String.eqb_spec k0 k) as [->|Hk]; simpl.
    + intros [[= <- <-] | H]; [by left | right; by right].
    + intros [H | H]; [right; by left |].
      destruct (IH H) as [H' | H']; [by left | right; by right].
Qed.

Lemma dict_get_in {V} (d : list (string * V)) k v :
  PyDict.get d k = Some v -> In (k, v) d.
Proof.
  induction d as [|[k0 v0] d IH]; simpl; [discriminate |].
  destruct (String.eqb_spec k0 k) as [->|Hk]; [intros [= ->]; by left |].
  intros H. right. by apply IH.
Qed.

Lemma dict_mem_set {V} (d : list (string * V)) k v k' :
  PyDict.mem d k' = true -> PyDict.mem (PyDict.set d k v) k' = true.
Proof.
  unfold PyDict.mem. destruct (decide (k = k')) as [->|Hne].
  - by rewrite dict_get_set_eq.
  - by rewrite dict_get_set_ne.
Qed.

(** ** The created properties *)

(** [_create_properties] declares [prefix] as the empty string and
    [base_link_name] as [base_link], whatever the converter held under
    those names; [default_mass] is declared when some link has a mass;
    and a property under any other name is kept as it was. *)
Theorem created_properties {float : Type} (str_of_mean : list float -> string)
    (self : UrdfConverter float) :
  let created := urdf_properties (_create_properties str_of_mean self) in
  PyDict.get created "prefix" = Some ""
  /\ PyDict.get created "base_link_name" = Some "base_link"
  /\ PyDict.get created "default_color" = Some "0.8 0.8 0.8 1.0"
  /\ PyDict.get created "package_name" = Some "robot_description"
  /\ (Exists (fun link => is_Some (mass link)) (PyDict.values (links self)) ->
      PyDict.get created "default_mass"
      = Some (str_of_mean (omap mass (PyDict.values (links self)))))
  /\ (forall k, k ∉ ["default_mass"; "default_color"; "package_name"; "prefix";
                     "base_link_name"] ->
        PyDict.get created k = PyDict.get (urdf_properties self) k).
Proof.
  intros created. subst created. unfold _create_properties.
  cbv zeta. cbn [urdf_properties].
  split; [rewrite dict_get_set_ne by done; apply dict_get_set_eq |].
  split; [apply dict_get_set_eq |].
  split; [rewrite !dict_get_set_ne by done; apply dict_get_set_eq |].
  split; [rewrite !dict_get_set_ne by done; apply dict_get_set_eq |].
  split.
  - intros Hmass. rewrite !dict_get_set_ne by done.
    assert (omap mass (PyDict.values (links self)) <> []) as Hne.
    { induction Hmass as [l ls [m Hm] | l ls _ IH]; cbn [omap list_omap].
      - by rewrite Hm.
      - by destruct (mass l). }
    destruct (omap mass (PyDict.values (links self))) as [|m ms]; [done |].
    apply dict_get_set_eq.
  - intros k Hk.
    assert (k <> "default_mass" /\ k <> "default_color" /\ k <> "package_name"
            /\ k <> "prefix" /\ k <> "base_link_name") as (H1 & H2 & H3 & H4 & H5).
    { repeat split; intros ->; apply Hk; set_solver. }
    rewrite !dict_get_set_ne by done.
    destruct (omap mass (PyDict.values (links self))); [reflexivity |].
    by rewrite dict_get_set_ne.
Qed.

Lemma created_properties_witness :
  let link :=
    mkLinkInfo (float := nat) "arm" (Sample.elem "link" [] []) (Some 2) None None None in
  let self := mkUrdfConverter [("arm", link)] [] [] [("prefix", "left_")] [] in
  Exists (fun link => is_Some (mass link)) (PyDict.values (links self))
  /\ PyDict.get (urdf_properties (_create_properties (fun _ => "2.0") self)) "prefix"
     = Some ""
  /\ PyDict.get (urdf_properties (_create_properties (fun _ => "2.0") self))
       "default_mass" = Some "2.0".
Proof.
  intros link self.
  assert (Exists (fun link => is_Some (mass link)) (PyDict.values (links self))) as H
    by (left; by exists 2).
  split; [exact H |].
  destruct (created_properties (fun _ => "2.0") self) as (Hp & _ & _ & _ & Hm & _).
  split; [exact Hp | by apply Hm].
Defined.

(** ** Patterns *)

Lemma group_by_mesh_members {float : Type} (all ls : list (LinkInfo float))
    (acc : list (string * list (LinkInfo float))) :
  let ok pattern (l : LinkInfo float) :=
    In l all /\ exists mesh, visual_mesh l = Some mesh /\ PyStr.truthy mesh = true
                             /\ _extract_mesh_pattern mesh = pattern in
  (forall l, In l ls -> In l all) ->
  (forall pattern members, In (pattern, members) acc -> Forall (ok pattern) members) ->
  forall pattern members,
    In (pattern, members)
       (foldl (fun mesh_patterns link =>
                 match visual_mesh link with
                 | Some mesh =>
                     if PyStr.truthy mesh then
                       let mesh_base := _extract_mesh_pattern mesh in
                       let mesh_patterns :=
                         if negb (PyDict.mem mesh_patterns mesh_base)
                         then PyDict.set mesh_patterns mesh_base []
                         else mesh_patterns in
                       PyDict.set mesh_patterns mesh_base
                         (default [] (PyDict.get mesh_patterns mesh_base) ++ [link])%list
                     else mesh_patterns
                 | None => mesh_patterns
                 end) acc ls) ->
    Forall (ok pattern) members.
Proof.
  intros ok. revert acc. induction ls as [|l ls IH]; intros acc Hall Hacc; [exact Hacc |].
  cbn [foldl]. apply IH; [intros l' Hl'; apply Hall; by right |].
  destruct (visual_mesh l) as [mesh|] eqn:Hmesh; [| exact Hacc].
  destruct (PyStr.truthy mesh) eqn:Ht; [| exact Hacc]. cbv zeta.
  set (d := if negb (PyDict.mem acc (_extract_mesh_pattern mesh))
            then PyDict.set acc (_extract_mesh_pattern mesh) [] else acc).
  assert (forall pattern members, In (pattern, members) d -> Forall (ok pattern) members)
    as Hd.
  { subst d. destruct (negb _); [| exact Hacc].
    intros pattern members [[-> ->] | H]%dict_in_set; [constructor | by eapply Hacc]. }
  intros pattern members [[-> ->] | H]%dict_in_set; [| by eapply Hd].
  apply Forall_app. split.
  - destruct (PyDict.get d (_extract_mesh_pattern mesh)) as [ms|] eqn:E; [| constructor].
    apply (Hd _ _ (dict_get_in _ _ _ E)).
  - constructor; [| constructor]. split; [apply Hall; by left | by exists mesh].
Qed.

Lemma group_members_are_links {float : Type} (all : list (LinkInfo float))
    (pattern : string) (members : list (LinkInfo float)) :
  In (pattern, members) (group_by_mesh all) ->
  Forall (fun l =>
            In l all
            /\ exists mesh, visual_mesh l = Some mesh /\ PyStr.truthy mesh = true
                            /\ _extract_mesh_pattern mesh = pattern)
    members.
Proof.
  intros Hgroup. unfold group_by_mesh in Hgroup.
  refine (group_by_mesh_members all all [] (fun _ H => H) _ _ _ Hgroup).
  intros ? ? [].
Qed.

Lemma patterns_from_groups {float : Type} (self : UrdfConverter float)
    (key : string) (members : list (LinkInfo float)) :
  In (key, members) (_identify_common_patterns self) ->
  2 <= length members
  /\ exists pattern,
       key = "mesh_" +:+ pattern
       /\ In (pattern, members) (group_by_mesh (PyDict.values (links self))).
Proof.
  unfold _identify_common_patterns.
  assert (forall groups acc,
            (forall k ms, In (k, ms) acc ->
               2 <= length ms /\ exists p, k = "mesh_" +:+ p
                 /\ In (p, ms) (group_by_mesh (PyDict.values (links self)))) ->
            (forall g, In g groups -> In g (group_by_mesh (PyDict.values (links self)))) ->
            forall k ms,
              In (k, ms)
                 (foldl (fun patterns '(pattern, ls) =>
                           if (1 <? length ls)%nat
                           then PyDict.set patterns ("mesh_" +:+ pattern) ls
                           else patterns) acc groups) ->
              2 <= length ms /\ exists p, k = "mesh_" +:+ p
                /\ In (p, ms) (group_by_mesh (PyDict.values (links self)))) as Hfold.
  { induction groups as [|[p ls] groups IH]; intros acc Hacc Hsub; [exact Hacc |].
    cbn [foldl]. apply IH; [| intros g Hg; apply Hsub; by right].
    destruct (1 <? length ls)%nat eqn:Hlen; [| exact Hacc].
    intros k ms [[-> ->] | H]%dict_in_set; [| by apply Hacc].
    apply Nat.ltb_lt in Hlen. split; [lia |]. exists p. split; [reflexivity |].
    apply Hsub. by left. }
  apply (Hfold _ [] (fun _ _ H => match H with end) (fun _ H => H)).
Qed.

(** Every pattern that [_identify_common_patterns] returns stands for two
    links or more; its key is [mesh_] and a mesh pattern; and each of its
    links is a link of the converter whose visual mesh is a non-empty
    name with that pattern.  A link without a visual mesh is in no
    pattern. *)
Theorem patterns_group_shared_meshes {float : Type} (self : UrdfConverter float)
    (key : string) (members : list (LinkInfo float)) :
  In (key, members) (_identify_common_patterns self) ->
  2 <= length members
  /\ exists pattern,
       key = "mesh_" +:+ pattern
       /\ Forall (fun l =>
                    In l (PyDict.values (links self))
                    /\ exists mesh, visual_mesh l = Some mesh
                                    /\ PyStr.truthy mesh = true
                                    /\ _extract_mesh_pattern mesh = pattern)
            members.
Proof.
  intros Hin. destruct (patterns_from_groups self key members Hin)
    as [Hlen (pattern & -> & Hgroup)].
  split; [exact Hlen |]. exists pattern. split; [reflexivity |].
  by apply group_members_are_links.
Qed.

Lemma patterns_group_shared_meshes_witness :
  let mesh_link name file :=
    mkLinkInfo (float := unit) name (Sample.elem "link" [] []) None None
      (Some ("package://robot/meshes/" +:+ file)) None in
  let self :=
    mkUrdfConverter
      [("a", mesh_link "a" "wheel.stl"); ("b", mesh_link "b" "wheel.dae");
       ("c", mesh_link "c" "arm.stl")] [] [] [] [] in
  In ("mesh__wheel", [mesh_link "a" "wheel.stl"; mesh_link "b" "wheel.dae"])
     (_identify_common_patterns self)
  /\ 2 <= length [mesh_link "a" "wheel.stl"; mesh_link "b" "wheel.dae"].
Proof.
  intros mesh_link self.
  assert (In ("mesh__wheel", [mesh_link "a" "wheel.stl"; mesh_link "b" "wheel.dae"])
            (_identify_common_patterns self)) as H by (vm_compute; by left).
  split; [exact H |].
  by destruct (patterns_group_shared_meshes self _ _ H).
Defined.

(** ** A link macro and its calls *)

(** The call made for a link passes only parameters that the macro made
    from the template declares, except for the mass: a link with a mass
    gets the attribute [mass] in its call, and the macro declares the
    parameter [mass] only when the template has a mass.  The parameters
    are read as the XACRO to URDF converter reads them
    ([param_names_of]).  The macro is named by the pattern, and the local
    name of the tag of the call is that name when the pattern has no
    colon and no brace. *)
Theorem macro_call_passes_declared_parameters {float : Type}
    (str_of_float : float -> string) (pattern_name : string)
    (link template : LinkInfo float) (macro_def : Element) :
  _create_link_macro pattern_name template = Some macro_def ->
  let call := _create_macro_call str_of_float pattern_name link true in
  ((forall k, is_Some (attrib call !! k) -> k ∈ param_names_of macro_def)
   <-> (mass link = None \/ is_Some (mass template)))
  /\ get macro_def "name" = Some (pattern_name +:+ "_link")
  /\ (PyStr.has_char "}" pattern_name = false ->
      PyStr.has_char ":" pattern_name = false ->
      _get_local_tag (tag call) = pattern_name +:+ "_link").
Proof.
  intros Hmacro call. unfold _create_link_macro in Hmacro.
  destruct (children (link_element template)) as [|c cs]; [discriminate |].
  injection Hmacro as <-.
  assert (forall k, is_Some (attrib call !! k) ->
            k = "prefix" \/ k = "link_name" \/ k = "mesh_file"
            \/ (k = "mass" /\ is_Some (mass link))) as Hkeys.
  { intros k. subst call. unfold _create_macro_call. cbv zeta. cbn [attrib].
    destruct (mass link) as [m|].
    - intros [H|H]%lookup_insert_is_Some; [right; right; right; split; eauto |].
      destruct H as [_ H]. revert H.
      destruct (visual_mesh link) as [mesh|]; [destruct (PyStr.truthy mesh) |];
        destruct (String.eqb (link_name link) "base_link");
        rewrite ?lookup_insert_is_Some, ?lookup_empty; intros H;
        repeat (destruct H as [H|[_ H]]; [eauto |]); by destruct H as [? ?].
    - destruct (visual_mesh link) as [mesh|]; [destruct (PyStr.truthy mesh) |];
        destruct (String.eqb (link_name link) "base_link");
        rewrite ?lookup_insert_is_Some, ?lookup_empty; intros H;
        repeat (destruct H as [H|[_ H]]; [eauto |]); by destruct H as [? ?]. }
  assert (is_Some (mass link) -> is_Some (attrib call !! "mass")) as Hmass.
  { intros [m Hm]. subst call. unfold _create_macro_call. cbv zeta. cbn [attrib].
    rewrite Hm. rewrite lookup_insert_eq. eauto. }
  split; [| split].
  - unfold param_names_of, get_default. cbn [attrib].
    rewrite lookup_insert_eq. cbn [default].
    destruct (mass template) as [mt|]; cbn [String.concat app].
    + split; [intros _; right; eauto |]. intros _ k Hk.
      apply (bool_decide_unpack _).
      destruct (Hkeys k Hk) as [->|[->|[->|[-> _]]]]; vm_compute; exact I.
    + split.
      * intros H. destruct (mass link) as [m|] eqn:Hm; [| by left].
        exfalso. specialize (H "mass" (Hmass (ex_intro _ m eq_refl))).
        apply (bool_decide_pack _) in H. vm_compute in H. exact H.
      * intros [Hm | [? H]]; [| discriminate H]. intros k Hk.
        apply (bool_decide_unpack _).
        destruct (Hkeys k Hk) as [->|[->|[->|[-> [m Hm']]]]];
          [vm_compute; exact I .. | congruence].
  - unfold get. cbn [attrib]. by rewrite lookup_insert_ne, lookup_singleton_eq.
  - intros Hb Hc. subst call. cbn [_create_macro_call tag].
    apply (local_tag_after_colon "xacro" (pattern_name +:+ "_link")).
    + reflexivity.
    + rewrite has_char_app, Hb. reflexivity.
    + rewrite has_char_app, Hc. reflexivity.
Qed.

Lemma macro_call_passes_declared_parameters_witness :
  let template :=
    mkLinkInfo (float := unit) "a"
      (Sample.elem "link" [] [ Sample.elem "visual" [] [] ]) None None None None in
  let link := mkLinkInfo "b" (Sample.elem "link" [] []) (Some tt) None None None in
  let macro_def :=
    mkElement "xacro:macro"
      (<["params" := "prefix link_name mesh_file"]> {[ "name" := "mesh_w_link" ]})
      None None
      [ mkElement "link" {[ "name" := "${prefix}${link_name}" ]} None None
          [ Sample.elem "visual" [] [] ] ] in
  _create_link_macro "mesh_w" template = Some macro_def
  /\ ~ (forall k,
          is_Some (attrib (_create_macro_call (fun _ => "1.0") "mesh_w" link true) !! k) ->
          k ∈ param_names_of macro_def).
Proof.
  intros template link macro_def.
  assert (_create_link_macro "mesh_w" template = Some macro_def) as H
    by (vm_compute; reflexivity).
  split; [exact H |].
  destruct (macro_call_passes_declared_parameters (fun _ => "1.0") "mesh_w" link
              template macro_def H) as [Hiff _].
  intros Hall. destruct (proj1 Hiff Hall) as [Hm | [? Hm]]; discriminate Hm.
Defined.

(** ** Reading a URDF document *)

Section ReadingUrdf.

Context {float : Type}.
Variable float_of_string : string -> string + float.
Variable float_zero : float.

Lemma float_attr_error e (k msg : string) :
  float_attr float_of_string float_zero e k = inl msg
  <-> exists s, attrib e !! k = Some s /\ float_of_string s = inl msg.
Proof.
  unfold float_attr. destruct (attrib e !! k) as [s|].
  - split; [eauto | by intros (s' & [= <-] & H)].
  - split; [discriminate | by intros (s' & H & _)].
Qed.

Lemma inertia_of_error ie (msg : string) :
  inertia_of float_of_string float_zero ie = inl msg
  -> exists k s, k ∈ ["ixx"; "ixy"; "ixz"; "iyy"; "iyz"; "izz"]
                 /\ attrib ie !! k = Some s /\ float_of_string s = inl msg.
Proof.
  unfold inertia_of. intros H.
  repeat match type of H with
         | match float_attr ?f ?z ?e ?k with _ => _ end = _ =>
             let E := fresh "E" in
             destruct (float_attr f z e k) eqn:E;
             [injection H as ->; apply float_attr_error in E as (? & ? & ?);
              eexists k, _; split; [set_solver | done] |]
         end.
  discriminate H.
Qed.

Lemma inertia_of_inr ie d :
  inertia_of float_of_string float_zero ie = inr d ->
  forall k, k ∈ ["ixx"; "ixy"; "ixz"; "iyy"; "iyz"; "izz"] ->
            exists x, float_attr float_of_string float_zero ie k = inr x.
Proof.
  unfold inertia_of. intros H.
  repeat match type of H with
         | match float_attr ?f ?z ?e ?k with _ => _ end = _ =>
             let E := fresh "E" in
             destruct (float_attr f z e k) eqn:E; [discriminate H |]
         end.
  intros k Hk.
  repeat (apply elem_of_cons in Hk as [->|Hk]; [eauto |]).
  by apply elem_of_nil in Hk.
Qed.

(** [_extract_link_info] raises exactly when the link has an [inertial]
    child with an [inertia] child one of whose six entries is present and
    is not a number.  A [mass] whose value is not a number does not
    raise: the link simply has no mass.  A link without a [name] gets the
    empty name. *)
Theorem link_info_raises_on_inertia_only (element : Element) :
  ((exists err, _extract_link_info float_of_string float_zero element = inl err)
   <-> exists inertial inertia_elem k s msg,
         find element "inertial" = Some inertial
         /\ find inertial "inertia" = Some inertia_elem
         /\ k ∈ ["ixx"; "ixy"; "ixz"; "iyy"; "iyz"; "izz"]
         /\ attrib inertia_elem !! k = Some s /\ float_of_string s = inl msg)
  /\ (forall info,
        _extract_link_info float_of_string float_zero element = inr info ->
        link_name info = get_default element "name" ""
        /\ link_element info = element
        /\ (forall inertial mass_elem s msg,
              find element "inertial" = Some inertial ->
              find inertial "mass" = Some mass_elem ->
              attrib mass_elem !! "value" = Some s -> float_of_string s = inl msg ->
              mass info = None)).
Proof.
  assert (forall i me s msg,
            find i "mass" = Some me -> attrib me !! "value" = Some s ->
            float_of_string s = inl msg ->
            match find i "mass" with
            | Some mass_elem =>
                match float_attr float_of_string float_zero mass_elem "value" with
                | inr m => Some m
                | inl _ => None
                end
            | None => None
            end = None) as Hmass.
  { intros i me s msg -> Hs Hf. unfold float_attr. by rewrite Hs, Hf. }
  unfold _extract_link_info. cbv zeta.
  destruct (find element "inertial") as [i|] eqn:Hi.
  - destruct (find i "inertia") as [ie|] eqn:Hie.
    + destruct (inertia_of float_of_string float_zero ie) as [msg|d] eqn:Hin.
      * split.
        -- split; [intros _ | eauto].
           destruct (inertia_of_error _ _ Hin) as (k & s & Hk & Hs & Hf).
           by exists i, ie, k, s, msg.
        -- intros info H. discriminate H.
      * split.
        -- split; [intros [err H]; discriminate H |].
           intros (i' & ie' & k & s & msg & [= <-] & Hie' & Hk & Hs & Hf).
           rewrite Hie in Hie'. injection Hie' as <-.
           destruct (inertia_of_inr _ _ Hin k Hk) as [x Hx].
           assert (float_attr float_of_string float_zero ie k = inl msg) as Hbad
             by (apply float_attr_error; eauto).
           congruence.
        -- intros info [= <-]. cbn. split; [reflexivity |]. split; [reflexivity |].
           intros i' me s msg [= <-]. apply Hmass.
    + split.
      * split; [intros [err H]; discriminate H |].
        intros (i' & ie' & k & s & msg & [= <-] & Hie' & _). congruence.
      * intros info [= <-]. cbn. split; [reflexivity |]. split; [reflexivity |].
        intros i' me s msg [= <-]. apply Hmass.
  - split.
    + split; [intros [err H]; discriminate H |].
      intros (i' & ie' & k & s & msg & H & _). discriminate H.
    + intros info [= <-]. cbn. split; [reflexivity |]. split; [reflexivity |].
      intros i' me s msg H. discriminate H.
Qed.

End ReadingUrdf.

Section ParsingUrdf.

Context {float : Type}.
Variable float_of_string : string -> string + float.
Variable float_zero : float.
Variable fromstring : string -> string + Element.

Lemma urdf_kept_refl (self : UrdfConverter float) : urdf_kept self self.
Proof. by repeat split. Qed.

Lemma urdf_kept_trans (s1 s2 s3 : UrdfConverter float) :
  urdf_kept s1 s2 -> urdf_kept s2 s3 -> urdf_kept s1 s3.
Proof. intros (A1 & B1 & C1) (A2 & B2 & C2). repeat split; eauto. Qed.

Lemma extract_links_outcome ls self :
  let '(err, self') := extract_links float_of_string float_zero ls self in
  urdf_kept self self'
  /\ joints self' = joints self /\ materials self' = materials self
  /\ urdf_properties self' = urdf_properties self
  /\ match err with
     | Some e =>
         Exists (fun l => _extract_link_info float_of_string float_zero l = inl e) ls
     | None =>
         Forall (fun l => exists info,
                   _extract_link_info float_of_string float_zero l = inr info) ls
     end.
Proof.
  revert self. induction ls as [|l ls IH]; intros self.
  - cbn. split; [apply urdf_kept_refl |]. by repeat split.
  - cbn [extract_links].
    destruct (_extract_link_info float_of_string float_zero l) as [e|info] eqn:E.
    + split; [apply urdf_kept_refl |]. repeat split. by left.
    + specialize (IH (mkUrdfConverter (PyDict.set (links self) (link_name info) info)
                        (joints self) (materials self) (urdf_properties self)
                        (urdf_macros self))).
      destruct (extract_links _ _ ls _) as [err self'].
      destruct IH as (Hk & Hj & Hm & Hp & Herr). cbn in Hj, Hm, Hp.
      split; [| split; [exact Hj | split; [exact Hm | split; [exact Hp |]]]].
      * eapply urdf_kept_trans; [| exact Hk].
        repeat split; cbn; [| done | done]. intros k. apply dict_mem_set.
      * destruct err as [e|]; [by right | constructor; eauto].
Qed.

Lemma extract_joints_kept js (self : UrdfConverter float) :
  urdf_kept self (extract_joints float_of_string js self).
Proof.
  revert self. induction js as [|j js IH]; intros self; [apply urdf_kept_refl |].
  unfold extract_joints in *. cbn [foldl].
  eapply urdf_kept_trans; [| apply IH].
  repeat split; cbn; [done | | done]. intros k. apply dict_mem_set.
Qed.

Lemma extract_materials_kept ms (self : UrdfConverter float) :
  urdf_kept self (extract_materials ms self).
Proof.
  revert self. induction ms as [|m ms IH]; intros self; [apply urdf_kept_refl |].
  unfold extract_materials in *. cbn [foldl].
  eapply urdf_kept_trans; [| apply IH].
  destruct (get m "name") as [n|]; [| apply urdf_kept_refl].
  destruct (PyStr.truthy n); [| apply urdf_kept_refl].
  repeat split; cbn; [done | done |]. intros k. apply dict_mem_set.
Qed.

(** [parse_urdf] raises exactly when the parser rejects the text, or the
    root is not [robot], or [_extract_link_info] raises for one of the
    [link] children of the root.  In the first two cases the converter
    is untouched.  In the third the links that precede the failing one
    may have been stored, and the joints, the materials and the
    properties are untouched. *)
Theorem parse_urdf_errors (urdf_content : string) (self : UrdfConverter float) :
  let result := parse_urdf float_of_string float_zero fromstring urdf_content self in
  ((exists err, result.1 = inl err)
   <-> (exists e, fromstring urdf_content = inl e)
       \/ (exists root, fromstring urdf_content = inr root
             /\ (tag root <> "robot"
                 \/ Exists (fun l => exists err,
                              _extract_link_info float_of_string float_zero l = inl err)
                      (findall root "link"))))
  /\ (forall err, result.1 = inl err ->
        joints result.2 = joints self /\ materials result.2 = materials self
        /\ urdf_properties result.2 = urdf_properties self
        /\ ((exists e, fromstring urdf_content = inl e)
            \/ (exists root, fromstring urdf_content = inr root /\ tag root <> "robot")
            -> result.2 = self)).
Proof.
  intros result. subst result. unfold parse_urdf.
  destruct (fromstring urdf_content) as [e|root] eqn:Hparse.
  { cbn. split; [split; eauto |]. intros err _. by repeat split. }
  destruct (String.eqb_spec (tag root) "robot") as [Hroot|Hroot]; cbn [negb].
  2:{ cbn. split; [split; [intros _; right; eauto | eauto] |].
      intros err _. by repeat split. }
  pose proof (extract_links_outcome (findall root "link") self) as Hout.
  destruct (extract_links float_of_string float_zero (findall root "link") self)
    as [[err|] self'].
  - destruct Hout as (_ & Hj & Hm & Hp & Herr). cbn [fst snd]. split.
    + split; [intros _ | intros _; by exists err].
      right. exists root. split; [reflexivity |]. right.
      eapply Exists_impl; [exact Herr |]. intros l Hl. by exists err.
    + intros err' _. repeat split; try done.
      intros [[e H] | (root' & [= <-] & H)]; [discriminate H | by destruct H].
  - destruct Hout as (_ & _ & _ & _ & Hok). cbn [fst snd]. split.
    + split; [intros [err H]; discriminate H |].
      intros [[e H] | (root' & [= <-] & [H | H])]; [discriminate H | by destruct H |].
      exfalso. apply Exists_exists in H as (l & Hl & err & Herr).
      rewrite Forall_forall in Hok. destruct (Hok l Hl) as [info Hinfo]. congruence.
    + intros err H. discriminate H.
Qed.

(** Neither [parse_urdf] nor the conversion of a string clears the
    converter: the links, joints and materials of an earlier document
    are still stored after the next one is read, so they are part of
    what the next conversion writes. *)
Theorem parse_urdf_keeps_earlier_entries (urdf_content : string)
    (self : UrdfConverter float) :
  urdf_kept self (parse_urdf float_of_string float_zero fromstring urdf_content self).2.
Proof.
  unfold parse_urdf.
  destruct (fromstring urdf_content) as [e|root]; [apply urdf_kept_refl |].
  destruct (negb _); [apply urdf_kept_refl |].
  pose proof (extract_links_outcome (findall root "link") self) as Hout.
  destruct (extract_links float_of_string float_zero (findall root "link") self)
    as [[err|] self']; destruct Hout as (Hk & _); [exact Hk |].
  cbn [snd]. eapply urdf_kept_trans; [exact Hk |].
  eapply urdf_kept_trans; [apply extract_joints_kept | apply extract_materials_kept].
Qed.

End ParsingUrdf.

(** ** The main macro *)

Lemma count_unprocessed {float : Type} (ls : list (LinkInfo float))
    (processed : list string) :
  NoDup (link_name <$> ls) -> NoDup processed ->
  (forall n, n ∈ processed -> n ∈ link_name <$> ls) ->
  length (List.filter (fun l => negb (bool_decide (link_name l ∈ processed))) ls)
  + length processed = length ls.
Proof.
  intros Hnames Hproc Hsub.
  assert (length (List.filter
                    (fun l => negb (bool_decide (link_name l ∈ processed))) ls)
          = length (filter (fun n => n ∉ processed) (link_name <$> ls))) as ->.
  { clear. induction ls as [|l ls IH]; [reflexivity |].
    cbn [List.filter fmap list_fmap]. rewrite filter_cons.
    destruct (decide (link_name l ∉ processed)) as [Hn|Hn].
    - rewrite bool_decide_eq_false_2 by done. cbn [negb length]. by rewrite IH.
    - rewrite bool_decide_eq_true_2 by (by apply dec_stable). cbn [negb]. exact IH. }
  assert (filter (fun n => n ∈ processed) (link_name <$> ls) ≡ₚ processed) as Hperm.
  { apply NoDup_Permutation; [by apply NoDup_filter | exact Hproc |].
    intros n. rewrite list_elem_of_filter. split; [by intros [? _] | eauto]. }
  pose proof (filter_app_complement (fun n => n ∈ processed) (link_name <$> ls)) as Hall.
  apply Permutation_length in Hall, Hperm.
  rewrite length_app, length_fmap in Hall. lia.
Qed.

Lemma calls_for_outcome {float : Type} (str_of_float : float -> string)
    (pattern_name : string) (ls : list (LinkInfo float)) (processed : list string) :
  let '(calls, processed') := calls_for str_of_float pattern_name ls processed in
  length calls + length processed = length processed'
  /\ (NoDup processed -> NoDup processed')
  /\ (forall n, n ∈ processed' -> n ∈ processed \/ n ∈ link_name <$> ls)
  /\ Forall (fun c => tag c = "xacro:" +:+ pattern_name +:+ "_link") calls.
Proof.
  revert processed. induction ls as [|l ls IH]; intros processed.
  - cbn. repeat split; eauto.
  - cbn [calls_for]. destruct (decide (link_name l ∈ processed)) as [Hin|Hin].
    + rewrite bool_decide_eq_true_2 by done. specialize (IH processed).
      destruct (calls_for _ _ ls processed) as [calls processed'].
      destruct IH as (H1 & H2 & H3 & H4). repeat split; try done.
      intros n Hn. destruct (H3 n Hn); [by left | right].
      rewrite fmap_cons. by right.
    + rewrite bool_decide_eq_false_2 by done.
      specialize (IH (processed ++ [link_name l])%list).
      destruct (calls_for _ _ ls _) as [calls processed'].
      destruct IH as (H1 & H2 & H3 & H4). rewrite length_app in H1. cbn in H1.
      split; [cbn; lia |]. split; [| split].
      * intros Hnd. apply H2. apply NoDup_app. split; [exact Hnd |].
        split; [| apply NoDup_singleton].
        intros n Hn ->%list_elem_of_singleton. done.
      * intros n Hn. rewrite fmap_cons.
        destruct (H3 n Hn) as [[H | ->%list_elem_of_singleton]%elem_of_app | H];
          [by left | right; by left | right; by right].
      * by constructor.
Qed.

Lemma pattern_calls_outcome {float : Type} (str_of_float : float -> string)
    (patterns : list (string * list (LinkInfo float))) (processed : list string) :
  let '(calls, processed') := pattern_calls str_of_float patterns processed in
  length calls + length processed = length processed'
  /\ (NoDup processed -> NoDup processed')
  /\ (forall n, n ∈ processed' ->
        n ∈ processed
        \/ exists key members, In (key, members) patterns /\ n ∈ link_name <$> members)
  /\ Forall (fun c => exists key members,
               In (key, members) patterns /\ tag c = "xacro:" +:+ key +:+ "_link")
       calls.
Proof.
  revert processed. induction patterns as [|[key members] patterns IH]; intros processed.
  - cbn. repeat split; eauto.
  - cbn [pattern_calls].
    pose proof (calls_for_outcome str_of_float key members processed) as Hc.
    destruct (calls_for _ key members processed) as [calls processed1].
    specialize (IH processed1).
    destruct (pattern_calls _ patterns processed1) as [calls' processed2].
    destruct Hc as (A1 & A2 & A3 & A4). destruct IH as (B1 & B2 & B3 & B4).
    split; [rewrite length_app; lia |]. split; [eauto |]. split.
    + intros n Hn. destruct (B3 n Hn) as [H | (k & ms & Hin & H)].
      * destruct (A3 n H) as [H' | H']; [by left |].
        right. exists key, members. split; [by left | done].
      * right. exists k, ms. split; [by right | done].
    + apply Forall_app. split.
      * eapply Forall_impl; [exact A4 |]. intros c Hc.
        exists key, members. split; [by left | done].
      * eapply Forall_impl; [exact B4 |]. intros c (k & ms & Hin & Hc).
        exists k, ms. split; [by right | done].
Qed.

(** The main macro writes every link once.  When the links of the
    converter have distinct names, the children of the main macro are, in
    this order: the macros of the patterns, one call of such a macro or
    one plain link for each link of the converter, and one joint for each
    joint of the converter. *)
Theorem main_macro_writes_each_link_once {float : Type}
    (str_of_float : float -> string) (self : UrdfConverter float)
    (robot_name : string) :
  NoDup (link_name <$> PyDict.values (links self)) ->
  exists sub_macros calls plain joint_elems,
    children (_create_main_robot_macro str_of_float self robot_name)
    = (sub_macros ++ calls ++ plain ++ joint_elems)%list
    /\ Forall (fun c => tag c = "xacro:macro") sub_macros
    /\ Forall (fun c => PyStr.startswith (tag c) "xacro:mesh_" = true) calls
    /\ Forall (fun c => tag c = "link") plain
    /\ Forall (fun c => tag c = "joint") joint_elems
    /\ length calls + length plain = length (links self)
    /\ length joint_elems = length (joints self).
Proof.
  intros Hnames. unfold _create_main_robot_macro. cbv zeta.
  pose proof (pattern_calls_outcome str_of_float (_identify_common_patterns self) [])
    as Hcalls.
  destruct (pattern_calls str_of_float (_identify_common_patterns self) [])
    as [calls processed].
  destruct Hcalls as (Hlen & Hnd & Hsub & Htags).
  eexists _, calls, _, _. split; [reflexivity |].
  split; [| split; [| split; [| split; [| split]]]].
  - apply Forall_forall. intros c Hc.
    apply list_elem_of_omap in Hc as ([key members] & _ & Hc).
    destruct members as [|template members]; [discriminate |].
    unfold _create_link_macro in Hc.
    destruct (children (link_element template)); [discriminate |].
    by injection Hc as <-.
  - eapply Forall_impl; [exact Htags |].
    intros c (key & members & Hin & ->).
    destruct (patterns_from_groups self key members Hin) as [_ (pattern & -> & _)].
    apply prefix_true. by exists (pattern +:+ "_link").
  - apply Forall_forall. intros c Hc. apply list_elem_of_In, List.in_map_iff in Hc
      as (l & <- & _).
    unfold _create_prefixed_link. by rewrite prefixed_link_children.
  - apply Forall_forall. intros c Hc. apply list_elem_of_In, List.in_map_iff in Hc
      as (j & <- & _). reflexivity.
  - rewrite List.length_map.
    rewrite <- (length_fmap snd (links self)). fold (PyDict.values (links self)).
    cbn [length] in Hlen. rewrite Nat.add_0_r in Hlen. rewrite Hlen.
    rewrite Nat.add_comm. apply count_unprocessed; [exact Hnames | | ].
    + apply Hnd. constructor.
    + intros n Hn. destruct (Hsub n Hn) as [H | (key & members & Hin & H)];
        [by apply elem_of_nil in H |].
      destruct (patterns_from_groups self key members Hin) as [_ (pattern & _ & Hg)].
      pose proof (group_members_are_links _ _ _ Hg) as Hall.
      apply list_elem_of_fmap in H as (l & -> & Hl).
      rewrite Forall_forall in Hall. destruct (Hall l Hl) as [Hlink _].
      apply list_elem_of_fmap. exists l. split; [reflexivity |].
      by apply list_elem_of_In.
  - rewrite List.length_map. unfold PyDict.values. by rewrite length_fmap.
Qed.

Lemma main_macro_writes_each_link_once_witness :
  let mesh_link name file :=
    mkLinkInfo (float := unit) name
      (Sample.elem "link" [] [ Sample.elem "visual" [] [] ]) None None
      (Some ("package://robot/meshes/" +:+ file)) None in
  let self :=
    mkUrdfConverter
      [("a", mesh_link "a" "wheel.stl"); ("b", mesh_link "b" "wheel.dae");
       ("c", mesh_link "c" "arm.stl")] [] [] [] [] in
  NoDup (link_name <$> PyDict.values (links self))
  /\ exists sub_macros calls plain joint_elems,
       children (_create_main_robot_macro (fun _ => "") self "r")
       = (sub_macros ++ calls ++ plain ++ joint_elems)%list
       /\ length calls + length plain = 3.
Proof.
  intros mesh_link self.
  assert (NoDup (link_name <$> PyDict.values (links self))) as H
    by (apply (bool_decide_unpack _); vm_compute; exact I).
  split; [exact H |].
  destruct (main_macro_writes_each_link_once (fun _ => "") self "r" H)
    as (sub & calls & plain & js & Hc & _ & _ & _ & _ & Hlen & _).
  exists sub, calls, plain, js. by split.
Defined.

(** The children of the main macro of that converter. *)
Lemma main_macro_sample :
  let mesh_link name file :=
    mkLinkInfo (float := unit) name
      (Sample.elem "link" [] [ Sample.elem "visual" [] [] ]) None None
      (Some ("package://robot/meshes/" +:+ file)) None in
  let self :=
    mkUrdfConverter
      [("a", mesh_link "a" "wheel.stl"); ("b", mesh_link "b" "wheel.dae");
       ("c", mesh_link "c" "arm.stl")] [] [] [] [] in
  tag <$> children (_create_main_robot_macro (fun _ => "") self "r")
  = ["xacro:macro"; "xacro:mesh__wheel_link"; "xacro:mesh__wheel_link"; "link"].
Proof. vm_compute. reflexivity. Qed.

(** ** Links under their names *)

Lemma dict_set_keyed {V} (name_of : V -> string) (d : list (string * V)) (v : V) :
  NoDup (PyDict.keys d) -> Forall (fun entry => name_of entry.2 = entry.1) d ->
  NoDup (PyDict.keys (PyDict.set d (name_of v) v))
  /\ Forall (fun entry => name_of entry.2 = entry.1) (PyDict.set d (name_of v) v)
  /\ (forall k, k ∈ PyDict.keys (PyDict.set d (name_of v) v)
                <-> k = name_of v \/ k ∈ PyDict.keys d).
Proof.
  unfold PyDict.keys. induction d as [|[k0 v0] d IH]; intros Hnd Hall.
  - cbn. split; [apply NoDup_singleton |]. split; [by constructor |].
    intros k. rewrite list_elem_of_singleton. set_solver.
  - cbn [PyDict.set]. apply NoDup_cons in Hnd as [Hk0 Hnd].
    apply Forall_cons in Hall as [H0 Hall]. cbn in H0.
    destruct (String.eqb_spec k0 (name_of v)) as [->|Hne].
    + cbn. split; [by apply NoDup_cons |]. split; [by constructor |].
      intros k. set_solver.
    + destruct (IH Hnd Hall) as (A & B & C). cbn [fmap list_fmap fst].
      split; [| split; [by constructor |]].
      * apply NoDup_cons. split; [| exact A]. rewrite C. intros [H|H]; done.
      * intros k. rewrite !elem_of_cons, C. tauto.
Qed.

Lemma keyed_names_distinct {float : Type} (self : UrdfConverter float) :
  keyed_by_name self -> NoDup (link_name <$> PyDict.values (links self)).
Proof.
  intros [Hnd Hall]. unfold PyDict.keys, PyDict.values in *.
  assert (link_name <$> (snd <$> links self) = fst <$> links self) as ->; [| exact Hnd].
  clear Hnd. induction Hall as [|[k v] d H _ IH]; [reflexivity |].
  cbn in *. by rewrite H, IH.
Qed.

Section KeyedLinks.

Context {float : Type}.
Variable float_of_string : string -> string + float.
Variable float_zero : float.
Variable fromstring : string -> string + Element.

Lemma extract_links_keyed ls (self : UrdfConverter float) :
  keyed_by_name self ->
  keyed_by_name (extract_links float_of_string float_zero ls self).2.
Proof.
  revert self. induction ls as [|l ls IH]; intros self Hk; [exact Hk |].
  cbn [extract_links].
  destruct (_extract_link_info float_of_string float_zero l) as [e|info]; [exact Hk |].
  apply IH. destruct Hk as [Hnd Hall].
  destruct (dict_set_keyed link_name (links self) info Hnd Hall) as (A & B & _).
  by split.
Qed.

Lemma extract_joints_links js (self : UrdfConverter float) :
  links (extract_joints float_of_string js self) = links self.
Proof.
  revert self. induction js as [|j js IH]; intros self; [reflexivity |].
  unfold extract_joints in *. cbn [foldl]. by rewrite IH.
Qed.

Lemma extract_materials_links ms (self : UrdfConverter float) :
  links (extract_materials ms self) = links self.
Proof.
  revert self. induction ms as [|m ms IH]; intros self; [reflexivity |].
  unfold extract_materials in *. cbn [foldl]. rewrite IH.
  destruct (get m "name") as [n|]; [| reflexivity]. by destruct (PyStr.truthy n).
Qed.

(** [parse_urdf] keeps the links under their own names: a link whose
    name is already stored takes the place of the stored one, so after
    any number of documents the stored links have distinct names, which
    is what the main macro needs to write each link once. *)
Theorem parsed_links_keyed_by_name (urdf_content : string)
    (self : UrdfConverter float) :
  keyed_by_name self ->
  let self' := (parse_urdf float_of_string float_zero fromstring urdf_content self).2 in
  keyed_by_name self'
  /\ NoDup (link_name <$> PyDict.values (links self')).
Proof.
  intros Hk self'.
  assert (keyed_by_name self') as Hk'; [| split; [exact Hk' | by apply keyed_names_distinct]].
  subst self'. unfold parse_urdf.
  destruct (fromstring urdf_content) as [e|root]; [exact Hk |].
  destruct (negb _); [exact Hk |].
  pose proof (extract_links_keyed (findall root "link") self Hk) as H.
  destruct (extract_links float_of_string float_zero (findall root "link") self)
    as [[err|] self1]; [exact H |].
  cbn [snd] in *. unfold keyed_by_name.
  by rewrite extract_materials_links, extract_joints_links.
Qed.

End KeyedLinks.

Lemma parsed_links_keyed_by_name_witness :
  let doc :=
    Sample.elem "robot" [("name", "r")]
      [ Sample.elem "link" [("name", "a")] [];
        Sample.elem "link" [("name", "a")] [ Sample.elem "visual" [] [] ] ] in
  keyed_by_name (urdf_init (float := unit))
  /\ NoDup (link_name <$>
            PyDict.values
              (links (parse_urdf (fun _ => inr tt) tt (fun _ => inr doc) "" urdf_init).2)).
Proof.
  intros doc.
  assert (keyed_by_name (urdf_init (float := unit))) as H
    by (split; [apply NoDup_nil_2 | constructor]).
  split; [exact H |].
  by destruct (parsed_links_keyed_by_name (fun _ => inr tt) tt (fun _ => inr doc) ""
                 urdf_init H).
Defined.

(** ** Joints *)

Section Joints.

Context {float : Type}.
Variable float_of_string : string -> string + float.

Lemma floats_of_Some (ws : list string) (xs : list float) :
  floats_of float_of_string ws = Some xs
  <-> Forall2 (fun w x => float_of_string w = inr x) ws xs.
Proof.
  revert xs. induction ws as [|w ws IH]; intros xs; cbn [floats_of].
  - split; [intros [= <-]; constructor | by intros ->%Forall2_nil_inv_l].
  - destruct (float_of_string w) as [e|x] eqn:E.
    + split; [discriminate |]. intros (y & ys & H & _ & _)%Forall2_cons_inv_l.
      congruence.
    + destruct (floats_of float_of_string ws) as [ys|] eqn:Ews.
      * split.
        -- intros [= <-]. constructor; [exact E | by apply IH].
        -- intros (y & ys' & H & Hall & ->)%Forall2_cons_inv_l.
           apply IH in Hall. congruence.
      * split; [discriminate |].
        intros (y & ys' & H & Hall & ->)%Forall2_cons_inv_l.
        apply IH in Hall. discriminate Hall.
Qed.

Lemma limits_loop (limit_elem : Element) (ks : list string)
    (acc : gmap string float) (k : string) :
  foldl (fun limits attr =>
           match get limit_elem attr with
           | Some value =>
               match float_of_string value with
               | inr x => <[attr := x]> limits
               | inl _ => limits
               end
           | None => limits
           end) acc ks !! k
  = if bool_decide (k ∈ ks) then
      match attrib limit_elem !! k with
      | Some s => match float_of_string s with inr x => Some x | inl _ => acc !! k end
      | None => acc !! k
      end
    else acc !! k.
Proof.
  revert acc. induction ks as [|a ks IH]; intros acc; [reflexivity |].
  cbn [foldl]. rewrite IH. unfold get.
  destruct (decide (k = a)) as [->|Hne].
  - rewrite (bool_decide_eq_true_2 (a ∈ a :: ks)) by set_solver.
    destruct (attrib limit_elem !! a) as [s|] eqn:Ea; [| by case_bool_decide].
    destruct (float_of_string s) as [e|x]; [by case_bool_decide |].
    rewrite lookup_insert_eq. by case_bool_decide.
  - assert (bool_decide (k ∈ a :: ks) = bool_decide (k ∈ ks)) as ->
      by (apply bool_decide_ext; set_solver).
    assert (forall acc' : gmap string float,
              (match attrib limit_elem !! a with
               | Some value =>
                   match float_of_string value with
                   | inr x => <[a := x]> acc'
                   | inl _ => acc'
                   end
               | None => acc'
               end) !! k = acc' !! k) as Hsame.
    { intros acc'. destruct (attrib limit_elem !! a) as [s|]; [| reflexivity].
      destruct (float_of_string s); [reflexivity | by rewrite lookup_insert_ne]. }
    by rewrite Hsame.
Qed.

(** [_extract_joint_info] never raises.  The joint has an axis exactly
    when its [axis] child gives three words that are all numbers ([xyz]
    defaults to the text [0 0 0]); with more or fewer words, or a word
    that is no number, it has none.  Its limits hold exactly the entries
    among [lower], [upper], [effort] and [velocity] that are present and
    are numbers; the others are left out. *)
Theorem joint_axis_and_limits (joint_element : Element) :
  let info := _extract_joint_info float_of_string joint_element in
  (forall x y z,
     axis info = Some (x, y, z)
     <-> exists axis_elem a b c,
           find joint_element "axis" = Some axis_elem
           /\ PyStr.split_ws (get_default axis_elem "xyz" "0 0 0") = [a; b; c]
           /\ float_of_string a = inr x /\ float_of_string b = inr y
           /\ float_of_string c = inr z)
  /\ (find joint_element "limit" = None -> limits info = None)
  /\ (forall limit_elem,
        find joint_element "limit" = Some limit_elem ->
        exists stored,
          limits info = Some stored
          /\ forall k x,
               stored !! k = Some x
               <-> k ∈ ["lower"; "upper"; "effort"; "velocity"]
                   /\ exists s, attrib limit_elem !! k = Some s
                                /\ float_of_string s = inr x).
Proof.
  intros info. subst info. unfold _extract_joint_info. cbn [axis limits].
  split; [| split].
  - intros x y z. destruct (find joint_element "axis") as [ae|].
    + unfold axis_of.
      destruct (floats_of float_of_string (PyStr.split_ws (get_default ae "xyz" "0 0 0")))
        as [xs|] eqn:E.
      * apply floats_of_Some in E. split.
        -- destruct xs as [|x1 [|x2 [|x3 [|x4 xs]]]]; try discriminate.
           intros [= -> -> ->].
           apply Forall2_cons_inv_r in E as (a & ws1 & Ha & E & Hw).
           apply Forall2_cons_inv_r in E as (b & ws2 & Hb & E & ->).
           apply Forall2_cons_inv_r in E as (c & ws3 & Hc & E & ->).
           apply Forall2_nil_inv_r in E as ->.
           exists ae, a, b, c. by rewrite Hw.
        -- intros (ae' & a & b & c & [= <-] & Hw & Ha & Hb & Hc). rewrite Hw in E.
           apply Forall2_cons_inv_l in E as (x1 & xs1 & H1 & E & ->).
           apply Forall2_cons_inv_l in E as (x2 & xs2 & H2 & E & ->).
           apply Forall2_cons_inv_l in E as (x3 & xs3 & H3 & E & ->).
           apply Forall2_nil_inv_l in E as ->. congruence.
      * split; [discriminate |].
        intros (ae' & a & b & c & [= <-] & Hw & Ha & Hb & Hc). rewrite Hw in E.
        assert (floats_of float_of_string [a; b; c] = Some [x; y; z]) as E'
          by (apply floats_of_Some; repeat constructor; done).
        congruence.
    + split; [discriminate |]. intros (ae & a & b & c & H & _). discriminate H.
  - by intros ->.
  - intros limit_elem ->. eexists. split; [reflexivity |].
    intros k x. unfold limits_of. rewrite limits_loop, lookup_empty.
    case_bool_decide as Hk.
    + destruct (attrib limit_elem !! k) as [s|].
      * destruct (float_of_string s) as [e|x'] eqn:E.
        -- split; [discriminate |]. intros (_ & s' & [= <-] & H). congruence.
        -- split; [intros [= <-]; eauto |].
           intros (_ & s' & [= <-] & H). congruence.
      * split; [discriminate |]. intros (_ & s' & H & _). discriminate H.
    + split; [discriminate | by intros [H _]].
Qed.

End Joints.

Lemma joint_axis_and_limits_witness :
  let float_of (s : string) : string + nat :=
    if String.eqb s "1" then inr 1 else if String.eqb s "0" then inr 0
    else inl "could not convert string to float" in
  let joint :=
    Sample.elem "joint" [("name", "j")]
      [ Sample.elem "axis" [("xyz", "0 0 1 0")] [];
        Sample.elem "limit" [("lower", "0"); ("upper", "far")] [] ] in
  find joint "limit" = Some (Sample.elem "limit" [("lower", "0"); ("upper", "far")] [])
  /\ exists stored,
       limits (_extract_joint_info float_of joint) = Some stored
       /\ stored !! "lower" = Some 0.
Proof.
  intros float_of joint.
  assert (find joint "limit"
          = Some (Sample.elem "limit" [("lower", "0"); ("upper", "far")] [])) as H
    by reflexivity.
  split; [exact H |].
  destruct (joint_axis_and_limits float_of joint) as (_ & _ & Hlim).
  destruct (Hlim _ H) as (stored & Hs & Hk).
  exists stored. split; [exact Hs |]. apply Hk.
  split; [set_solver |]. exists "0". by split.
Defined.

(** ** The generated document *)

(** The root that [generate_xacro] formats: a [robot] with the name and
    the XACRO namespace declaration; first one [xacro:property] for each
    property of the converter, in order, [prefix] with the empty value
    among them; then the materials; then the main macro and, last, one
    call of it.  The call passes exactly the parameters that the main
    macro declares, as the XACRO to URDF converter reads them, and the
    local name of its tag is the name of the macro when the robot name
    has no colon and no brace. *)
Theorem generated_document {float : Type} (str_of_float : float -> string)
    (str_of_mean : list float -> string) (self : UrdfConverter float)
    (robot_name : string) :
  let root := (xacro_root_of str_of_float str_of_mean self robot_name).1 in
  let self' := (xacro_root_of str_of_float str_of_mean self robot_name).2 in
  tag root = "robot"
  /\ attrib root
     = <["xmlns:xacro" := "http://www.ros.org/wiki/xacro"]> {[ "name" := robot_name ]}
  /\ PyDict.get (urdf_properties self') "prefix" = Some ""
  /\ exists property_elems main_macro macro_call,
       children root
       = (property_elems ++ PyDict.values (materials self)
          ++ [main_macro; macro_call])%list
       /\ (fun p => (tag p, get p "name", get p "value")) <$> property_elems
          = (fun entry => ("xacro:property", Some entry.1, Some entry.2))
              <$> urdf_properties self'
       /\ tag main_macro = "xacro:macro"
       /\ get main_macro "name" = Some robot_name
       /\ (forall k, is_Some (attrib macro_call !! k) <-> k ∈ param_names_of main_macro)
       /\ (PyStr.has_char "}" robot_name = false ->
           PyStr.has_char ":" robot_name = false ->
           _get_local_tag (tag macro_call) = robot_name).
Proof.
  intros root self'. subst root self'. unfold xacro_root_of. cbv zeta.
  cbn [fst snd tag attrib children].
  split; [reflexivity |]. split; [reflexivity |].
  split.
  { unfold _create_properties. cbv zeta. cbn [urdf_properties].
    rewrite dict_get_set_ne by done. apply dict_get_set_eq. }
  eexists _, _, _. split; [reflexivity |].
  split; [| split; [| split; [| split]]].
  - induction (urdf_properties (_create_properties str_of_mean self))
      as [|[k v] d IH]; [reflexivity |].
    cbn [List.map fmap list_fmap]. apply (f_equal2 cons); [| exact IH].
    unfold get. cbn [tag attrib fst snd].
    by rewrite lookup_insert_ne, lookup_singleton_eq, lookup_insert_eq.
  - unfold _create_main_robot_macro. cbv zeta. by destruct (pattern_calls _ _ _).
  - unfold _create_main_robot_macro. cbv zeta. destruct (pattern_calls _ _ _).
    unfold get. cbn [attrib]. by rewrite lookup_insert_ne, lookup_singleton_eq.
  - intros k.
    assert (param_names_of
              (_create_main_robot_macro str_of_float
                 (_create_properties str_of_mean self) robot_name)
            = ["prefix"; "base_link_name"]) as ->.
    { unfold _create_main_robot_macro. cbv zeta. destruct (pattern_calls _ _ _).
      unfold param_names_of, get_default. cbn [attrib].
      rewrite lookup_insert_eq. reflexivity. }
    cbn [attrib]. rewrite lookup_insert_is_Some, lookup_singleton_is_Some. set_solver.
  - intros Hb Hc. cbn [tag]. by apply (local_tag_after_colon "xacro" robot_name).
Qed.

Lemma generated_document_witness :
  let self := urdf_init (float := unit) in
  let root := (xacro_root_of (fun _ => "") (fun _ => "") self "arm").1 in
  PyStr.has_char "}" "arm" = false /\ PyStr.has_char ":" "arm" = false
  /\ tag root = "robot"
  /\ tag <$> children root
     = ["xacro:property"; "xacro:property"; "xacro:property"; "xacro:property";
        "xacro:macro"; "xacro:arm"].
Proof.
  intros self root.
  split; [reflexivity |]. split; [reflexivity |].
  destruct (generated_document (fun _ => "") (fun _ => "") self "arm") as [Htag _].
  split; [exact Htag |]. vm_compute. reflexivity.
Defined.

(** ** Samples for the readers of URDF *)

Lemma link_info_raises_on_inertia_only_witness :
  let float_of (s : string) : string + nat :=
    if String.eqb s "1" then inr 1
    else inl "could not convert string to float" in
  let link :=
    Sample.elem "link" [("name", "a")]
      [ Sample.elem "inertial" []
          [ Sample.elem "mass" [("value", "heavy")] [];
            Sample.elem "inertia" [("ixx", "1")] [] ] ] in
  exists info,
    _extract_link_info float_of 0 link = inr info
    /\ link_name info = "a" /\ mass info = None.
Proof.
  intros float_of link.
  destruct (_extract_link_info float_of 0 link) as [err|info] eqn:E;
    [vm_compute in E; discriminate E |].
  exists info. split; [reflexivity |].
  destruct (link_info_raises_on_inertia_only float_of 0 link) as [_ H].
  destruct (H info E) as (Hn & _ & Hm). split; [exact Hn |].
  by apply (Hm (Sample.elem "inertial" []
                  [ Sample.elem "mass" [("value", "heavy")] [];
                    Sample.elem "inertia" [("ixx", "1")] [] ])
               (Sample.elem "mass" [("value", "heavy")] []) "heavy"
               "could not convert string to float").
Defined.

Lemma parse_urdf_errors_witness :
  let float_of (s : string) : string + nat :=
    if String.eqb s "1" then inr 1
    else inl "could not convert string to float" in
  let doc :=
    Sample.elem "robot" [("name", "r")]
      [ Sample.elem "link" [("name", "a")] [];
        Sample.elem "link" [("name", "b")]
          [ Sample.elem "inertial" [] [ Sample.elem "inertia" [("iyy", "big")] [] ] ] ] in
  let result := parse_urdf float_of 0 (fun _ => inr doc) "" urdf_init in
  result.1 = inl (ValueError "could not convert string to float")
  /\ PyDict.keys (links result.2) = ["a"]
  /\ joints result.2 = [].
Proof.
  intros float_of doc result.
  assert (result.1 = inl (ValueError "could not convert string to float")) as H
    by (vm_compute; reflexivity).
  split; [exact H |]. split; [vm_compute; reflexivity |].
  destruct (parse_urdf_errors float_of 0 (fun _ => inr doc) "" urdf_init) as [_ Hs].
  by destruct (Hs _ H) as (Hj & _).
Defined.
